(** * webappbot: the schema compiler of [src/webapp.ts]

    A shallow embedding of the spreadsheet-to-schema pipeline
    ([getSheetsHavingModels], [getModelsDataAndPartialsFromWorkbook],
    [fillPartials], [replaceWebAppTypesWithModelType],
    [segregateAPISections], [processRoutesDataFromModelsData],
    [xlsxToJSON]) and of the model processing of [processModels]
    (type resolution, relationship expansion, hierarchy sorting, the
    import list of [db.go], and [readModulePath]).

    JavaScript objects are insertion-ordered association lists with
    string keys (a key that is a canonical array index, which JavaScript
    enumerates first, keeps its insertion place here); a [for ... in]
    loop walks the keys that exist when the loop starts and skips a key
    that was deleted before its turn.  Thrown exceptions are results of
    the [result] type.  Strings are byte strings and case folding covers
    the ASCII letters. *)

From Stdlib Require Import String Ascii List ZArith QArith Qabs Lia Bool DecimalString
  Permutation.
From stdpp Require Import base decidable option list.
Import ListNotations.
Local Open Scope string_scope.
Local Open Scope list_scope.

Set Default Proof Using "Type".
Set Warnings "-register-all".

(** ** Exceptions *)

(** [TypeError] is the exception JavaScript raises on a property access
    on [undefined] or a call of a missing method.  [Unsupported] marks an
    input on which the program relies on a language feature this
    development does not embed (rendering a fractional number as text,
    parsing text as a number, members inherited from [Object.prototype],
    the classes of characters beyond ASCII);
    nothing is stated about the program on such inputs. *)
Inductive error : Type :=
| TypeError
| Unsupported.

Inductive result (A : Type) : Type :=
| Ok (a : A)
| Throw (e : error).
Arguments Ok {A} a.
Arguments Throw {A} e.

Definition rbind {A B} (c : result A) (k : A -> result B) : result B :=
  match c with
  | Ok a => k a
  | Throw e => Throw e
  end.

Notation "x <-- c ;; k" := (rbind c (fun x => k))
  (at level 100, c at next level, right associativity).

(** A loop over an array or over the keys of an object, with early exit
    on an exception. *)
Fixpoint forEachM {A S} (body : S -> A -> result S) (l : list A) (s : S)
  : result S :=
  match l with
  | [] => Ok s
  | x :: r => s' <-- body s x ;; forEachM body r s'
  end.

(** ** Strings *)

Module Str.

Definition isUpper (c : ascii) : bool :=
  let n := nat_of_ascii c in (65 <=? n)%nat && (n <=? 90)%nat.

Definition lowerChar (c : ascii) : ascii :=
  if isUpper c then ascii_of_nat (nat_of_ascii c + 32) else c.

(** [String.prototype.toLowerCase] / [toLocaleLowerCase] (default
    locale), on ASCII letters. *)
Fixpoint toLowerCase (s : string) : string :=
  match s with
  | EmptyString => EmptyString
  | String c r => String (lowerChar c) (toLowerCase r)
  end.

Fixpoint drop (n : nat) (s : string) : string :=
  match n, s with
  | O, _ => s
  | S n', String _ r => drop n' r
  | S _, EmptyString => EmptyString
  end.

(** [s.replace(/pat/, rep)] for a pattern that is a literal text:
    the leftmost occurrence is replaced. *)
Fixpoint replaceFirst (pat rep s : string) : string :=
  if String.prefix pat s then (rep ++ drop (String.length pat) s)%string
  else match s with
       | EmptyString => EmptyString
       | String c r => String c (replaceFirst pat rep r)
       end.

(** [s.match(/c/)] for a single literal character. *)
Fixpoint contains (c : ascii) (s : string) : bool :=
  match s with
  | EmptyString => false
  | String d r => Ascii.eqb d c || contains c r
  end.

(** [s.split(c)] *)
Fixpoint split (c : ascii) (s : string) : list string :=
  match s with
  | EmptyString => [EmptyString]
  | String d r =>
      if Ascii.eqb d c then EmptyString :: split c r
      else match split c r with
           | [] => [String d EmptyString]
           | h :: t => String d h :: t
           end
  end.

(** [arr.includes(s)] on an array of strings. *)
Definition includes (s : string) (l : list string) : bool :=
  existsb (String.eqb s) l.

End Str.

(** ** Objects *)

Module Obj.
Section Defs.
Context {V : Type}.

(** [Object.keys(o)] *)
Definition keys (o : list (string * V)) : list string := map fst o.

(** own property read *)
Fixpoint get (k : string) (o : list (string * V)) : option V :=
  match o with
  | [] => None
  | (k', v) :: r => if String.eqb k k' then Some v else get k r
  end.

(** [o[k] = v]: an existing key keeps its place, a new key goes last *)
Fixpoint set (k : string) (v : V) (o : list (string * V))
  : list (string * V) :=
  match o with
  | [] => [(k, v)]
  | (k', v') :: r =>
      if String.eqb k k' then (k, v) :: r else (k', v') :: set k v r
  end.

(** [delete o[k]] *)
Fixpoint del (k : string) (o : list (string * V)) : list (string * V) :=
  match o with
  | [] => []
  | (k', v') :: r =>
      if String.eqb k k' then del k r else (k', v') :: del k r
  end.

End Defs.
End Obj.

(** The members every plain object inherits from [Object.prototype]: a
    read [o[k]] of such a [k] that is not an own property of [o] yields
    the inherited function or object, not [undefined]. *)
Definition inheritedNames : list string :=
  [ "constructor"; "__defineGetter__"; "__defineSetter__"; "hasOwnProperty";
    "__lookupGetter__"; "__lookupSetter__"; "isPrototypeOf";
    "propertyIsEnumerable"; "toString"; "valueOf"; "__proto__";
    "toLocaleString" ].

Definition inherited (k : string) : bool := Str.includes k inheritedNames.

(** [o[k] = v] for a computed key: the key ["__proto__"] names the
    prototype slot of [o], not a property. *)
Definition setProp {V} (k : string) (v : V) (o : list (string * V))
  : result (list (string * V)) :=
  if String.eqb k "__proto__" then Throw Unsupported else Ok (Obj.set k v o).

(** ** Values *)

(** Cell values of the sheet and property values of a field: booleans,
    numbers (rationals: every finite double is one), strings, and nested
    plain objects (the registry's [{type, length}] descriptors and the
    [api] objects). *)
Inductive value : Type :=
| VUndef
| VBool (b : bool)
| VNum (q : Q)
| VStr (s : string)
| VObj (o : list (string * value)).

(** [o[k]], [undefined] when [k] is absent (for keys that are not
    inherited names). *)
Definition getv (k : string) (o : list (string * value)) : value :=
  match Obj.get k o with
  | Some v => v
  | None => VUndef
  end.

Definition truthy (v : value) : bool :=
  match v with
  | VUndef => false
  | VBool b => b
  | VNum q => negb (Qeq_bool q 0%Q)
  | VStr s => negb (String.eqb s "")
  | VObj _ => true
  end.

(** [Number.prototype.toString] on the integers of magnitude below
    [2^53]: each of them is a double and prints as its decimal digits.
    A larger double prints the shortest digits that read back as it (so
    [2^60] prints as 1152921504606847000), and a fraction prints with a
    decimal point or an exponent: the text of those is not embedded. *)
Definition Number_toString (q : Q) : option string :=
  let r := Qred q in
  if (Z.pos (Qden r) =? 1)%Z && (Z.abs (Qnum r) <? 2 ^ 53)%Z
  then Some (NilZero.string_of_int (Z.to_int (Qnum r)))
  else None.

(** [String(v)], as applied by a template literal or a computed property
    name. *)
Definition toStringJS (v : value) : result string :=
  match v with
  | VUndef => Ok "undefined"
  | VBool true => Ok "true"
  | VBool false => Ok "false"
  | VNum q => match Number_toString q with
              | Some s => Ok s
              | None => Throw Unsupported
              end
  | VStr s => Ok s
  | VObj _ => Ok "[object Object]"
  end.

(** [typeof v === 'object'] *)
Definition isObject (v : value) : bool :=
  match v with VObj _ => true | _ => false end.

(** [v === s] for a string literal [s] *)
Definition isStr (s : string) (v : value) : bool :=
  match v with VStr s' => String.eqb s' s | _ => false end.

(** [v === undefined] *)
Definition isUndef (v : value) : bool :=
  match v with VUndef => true | _ => false end.

(** ** The schema documents *)

(** A field is its property map; a model maps field names to fields, a
    package model names to models, and the schema ([modelsData]) package
    names to packages. *)
Definition fieldObj := list (string * value).
Definition modelObj := list (string * fieldObj).
Definition packageObj := list (string * modelObj).
Definition schema := list (string * packageObj).

(** ** SheetExtractor *)

(** A row as [XLSX.utils.sheet_to_json] returns it: the column names of
    the non-empty cells, in the order [Object.keys] lists them, with the
    cell values. *)
Definition row := list (string * value).

(** The workbook as [XLSX.readFile] returns it.  [SheetNames] may be
    missing (the code reads [workbook.SheetNames || []]); [Sheets] gives,
    per sheet, the rows [sheet_to_json] parses from it, and every call
    returns fresh row objects. *)
Record workbook : Type := {
  SheetNames : option (list string);
  Sheets : list (string * list row)
}.

(** [XLSX.utils.sheet_to_json(workbook.Sheets[sheetName])]; a missing
    sheet parses to no rows. *)
Definition sheet_to_json (wb : workbook) (sheetName : string) : list row :=
  match Obj.get sheetName (Sheets wb) with
  | Some data => data
  | None => []
  end.

(** [Object.keys(data[0] || {})[0]] *)
Definition firstFieldName (data : list row) : option string :=
  match data with
  | [] => None
  | item :: _ => head (Obj.keys item)
  end.

Definition isModelSheet (wb : workbook) (sheetName : string) : bool :=
  match firstFieldName (sheet_to_json wb sheetName) with
  | Some k => String.eqb k "Model"
  | None => false
  end.

Definition getSheetsHavingModels (wb : workbook) : list string :=
  fold_left
    (fun sheetsHavingModels sheetName =>
       if isModelSheet wb sheetName
       then sheetsHavingModels ++ [sheetName]
       else sheetsHavingModels)
    (match SheetNames wb with Some l => l | None => [] end)
    [].

(** The variables of [getModelsDataAndPartialsFromWorkbook]. *)
Record extraction : Type := {
  modelsData : schema;
  partials : list (string * modelObj);
  modelKey : string
}.

(** The write [container[key][Field] = item] into a container that may
    be missing. *)
Definition storeItem (key : string) (Field : string) (item : row)
    (container : list (string * modelObj))
  : result (list (string * modelObj)) :=
  match Obj.get key container with
  | Some fields =>
      fields' <-- setProp Field item fields ;;
      Ok (Obj.set key fields' container)
  | None => Throw (if inherited key then Unsupported else TypeError)
  end.

(** The body of [data.map((item) => ...)], for one row.  The property
    keys [Model] and [Field] are converted to text where they are used
    as keys; [String_] is that conversion, and the row is stored in the
    same way whatever text it gives. *)
Definition extractRowWith (String_ : value -> result string)
    (sheetName : string) (st : extraction) (item : row)
  : result extraction :=
  let Model := getv "Model" item in
  let Field := getv "Field" item in
  st1 <-- (if truthy Model then
             key <-- String_ Model ;;
             if String.eqb sheetName "partials" then
               partials' <-- setProp key [] (partials st) ;;
               Ok {| modelsData := modelsData st;
                     partials := partials';
                     modelKey := key |}
             else
               pkg <-- match Obj.get sheetName (modelsData st) with
                       | Some pkg => Ok pkg
                       | None =>
                           if inherited sheetName then Throw Unsupported
                           else Ok []
                       end ;;
               pkg' <-- setProp key [] pkg ;;
               Ok {| modelsData := Obj.set sheetName pkg' (modelsData st);
                     partials := partials st;
                     modelKey := key |}
           else Ok st) ;;
  let item := Obj.del "Model" item in
  if String.eqb sheetName "partials" then
    field <-- String_ Field ;;
    partials' <-- storeItem (modelKey st1) field item (partials st1) ;;
    Ok {| modelsData := modelsData st1;
          partials := partials';
          modelKey := modelKey st1 |}
  else
    match Obj.get sheetName (modelsData st1) with
    | None => Throw (if inherited sheetName then Unsupported else TypeError)
    | Some pkg =>
        field <-- String_ Field ;;
        pkg' <-- storeItem (modelKey st1) field item pkg ;;
        Ok {| modelsData := Obj.set sheetName pkg' (modelsData st1);
              partials := partials st1;
              modelKey := modelKey st1 |}
    end.

(** The row body with the conversion of the language, as far as it is
    embedded. *)
Definition extractRow (sheetName : string) (st : extraction) (item : row)
  : result extraction :=
  extractRowWith toStringJS sheetName st item.

Definition extractSheet (wb : workbook) (st : extraction) (sheetName : string)
  : result extraction :=
  forEachM (extractRow sheetName) (sheet_to_json wb sheetName) st.

Definition getModelsDataAndPartialsFromWorkbook (wb : workbook)
  : result (schema * list (string * modelObj)) :=
  st <-- forEachM (extractSheet wb) (getSheetsHavingModels wb)
           {| modelsData := []; partials := []; modelKey := "" |} ;;
  Ok (modelsData st, partials st).

(** ** PartialResolver *)

(** [partials[key.replace(/partials\./, '')]] followed by [Object.keys]:
    the fields of the named partial; [Object.keys(undefined)] throws, and
    an inherited member has no enumerable keys. *)
Definition partialFields (partials : list (string * modelObj)) (key : string)
  : result modelObj :=
  let name := Str.replaceFirst "partials." "" key in
  match Obj.get name partials with
  | Some partialsData => Ok partialsData
  | None => if inherited name then Ok [] else Throw TypeError
  end.

(** The body of [for (let key in model)].  The field objects of a partial
    are shared by all the models that refer to it; the phases that follow
    update a field object the same way at each of its uses, and updating
    it twice leaves it as updating it once, so a copy of the value stands
    for the shared object. *)
Definition fillField (partials : list (string * modelObj)) (model : modelObj)
    (retModel : modelObj) (key : string) : result modelObj :=
  match Obj.get key model with
  | None => Ok retModel
  | Some field =>
      if negb (String.prefix "partials." key) then setProp key field retModel
      else
        partialsData <-- partialFields partials key ;;
        forEachM
          (fun ret partialKey =>
             match Obj.get partialKey partialsData with
             | Some f => setProp partialKey f ret
             | None => Ok ret
             end)
          (Obj.keys partialsData) retModel
  end.

Definition fillModel (partials : list (string * modelObj)) (model : modelObj)
  : result modelObj :=
  forEachM (fillField partials model) (Obj.keys model) [].

(** A loop [for (let name in o) { ...; o[name] = f(o[name]) }]. *)
Definition forInUpdate {V} (f : V -> result V) (o : list (string * V))
  : result (list (string * V)) :=
  forEachM
    (fun o name =>
       match Obj.get name o with
       | None => Ok o
       | Some v => v' <-- f v ;; Ok (Obj.set name v' o)
       end)
    (Obj.keys o) o.

Definition fillPartials (modelsData : schema) (partials : list (string * modelObj))
  : result schema :=
  forInUpdate (forInUpdate (fillModel partials)) modelsData.

(** ** Type registry lookup *)

Section Registry.

(** The registry [config/types.json], which is not part of the sources
    at hand: a JSON object from lower-case domain type names to a
    scalar type name or a [{type, length}] descriptor. *)
Variable types : list (string * value).

(** The body of [for (let field in modelData)]. *)
Definition replaceTypeOfField (field : fieldObj) : result fieldObj :=
  let Type_ := getv "Type" field in
  if truthy Type_ then
    match Type_ with
    | VStr s =>
        let Type_ := Str.toLowerCase s in
        match Obj.get Type_ types with
        | Some typeFromTypes =>
            if truthy typeFromTypes
            then Ok (Obj.set "typeFromTypes" typeFromTypes field)
            else Ok field
        | None => if inherited Type_ then Throw Unsupported else Ok field
        end
    | _ => Throw TypeError
    end
  else Ok field.

Definition replaceWebAppTypesWithModelType (modelsData : schema)
  : result schema :=
  forInUpdate (forInUpdate (forInUpdate replaceTypeOfField)) modelsData.

End Registry.

(** ** APISectionSegregator *)

Definition actions : list string := ["create"; "read"; "update"; "delete"].
Definition levels : list string := ["required"; "optional"].

(** The body of [keys.map((key) => ...)]: [field] is [modelData[field]]
    and [apiData] the object under construction. *)
Definition segregateKey (st : fieldObj * list (string * value)) (key : string)
  : result (fieldObj * list (string * value)) :=
  let '(field, apiData) := st in
  let bby := getv key field in
  if Str.includes (Str.toLowerCase key) actions then
    match bby with
    | VStr b =>
        if Str.includes (Str.toLowerCase b) levels
        then Ok (Obj.del key field,
                 Obj.set (Str.toLowerCase key) (VStr (Str.toLowerCase b)) apiData)
        else Ok (field, apiData)
    | _ => Throw TypeError
    end
  else Ok (field, apiData).

Definition segregateField (field : fieldObj) : result fieldObj :=
  st <-- forEachM segregateKey (Obj.keys field) (field, []) ;;
  let '(field', apiData) := st in
  if (0 <? length (Obj.keys apiData))%nat
  then Ok (Obj.set "api" (VObj apiData) field')
  else Ok field'.

Definition segregateAPISections (modelsData : schema) : result schema :=
  forInUpdate (forInUpdate (forInUpdate segregateField)) modelsData.

(** ** RouteProjector *)

(** A model's route entry maps an action to an array of field names. *)
Definition routeModel := list (string * list string).
Definition routePackage := list (string * routeModel).

(** The indices ["0"], ["1"], ... below [n]. *)
Definition indexKeys (n : nat) : list string :=
  map (fun i => NilZero.string_of_uint (Nat.to_uint i)) (seq 0 n).

(** [Object.keys(v)] *)
Definition Object_keys (v : value) : result (list string) :=
  match v with
  | VUndef => Throw TypeError
  | VBool _ | VNum _ => Ok []
  | VStr s => Ok (indexKeys (String.length s))
  | VObj o => Ok (Obj.keys o)
  end.

(** [keys.map((key) => { if (key !== 'api') delete modelData[field][key] })]
    on the field object [f], for the array [keys]. *)
Definition stripProps (keys : list string) (f : fieldObj) : fieldObj :=
  fold_left
    (fun f key => if negb (String.eqb key "api") then Obj.del key f else f)
    keys f.

(** The body of the first loop over the fields of a model: every
    property but [api] is deleted from the field object, and a field
    object left empty is deleted from the model. *)
Definition stripField (modelData : modelObj) (field : string) : modelObj :=
  match Obj.get field modelData with
  | None => modelData
  | Some f =>
      let f' := stripProps (Obj.keys f) f in
      if (length (Obj.keys f') =? 0)%nat
      then Obj.del field modelData
      else Obj.set field f' modelData
  end.

Fixpoint filterM {A} (p : A -> result bool) (l : list A) : result (list A) :=
  match l with
  | [] => Ok []
  | x :: r =>
      b <-- p x ;;
      r' <-- filterM p r ;;
      Ok (if b then x :: r' else r')
  end.

(** The callback of [Object.keys(modelData).filter(...)]. *)
Definition fieldHasAction (modelData : modelObj) (action field : string)
  : result bool :=
  match Obj.get field modelData with
  | None => Throw TypeError
  | Some f =>
      ks <-- Object_keys (getv "api" f) ;;
      Ok (Str.includes action ks)
  end.

(** The body of [['create', 'read', 'update', 'delete'].map(...)]. *)
Definition routeAction (modelData : modelObj) (entry : routeModel)
    (action : string) : result routeModel :=
  l <-- filterM (fieldHasAction modelData action) (Obj.keys modelData) ;;
  let entry := Obj.set action l entry in
  if (length l =? 0)%nat then Ok (Obj.del action entry) else Ok entry.

(** One model: the stripped model object (the argument object, mutated in
    place) and the route entry built for it. *)
Definition routesOfModel (modelData : modelObj) : result (modelObj * routeModel) :=
  let modelData' := fold_left stripField (Obj.keys modelData) modelData in
  entry <-- forEachM (routeAction modelData') actions
              [("create", []); ("read", []); ("update", []); ("delete", [])] ;;
  Ok (modelData', entry).

(** One package: [packageData] after the in-place mutation of its models,
    and [reorganized[packageName]]. *)
Definition routesOfPackage (packageData : packageObj)
  : result (packageObj * routePackage) :=
  forEachM
    (fun (st : packageObj * routePackage) modelName =>
       let '(pd, reorganized) := st in
       if inherited modelName then Throw Unsupported
       else
         match Obj.get modelName pd with
         | None => Ok (pd, reorganized)
         | Some modelData =>
             r <-- routesOfModel modelData ;;
             let '(modelData', entry) := r in
             Ok (Obj.set modelName modelData' pd,
                 Obj.set modelName entry reorganized)
         end)
    (Obj.keys packageData) (packageData, []).

(** *** The shared package objects

    [xlsxToJSON] holds two top-level objects, [modelsData] and its
    shallow copy [routesData]; the package objects they point to live in
    a store and are shared by reference. *)
Abbreviation loc := nat.
Abbreviation store := (list packageObj).

Inductive topValue : Type :=
| PackageRef (l : loc)
| Routes (r : routePackage).

Definition topObj := list (string * topValue).

(** [Object.assign(target, source)] *)
Definition Object_assign {V} (target source : list (string * V))
  : list (string * V) :=
  fold_left
    (fun t k => match Obj.get k source with
                | Some v => Obj.set k v t
                | None => t
                end)
    (Obj.keys source) target.

Definition processRoutesDataFromModelsData (st : store) (routesData : topObj)
  : result (store * topObj) :=
  r <-- forEachM
          (fun (acc : store * list (string * routePackage)) packageName =>
             let '(st, reorganized) := acc in
             if inherited packageName then Throw Unsupported
             else
               match Obj.get packageName routesData with
               | None => Ok (st, reorganized)
               | Some (Routes _) => Throw Unsupported
               | Some (PackageRef l) =>
                   match st !! l with
                   | None => Throw Unsupported
                   | Some packageData =>
                       r <-- routesOfPackage packageData ;;
                       let '(packageData', routes) := r in
                       Ok (<[l := packageData']> st,
                           Obj.set packageName routes reorganized)
                   end
               end)
          (Obj.keys routesData) (st, []) ;;
  let '(st', reorganized) := r in
  Ok (st', Object_assign routesData
             (map (fun kv => (fst kv, Routes (snd kv))) reorganized)).

(** ** The driver [xlsxToJSON] *)

(** What [JSON.stringify] writes for a top-level entry. *)
Inductive document : Type :=
| DocPackage (p : packageObj)
| DocRoutes (r : routePackage).

Definition stringify (st : store) (o : topObj) : list (string * document) :=
  map (fun kv =>
         (fst kv,
          match snd kv with
          | PackageRef l => DocPackage (default [] (st !! l))
          | Routes r => DocRoutes r
          end))
      o.

(** Up to the shallow copy each package object is reachable through
    [modelsData] alone, and the phases before it are written on the
    nested value.  [allocSchema] places the package objects in the store
    at the point where [Object.assign({}, modelsData)] creates a second
    reference to each of them. *)
Definition allocSchema (modelsData : schema) : store * topObj :=
  (map snd modelsData, imap (fun i kv => (fst kv, PackageRef i)) modelsData).

Section Driver.

Variable types : list (string * value).

(** The two documents written: [models.json] and
    [routesFromModels.json]. *)
Definition xlsxToJSON (wb : workbook)
  : result (list (string * document) * list (string * document)) :=
  r <-- getModelsDataAndPartialsFromWorkbook wb ;;
  let '(modelsData, partials) := r in
  modelsData <-- fillPartials modelsData partials ;;
  modelsData <-- replaceWebAppTypesWithModelType types modelsData ;;
  modelsData <-- segregateAPISections modelsData ;;
  let '(st, modelsData) := allocSchema modelsData in
  let routesData := Object_assign [] modelsData in
  r <-- processRoutesDataFromModelsData st routesData ;;
  let '(st, routesData) := r in
  Ok (stringify st modelsData, stringify st routesData).

End Driver.

(** Modelled from the spec: an instance of the registry
    [config/types.json], which is absent from the sources, for the worked
    examples: the canonical scalar names the code tests for, and one
    structured [{type, length}] descriptor. *)
Definition exampleTypes : list (string * value) :=
  [ ("uuid", VStr "uuid.UUID"); ("time", VStr "time.Time");
    ("int", VStr "int"); ("float", VStr "float");
    ("string", VStr "string"); ("bool", VStr "bool");
    ("text", VObj [("type", VStr "string"); ("length", VNum 65535%Q)]) ].

(** The workbook of the end-to-end example: one sheet [users] with the
    model [User] and the fields [id], [name] and [createdAt]. *)
Definition usersWorkbook : workbook :=
  {| SheetNames := Some ["users"];
     Sheets :=
       [ ("users",
          [ [ ("Model", VStr "User"); ("Field", VStr "id");
              ("Type", VStr "uuid"); ("Primary", VBool true) ];
            [ ("Field", VStr "name"); ("Type", VStr "string");
              ("Create", VStr "required"); ("Read", VStr "required") ];
            [ ("Field", VStr "createdAt"); ("Type", VStr "time");
              ("AutoCreate", VBool true) ] ]) ] |}.

(** ** TypeResolver *)

(** [ToNumber(v)]; [None] is NaN.  Text is not parsed. *)
Definition toNumber (v : value) : result (option Q) :=
  match v with
  | VUndef => Ok None
  | VBool b => Ok (Some (if b then 1%Q else 0%Q))
  | VNum q => Ok (Some q)
  | VStr _ => Throw Unsupported
  | VObj _ => Ok None
  end.

(** A number a literal of the source denotes: a double or [Infinity]. *)
Inductive bound : Type :=
| Fin (q : Q)
| Inf.

(** The largest finite double, [2^1024 - 2^971]. *)
Definition maxDouble : Q := inject_Z (2 ^ 1024 - 2 ^ 971).

(** A decimal literal at or above [2^1024 - 2^970] reads as [Infinity];
    below that it reads as a nearby double, for which its exact value
    stands here. *)
Definition readLiteral (q : Q) : bound :=
  if Qle_bool (inject_Z (2 ^ 1024 - 2 ^ 970)) q then Inf else Fin q.

(** [x <= b], [x > b], [x >= b], [x < b] for a number [x] that may be
    NaN; a comparison with NaN is false. *)
Definition leB (x : option Q) (b : bound) : bool :=
  match x, b with
  | None, _ => false
  | Some _, Inf => true
  | Some x, Fin q => Qle_bool x q
  end.

Definition le (x : option Q) (q : Q) : bool := leB x (Fin q).

Definition gt (x : option Q) (q : Q) : bool :=
  match x with None => false | Some x => negb (Qle_bool x q) end.

Definition ge (x : option Q) (q : Q) : bool :=
  match x with None => false | Some x => Qle_bool q x end.

Definition lt (x : option Q) (q : Q) : bool :=
  match x with None => false | Some x => negb (Qle_bool q x) end.

(** The literal [18446744073709551615] (2^64 - 1) is not a double and
    reads as the nearest one, 2^64. *)
Definition literal_18446744073709551615 : Q := inject_Z (2 ^ 64).

(** The literal [3.402823466e385]. *)
Definition literal_3_402823466e385 : bound :=
  readLiteral (inject_Z (3402823466 * 10 ^ 376)).

(** The literal [1.7976931348623157e308] reads as the largest double. *)
Definition literal_1_7976931348623157e308 : bound := Fin maxDouble.

(** The double quote character. *)
Definition dq : string := String (ascii_of_nat 34) EmptyString.

Definition importStringsMaps : list (string * string) :=
  [ ("uuid.UUID", ("uuid " ++ dq ++ "github.com/google/uuid" ++ dq)%string);
    ("time.Time", (dq ++ "time" ++ dq)%string) ].

(** [createFieldVariables]: the field object (its [length] may have been
    set) and the [type] returned. *)
Definition createFieldVariables (field : fieldObj) : fieldObj * value :=
  let typeFromTypes := getv "typeFromTypes" field in
  let Type_ := getv "Type" field in
  if truthy typeFromTypes then
    match typeFromTypes with
    | VObj o =>
        (if truthy (getv "length" o)
         then Obj.set "length" (getv "length" o) field
         else field,
         getv "type" o)
    | _ => (field, typeFromTypes)
    end
  else (field, Type_).

(** [addToImports(type, imports)], the case [importStrType = ''] *)
Definition addToImports (type_ : value) (imports : list string) : list string :=
  match type_ with
  | VStr t =>
      match Obj.get t importStringsMaps with
      | Some importStr =>
          if Str.includes importStr imports then imports
          else imports ++ [importStr]
      | None => imports
      end
  | _ => imports
  end.

(** [addToImports(type, imports, 'local')] *)
Definition addToImportsLocal (type_ : string) (imports : list string)
  : list string :=
  if Str.includes type_ imports then imports else imports ++ [type_].

(** [setPrimarykey]: the assignment to the parameter [primary] is local,
    the imports are the only effect. *)
Definition setPrimarykey (field : fieldObj) (imports : list string)
  : list string :=
  if truthy (getv "Primary" field) then imports
  else addToImports (VStr "uuid.UUID") imports.

Definition setDefaultValue (field : fieldObj) : result fieldObj :=
  let DefaultValue := getv "DefaultValue" field in
  let typeFromTypes := getv "typeFromTypes" field in
  if negb (isUndef DefaultValue) then
    DefaultValue <-- (if isStr "string" typeFromTypes
                      then s <-- toStringJS DefaultValue ;;
                           Ok (VStr ("'" ++ s ++ "'")%string)
                      else Ok DefaultValue) ;;
    Ok (Obj.set "DefaultValue" DefaultValue field)
  else Ok field.

Definition setFieldLength (field : fieldObj) : fieldObj :=
  let length_ := getv "length" field in
  let MaximumLength := getv "MaximumLength" field in
  let field :=
    if negb (isUndef MaximumLength) then Obj.set "Length" MaximumLength field
    else field in
  if negb (isUndef length_) then Obj.set "Length" length_ field else field.

Definition setTimeType (field : fieldObj) : fieldObj :=
  if isStr "time.Time" (getv "typeFromTypes" field) then
    let NotNull := getv "NotNull" field in
    let AutoCreate := getv "AutoCreate" field in
    let field :=
      if negb (truthy NotNull) then Obj.set "type" (VStr "*time.Time") field
      else field in
    if truthy AutoCreate then Obj.set "misc" (VStr "autoCreateTime") field
    else field
  else field.

(** The width table of [setIntType], on the bounds after defaulting. *)
Definition intWidth (Minimum Maximum : option Q) : option string :=
  if ge Minimum 0%Q && le Maximum 4294967295%Q then Some "uint32"
  else if ge Minimum 0%Q && gt Maximum 4294967295%Q then Some "uint64"
  else if lt Minimum 0%Q && le Maximum 2147483647%Q then Some "int32"
  else if lt Minimum 0%Q && gt Maximum 2147483647%Q then Some "int64"
  else None.

Definition setIntType (field : fieldObj) : result fieldObj :=
  if isStr "int" (getv "typeFromTypes" field) then
    let Minimum := getv "Minimum" field in
    let Maximum := getv "Maximum" field in
    let Maximum :=
      if negb (isUndef Minimum) then
        if isUndef Maximum then VNum literal_18446744073709551615 else Maximum
      else Maximum in
    let Minimum :=
      if negb (isUndef Maximum) then
        if isUndef Minimum then VNum (-1)%Q else Minimum
      else Minimum in
    if isUndef Maximum && isUndef Minimum
    then Ok (Obj.set "type" (VStr "int64") field)
    else
      mn <-- toNumber Minimum ;;
      mx <-- toNumber Maximum ;;
      match intWidth mn mx with
      | Some w => Ok (Obj.set "type" (VStr w) field)
      | None => Ok field
      end
  else Ok field.

Definition setFloatType (field : fieldObj) : result fieldObj :=
  if isStr "float" (getv "typeFromTypes" field) then
    let Maximum := getv "Maximum" field in
    if isUndef Maximum then Ok (Obj.set "type" (VStr "float64") field)
    else
      mx <-- toNumber Maximum ;;
      let a := option_map Qabs mx in
      if leB a literal_3_402823466e385
      then Ok (Obj.set "type" (VStr "float32") field)
      else if leB a literal_1_7976931348623157e308
      then Ok (Obj.set "type" (VStr "float64") field)
      else Ok field
  else Ok field.

Definition setDefaultFieldType (field : fieldObj) : fieldObj :=
  let typeFromTypes := getv "typeFromTypes" field in
  match typeFromTypes with
  | VObj o =>
      let type_ := getv "type" o in
      let length_ := getv "length" o in
      let field := if truthy type_ then Obj.set "type" type_ field else field in
      if truthy length_ then Obj.set "Length" length_ field else field
  | _ => Obj.set "type" typeFromTypes field
  end.

(** ** RelationshipExpander and the model loop of [processModels] *)

Section Models.

(** [readModulePath()], the module path of [go.mod], and lodash's
    [_.camelCase]: both come from outside the compiler. *)
Variable modulePath : string.
Variable camelCase : string -> string.

Definition getLocalModelPackageStr (packageName : string) : string :=
  (packageName ++ " " ++ dq ++ modulePath ++ "/src/models/"
     ++ Str.toLowerCase packageName ++ dq)%string.

(** [createRelationShips(fields, fieldKey, packageCamelCase, imports)].
    The object stored under [relatedFieldName] is the object under
    [fieldKey], so the write to its [typeFromTypes] shows under both
    keys.  ([relatedFieldName] ends in [Id], so it is not the
    prototype slot.) *)
Definition createRelationShips (fields : modelObj) (fieldKey : string)
    (packageCamelCase : string) (imports : list string)
  : result (modelObj * list string) :=
  if Str.contains "." fieldKey then
    match Obj.get fieldKey fields with
    | None => Throw TypeError
    | Some field =>
        let fieldNameParts := Str.split "." fieldKey in
        let relatedModelPackage := nth 0 fieldNameParts "" in
        let relatedModel := nth 1 fieldNameParts "" in
        let relatedFieldName := (relatedModel ++ "Id")%string in
        let '(relatedModelType, imports) :=
          if negb (String.eqb relatedModelPackage packageCamelCase)
          then (fieldKey,
                addToImportsLocal
                  (getLocalModelPackageStr relatedModelPackage) imports)
          else (relatedModel, imports) in
        fields <-- setProp relatedModel
                     [ ("typeFromTypes", VStr relatedModelType);
                       ("misc", VStr "constraint:OnDelete:CASCADE;") ]
                     fields ;;
        let fields := Obj.set relatedFieldName field fields in
        let field := Obj.set "typeFromTypes" (VStr "uuid.UUID") field in
        Ok (Obj.set fieldKey field (Obj.set relatedFieldName field fields),
            imports)
    end
  else Ok (fields, imports).

(** [updateField(fields, field, fieldKey, parentModel)]; [parentModel]
    is the holder [{ value }], [None] for [false]. *)
Definition updateField (fields : modelObj) (field : fieldObj)
    (fieldKey : string) (parentModel : option string)
  : modelObj * option string :=
  if negb (Str.contains "." fieldKey)
  then (Obj.set fieldKey field fields, parentModel)
  else (Obj.del fieldKey fields, Some fieldKey).

(** The state of the loops over the fields of one model. *)
Record modelState : Type := {
  fields : modelObj;
  imports : list string;
  parentModel : option string
}.

(** The body of the first [for (let fieldKey in fields)]. *)
Definition expandField (packageCamelCase : string) (st : modelState)
    (fieldKey : string) : result modelState :=
  match Obj.get fieldKey (fields st) with
  | None => Ok st
  | Some f =>
      let '(field, _) := createFieldVariables f in
      let fields1 := Obj.set fieldKey field (fields st) in
      r <-- createRelationShips fields1 fieldKey packageCamelCase (imports st) ;;
      let '(fields2, imports2) := r in
      let '(fields3, parentModel3) :=
        updateField fields2 field fieldKey (parentModel st) in
      Ok {| fields := fields3; imports := imports2;
            parentModel := parentModel3 |}
  end.

(** The field-level part of the body of the second loop. *)
Definition resolveFieldType (f : fieldObj) (imports : list string)
  : result (fieldObj * list string) :=
  let '(field, type_) := createFieldVariables f in
  let imports := addToImports type_ imports in
  let field := setDefaultFieldType field in
  let imports := setPrimarykey field imports in
  field <-- setDefaultValue field ;;
  let field := setFieldLength field in
  let field := setTimeType field in
  field <-- setIntType field ;;
  field <-- setFloatType field ;;
  Ok (field, imports).

(** The body of the second [for (let fieldKey in fields)]. *)
Definition resolveField (st : modelState) (fieldKey : string)
  : result modelState :=
  match Obj.get fieldKey (fields st) with
  | None => Ok st
  | Some f =>
      r <-- resolveFieldType f (imports st) ;;
      let '(field, imports') := r in
      let '(fields', parentModel') :=
        updateField (fields st) field fieldKey (parentModel st) in
      Ok {| fields := fields'; imports := imports';
            parentModel := parentModel' |}
  end.

(** The two loops over the fields of one model. *)
Definition processModelFields (packageCamelCase : string) (fields0 : modelObj)
  : result modelState :=
  st <-- forEachM (expandField packageCamelCase) (Obj.keys fields0)
           {| fields := fields0; imports := []; parentModel := None |} ;;
  forEachM resolveField (Obj.keys (fields st)) st.

(** What [processModels] accumulates over the models: the arguments of
    the template rendering of each model, the model strings and the
    parent-to-children table. *)
Record modelsState : Type := {
  rendered : list (string * string * modelObj * list string);
  allModelStrs : list string;
  allModelsWithHierarchyData : list (string * list string)
}.

(** The body of [for (const model of Object.keys(packageData))]. *)
Definition processModel (packageCamelCase : string) (packageData : packageObj)
    (st : modelsState) (model : string) : result modelsState :=
  match Obj.get model packageData with
  | None => Throw TypeError
  | Some fields0 =>
      ms <-- processModelFields packageCamelCase fields0 ;;
      let hierarchy :=
        match parentModel ms with
        | Some parent =>
            let model_ := (packageCamelCase ++ "." ++ model)%string in
            match Obj.get parent (allModelsWithHierarchyData st) with
            | None => Obj.set parent [model_] (allModelsWithHierarchyData st)
            | Some children =>
                Obj.set parent (children ++ [model_])
                  (allModelsWithHierarchyData st)
            end
        | None => allModelsWithHierarchyData st
        end in
      Ok {| rendered :=
              rendered st ++ [(packageCamelCase, model, fields ms, imports ms)];
            allModelStrs :=
              allModelStrs st ++ [(packageCamelCase ++ "Models." ++ model)%string];
            allModelsWithHierarchyData := hierarchy |}
  end.

(** The body of [for (const package_ of Object.keys(modelsData))].
    [createPackageVariables] reads [packageCamelCase[0].toUpperCase()],
    which throws when the camel-cased name is empty. *)
Definition processPackage (modelsData : schema) (st : modelsState)
    (package_ : string) : result modelsState :=
  let packageCamelCase := camelCase package_ in
  if String.eqb packageCamelCase "" then Throw TypeError
  else
    match Obj.get package_ modelsData with
    | None => Throw TypeError
    | Some packageData =>
        forEachM (processModel packageCamelCase packageData)
          (Obj.keys packageData) st
    end.

(** The model loop of [processModels], up to the reversal of
    [allModelStrs]. *)
Definition processModels (modelsData : schema) : result modelsState :=
  st <-- forEachM (processPackage modelsData) (Obj.keys modelsData)
           {| rendered := []; allModelStrs := [];
              allModelsWithHierarchyData := [] |} ;;
  Ok {| rendered := rendered st;
        allModelStrs := rev (allModelStrs st);
        allModelsWithHierarchyData := allModelsWithHierarchyData st |}.

End Models.

(** ** HierarchySorter *)

Section Sorter.

Variable allModelStrs : list string.
Variable allModelsWithHierarchyData : list (string * list string).

(** [item.includes(model.replace(/Models\./, '.'))] *)
Definition listsChild (item : list string) (model : string) : bool :=
  Str.includes (Str.replaceFirst "Models." "." model) item.

(** The flag [isChild] after the walk over [Object.values(...)]. *)
Definition isChild (model : string) : bool :=
  fold_left
    (fun isChild kv => if listsChild (snd kv) model then true else isChild)
    allModelsWithHierarchyData false.

(** First phase: the models that are nobody's child. *)
Definition seedParents : list string :=
  fold_left
    (fun sortedModels model =>
       if negb (isChild model) then sortedModels ++ [model] else sortedModels)
    allModelStrs [].

(** [numParents] and [parent] after the walk over the table. *)
Definition countParents (model : string) : nat * string :=
  fold_left
    (fun (acc : nat * string) kv =>
       if listsChild (snd kv) model then (S (fst acc), fst kv) else acc)
    allModelsWithHierarchyData (O, "").

(** The body of the walk over [allModelStrs] in one pass. *)
Definition placeChild (sortedModels : list string) (model : string)
  : list string :=
  let '(numParents, parent) := countParents model in
  if (numParents =? 1)%nat then
    if Str.includes (Str.replaceFirst "." "Models." parent) sortedModels then
      if negb (Str.includes model sortedModels)
      then sortedModels ++ [model]
      else sortedModels
    else sortedModels
  else sortedModels.

Definition pass (sortedModels : list string) : list string :=
  fold_left placeChild allModelStrs sortedModels.

(** [for (let i = 0; i <= 5; i++)]: six passes. *)
Definition passes (sortedModels : list string) : list string :=
  fold_left (fun sorted (_ : nat) => pass sorted) (seq 0 6) sortedModels.

(** Last phase: all the rest. *)
Definition appendRest (sortedModels : list string) : list string :=
  fold_left
    (fun sorted model =>
       if negb (Str.includes model sorted) then sorted ++ [model] else sorted)
    allModelStrs sortedModels.

Definition sortModelsByHierarchy : list string :=
  appendRest (passes seedParents).

End Sorter.

(** ** Reading the extraction state *)

(** The property map found under [field] in the model or partial that is
    open in state [st], for a row of sheet [sheetName]. *)
Definition storedUnder (st : extraction) (sheetName field : string)
  : option row :=
  if String.eqb sheetName "partials" then
    match Obj.get (modelKey st) (partials st) with
    | Some fields => Obj.get field fields
    | None => None
    end
  else
    match Obj.get sheetName (modelsData st) with
    | Some pkg =>
        match Obj.get (modelKey st) pkg with
        | Some fields => Obj.get field fields
        | None => None
        end
    | None => None
    end.

(** The column names of a row without the columns listed in [cols]. *)
Definition columnsWithout (cols : list string) (item : row) : list string :=
  List.filter (fun k => negb (Str.includes k cols)) (Obj.keys item).

(** ** Worked inputs *)

(** A first row of a sheet [users], and the state it is processed in and
    the state it leaves. *)
Definition idRow : row :=
  [("Model", VStr "User"); ("Field", VStr "id"); ("Type", VStr "uuid")].

Definition emptyExtraction : extraction :=
  {| modelsData := []; partials := []; modelKey := "" |}.

Definition afterIdRow : extraction :=
  {| modelsData :=
       [("users",
         [("User", [("id", [("Field", VStr "id"); ("Type", VStr "uuid")])])])];
     partials := [];
     modelKey := "User" |}.

(** A later row of the sheet [users] whose Field cell holds the number
    one half, the conversion extended by the text of that number
    ([String(0.5)] is 0.5), and the state the row leaves. *)
Definition halfRow : row :=
  [("Field", VNum (1 # 2)); ("Type", VStr "float")].

Definition toStringWithHalf (v : value) : result string :=
  match v with
  | VNum q => if Qeq_bool q (1 # 2) then Ok "0.5" else toStringJS v
  | _ => toStringJS v
  end.

Definition afterHalfRow : extraction :=
  {| modelsData :=
       [("users",
         [("User", [("id", [("Field", VStr "id"); ("Type", VStr "uuid")]);
                    ("0.5", halfRow)])])];
     partials := [];
     modelKey := "User" |}.

(** A schema whose model [User] refers to a partial [Base]. *)
Definition modelWithPartial : modelObj :=
  [ ("partials.Base", [("Field", VStr "partials.Base")]);
    ("name", [("Field", VStr "name"); ("Type", VStr "string")]) ].

Definition userWithPartial : schema :=
  [("users", [("User", modelWithPartial)])].

(** The largest finite single-precision number, [2^128 - 2^104]
    (about 3.4028235e38). *)
Definition maxSingle : Q := inject_Z (2 ^ 128 - 2 ^ 104).

(** An integer field with a maximum only, and a float field whose
    maximum 1e39 is beyond the single-precision range. *)
Definition intFieldMax100 : fieldObj :=
  [("typeFromTypes", VStr "int"); ("Maximum", VNum 100%Q)].

Definition floatFieldMax1e39 : fieldObj :=
  [("typeFromTypes", VStr "float"); ("Maximum", VNum (inject_Z (10 ^ 39)))].

(** The shape the sorted list keeps after the first phase: [base]
    followed by models of the input that are some parent's child, and
    free of duplicates when [base] is. *)
Definition extendsWithChildren (allModelStrs : list string)
    (hierarchy : list (string * list string)) (base sorted : list string)
  : Prop :=
  exists added,
    sorted = base ++ added
    /\ (forall m, In m added -> isChild hierarchy m = true /\ In m allModelStrs)
    /\ (List.NoDup base -> List.NoDup sorted).

(** The names [createRelationShips] derives from a dotted field key. *)
Definition relatedModelPackageOf (fieldKey : string) : string :=
  nth 0 (Str.split "." fieldKey) "".

Definition relatedModelOf (fieldKey : string) : string :=
  nth 1 (Str.split "." fieldKey) "".

Definition relatedFieldNameOf (fieldKey : string) : string :=
  (relatedModelOf fieldKey ++ "Id")%string.

(** A model [Membership] of package [orgs] with two relationship fields,
    as [xlsxToJSON] writes it to [models.json]: each field with its [api]
    object. *)
Definition createRequired : fieldObj :=
  [("api", VObj [("create", VStr "required")])].

Definition membershipFields : modelObj :=
  [ ("users.User", createRequired); ("orgs.Org", createRequired) ].

Definition membershipSchema : schema :=
  [("orgs", [("Membership", membershipFields)])].

Definition membershipState : modelState :=
  {| fields := membershipFields; imports := []; parentModel := None |}.

(** ** Reading the route schema *)

(** The key set of a field's [api] object; a field whose [api] property
    is missing or is not an object has no api object. *)
Definition apiObjectKeys (props : fieldObj) : list string :=
  match getv "api" props with
  | VObj o => Obj.keys o
  | _ => []
  end.

(** The field names listed under [action] in a model's route entry. *)
Definition actionList (action : string) (entry : routeModel) : list string :=
  match Obj.get action entry with
  | Some l => l
  | None => []
  end.

(** A schema as the segregator receives it: keys are unique at the
    package, model and field levels (as in any object), and an [api]
    property that is already an object has action names as keys (a sheet
    cell is never an object). *)
Definition wellFormedModel (model : modelObj) : Prop :=
  List.NoDup (Obj.keys model)
  /\ forall f props o,
       Obj.get f model = Some props -> getv "api" props = VObj o ->
       incl (Obj.keys o) actions.

Definition wellFormedSchema (md : schema) : Prop :=
  List.NoDup (Obj.keys md)
  /\ forall p pkg,
       Obj.get p md = Some pkg ->
       List.NoDup (Obj.keys pkg)
       /\ forall m model, Obj.get m pkg = Some model -> wellFormedModel model.



(** A decision procedure for [wellFormedSchema]. *)
Fixpoint nodupb (l : list string) : bool :=
  match l with
  | [] => true
  | x :: r => negb (Str.includes x r) && nodupb r
  end.

Definition checkField (props : fieldObj) : bool :=
  match getv "api" props with
  | VObj o => forallb (fun a => Str.includes a actions) (Obj.keys o)
  | _ => true
  end.

Definition checkModel (model : modelObj) : bool :=
  nodupb (Obj.keys model) && forallb (fun kv => checkField (snd kv)) model.

Definition checkSchema (md : schema) : bool :=
  nodupb (Obj.keys md)
  && forallb
       (fun kv =>
          nodupb (Obj.keys (snd kv))
          && forallb (fun mv => checkModel (snd mv)) (snd kv))
       md.

(** The schema of the end-to-end example as the segregator receives it,
    the segregated schema, and the documents derived from it. *)
Definition typedUsers : schema :=
  [("users",
    [("User",
      [ ("id", [ ("Field", VStr "id"); ("Type", VStr "uuid");
                 ("Primary", VBool true);
                 ("typeFromTypes", VStr "uuid.UUID") ]);
        ("name", [ ("Field", VStr "name"); ("Type", VStr "string");
                   ("Create", VStr "required"); ("Read", VStr "required");
                   ("typeFromTypes", VStr "string") ]);
        ("createdAt", [ ("Field", VStr "createdAt"); ("Type", VStr "time");
                        ("AutoCreate", VBool true);
                        ("typeFromTypes", VStr "time.Time") ]) ])])].

Definition nameApi : value :=
  VObj [("create", VStr "required"); ("read", VStr "required")].

Definition segregatedUser : modelObj :=
  [ ("id", [ ("Field", VStr "id"); ("Type", VStr "uuid");
             ("Primary", VBool true); ("typeFromTypes", VStr "uuid.UUID") ]);
    ("name", [ ("Field", VStr "name"); ("Type", VStr "string");
               ("typeFromTypes", VStr "string"); ("api", nameApi) ]);
    ("createdAt", [ ("Field", VStr "createdAt"); ("Type", VStr "time");
                    ("AutoCreate", VBool true);
                    ("typeFromTypes", VStr "time.Time") ]) ].

Definition segregatedUsers : schema := [("users", [("User", segregatedUser)])].

Definition strippedUser : modelObj := [("name", [("api", nameApi)])].

Definition userRoutes : routeModel :=
  [("create", ["name"]); ("read", ["name"])].

(** ** Schemas extracted from sheets *)

(** The [api] property of a property map is no object.  Sheet cells
    never are objects, so every row has this property. *)
Definition apiPrimitive (props : fieldObj) : Prop :=
  isObject (getv "api" props) = false.

Definition primitiveModel (model : modelObj) : Prop :=
  List.NoDup (Obj.keys model)
  /\ forall f props, Obj.get f model = Some props -> apiPrimitive props.

Definition primitivePackage (pkg : packageObj) : Prop :=
  List.NoDup (Obj.keys pkg)
  /\ forall m model, Obj.get m pkg = Some model -> primitiveModel model.

Definition primitiveSchema (md : schema) : Prop :=
  List.NoDup (Obj.keys md)
  /\ forall p pkg, Obj.get p md = Some pkg -> primitivePackage pkg.

Definition primitivePartials (ps : list (string * modelObj)) : Prop :=
  forall n partial f props,
    Obj.get n ps = Some partial -> Obj.get f partial = Some props ->
    apiPrimitive props.

Definition primitiveWorkbook (wb : workbook) : Prop :=
  forall sheetName item,
    In item (sheet_to_json wb sheetName) -> apiPrimitive item.

(** Every property map of the extraction state is a row of its sheet
    without the [Model] column, stored under the row's Field name. *)
Definition storedRow (wb : workbook) (sheetName f : string) (stored : row)
  : Prop :=
  exists item,
    In item (sheet_to_json wb sheetName)
    /\ toStringJS (getv "Field" item) = Ok f
    /\ stored = Obj.del "Model" item.

Definition rowsOnly (wb : workbook) (st : extraction) : Prop :=
  (forall p pkg m model f stored,
      Obj.get p (modelsData st) = Some pkg -> Obj.get m pkg = Some model ->
      Obj.get f model = Some stored -> storedRow wb p f stored)
  /\ (forall n partial f stored,
        Obj.get n (partials st) = Some partial ->
        Obj.get f partial = Some stored -> storedRow wb "partials" f stored).

(** ** Further worked inputs *)

(** A table in which [orgs.Org] has the child [orgs.Team], and model
    strings for the two. *)
Definition teamHierarchy : list (string * list string) :=
  [("orgs.Org", ["orgs.Team"])].

Definition teamModels : list string := ["orgsModels.Team"; "orgsModels.Org"].

(** A workbook whose sheet [users] opens with a row whose [Model] cell
    holds the number 0. *)
Definition zeroModelWorkbook : workbook :=
  {| SheetNames := Some ["users"];
     Sheets :=
       [ ("users",
          [ [ ("Model", VNum 0); ("Field", VStr "id") ] ]) ] |}.

(** A state in which the model [User] of the sheet [users] already has
    the fields [id] and [name], and a row that names [User] again. *)
Definition userWithTwoFields : extraction :=
  {| modelsData :=
       [("users",
         [("User", [("id", [("Field", VStr "id")]);
                    ("name", [("Field", VStr "name")])])])];
     partials := [];
     modelKey := "User" |}.

Definition secondUserRow : row :=
  [("Model", VStr "User"); ("Field", VStr "email")].

(** What the extraction makes of [usersWorkbook]. *)
Definition usersExtraction : schema * list (string * modelObj) :=
  Eval vm_compute in
    match getModelsDataAndPartialsFromWorkbook usersWorkbook with
    | Ok r => r
    | Throw _ => ([], [])
    end.

(** A partial bundle with the partial [Base] that [modelWithPartial]
    refers to, and the model the resolver makes of the two. *)
Definition basePartials : list (string * modelObj) :=
  [("Base", [("id", [("Field", VStr "id"); ("Type", VStr "uuid")]);
             ("createdAt", [("Field", VStr "createdAt");
                            ("Type", VStr "time")])])].

Definition modelWithBase : modelObj :=
  Eval vm_compute in
    match fillModel basePartials modelWithPartial with
    | Ok m => m
    | Throw _ => []
    end.

(** A property [key: v] of a field is a permission marker when the key
    is an action name and the value an access level, letter case aside:
    the condition of [segregateAPISections]. *)
Definition isPermissionMarker (key : string) (v : value) : bool :=
  Str.includes (Str.toLowerCase key) actions
  && match v with
     | VStr b => Str.includes (Str.toLowerCase b) levels
     | _ => false
     end.

(** The field [name] of [typedUsers], and a field whose [Create] cell
    holds a boolean. *)
Definition typedNameField : fieldObj :=
  [ ("Field", VStr "name"); ("Type", VStr "string");
    ("Create", VStr "required"); ("Read", VStr "required");
    ("typeFromTypes", VStr "string") ].

Definition segregatedNameField : fieldObj :=
  [ ("Field", VStr "name"); ("Type", VStr "string");
    ("typeFromTypes", VStr "string"); ("api", nameApi) ].

Definition booleanMarkerField : fieldObj :=
  [ ("Field", VStr "name"); ("Create", VBool true) ].

(** Keys are unique at the package, model and field levels, as in any
    object. *)
Definition uniqueKeys {V}
    (md : list (string * list (string * list (string * V)))) : Prop :=
  List.NoDup (Obj.keys md)
  /\ forall p pkg,
       Obj.get p md = Some pkg ->
       List.NoDup (Obj.keys pkg)
       /\ forall m model, Obj.get m pkg = Some model ->
                          List.NoDup (Obj.keys model).

(** A registry phase updates the fields one by one: [out] has the
    packages, models and fields of [md], in their order, and each field
    of [md] is replaced by what [f] makes of it. *)
Definition fieldwise {V} (f : V -> result V)
    (md out : list (string * list (string * list (string * V)))) : Prop :=
  Obj.keys out = Obj.keys md
  /\ forall p pkg,
       Obj.get p md = Some pkg ->
       exists pkg',
         Obj.get p out = Some pkg' /\ Obj.keys pkg' = Obj.keys pkg
         /\ forall m model,
              Obj.get m pkg = Some model ->
              exists model',
                Obj.get m pkg' = Some model'
                /\ Obj.keys model' = Obj.keys model
                /\ forall k v,
                     Obj.get k model = Some v ->
                     exists v', Obj.get k model' = Some v' /\ f v = Ok v'.

(** The last key of a list that contains a dot. *)
Definition lastDotted (ks : list string) : option string :=
  fold_left (fun acc k => if Str.contains "." k then Some k else acc) ks None.

(** The import strings of [importStringsMaps]. *)
Definition uuidImport : string :=
  ("uuid " ++ dq ++ "github.com/google/uuid" ++ dq)%string.

Definition timeImport : string := (dq ++ "time" ++ dq)%string.

(** What the two field loops make of [membershipFields] in the package
    [orgs] of the module [example.com/app]. *)
Definition membershipResolved : modelState :=
  Eval vm_compute in
    match processModelFields "example.com/app" "orgs" membershipFields with
    | Ok st => st
    | Throw _ => membershipState
    end.

(** A field of the registry's structured type [text] that also gives a
    [MaximumLength], a time field, and an integer field with both
    bounds. *)
Definition textField : fieldObj :=
  [ ("Field", VStr "bio"); ("Type", VStr "text");
    ("MaximumLength", VNum 100%Q);
    ("typeFromTypes",
     VObj [("type", VStr "string"); ("length", VNum 65535%Q)]) ].

Definition createdAtField : fieldObj :=
  [ ("Field", VStr "createdAt"); ("Type", VStr "time");
    ("AutoCreate", VBool true); ("typeFromTypes", VStr "time.Time") ].

Definition ageField : fieldObj :=
  [ ("typeFromTypes", VStr "int"); ("Minimum", VNum 0%Q);
    ("Maximum", VNum 150%Q) ].

(** A field of a model has an [api] property. *)
Definition hasApi (model : modelObj) (f : string) : bool :=
  match Obj.get f model with
  | Some props => match Obj.get "api" props with Some _ => true | None => false end
  | None => false
  end.

(** A field of a model lists [action] in its api object. *)
Definition exposes (model : modelObj) (action f : string) : bool :=
  match Obj.get f model with
  | Some props => Str.includes action (apiObjectKeys props)
  | None => false
  end.

(** The store and the route document that the route projection makes of
    [segregatedUsers]. *)
Definition usersProjected : store * topObj :=
  Eval vm_compute in
    match processRoutesDataFromModelsData (fst (allocSchema segregatedUsers))
            (Object_assign [] (snd (allocSchema segregatedUsers))) with
    | Ok r => r
    | Throw _ => ([], [])
    end.

(** What [processModels] accumulates on [membershipSchema]. *)
Definition membershipModels : modelsState :=
  Eval vm_compute in
    match processModels "example.com/app" (fun s => s) membershipSchema with
    | Ok st => st
    | Throw _ => {| rendered := []; allModelStrs := [];
                    allModelsWithHierarchyData := [] |}
    end.

(** ** The import list of [db.go] and the module path *)



(** The characters of a text are all ASCII.  The parts of the program
    that classify characters are embedded on ASCII text only. *)
Definition isAscii (s : string) : bool :=
  forallb (fun c => (nat_of_ascii c <? 128)%nat) (list_ascii_of_string s).

(** The class [\s] of a regular expression, for an ASCII character:
    tab, line feed, vertical tab, form feed, carriage return and
    space.  (Beyond ASCII the class also holds the no-break space, the
    byte order mark and the Unicode space separators.) *)
Definition isWhitespace (c : ascii) : bool :=
  let n := nat_of_ascii c in
  ((9 <=? n)%nat && (n <=? 13)%nat) || (n =? 32)%nat.

(** The length of the longest prefix without a space character, and of
    the longest prefix of white space. *)
Fixpoint nonSpaceRun (s : string) : nat :=
  match s with
  | EmptyString => O
  | String c r => if Ascii.eqb c " " then O else S (nonSpaceRun r)
  end.

Fixpoint whitespaceRun (s : string) : nat :=
  match s with
  | EmptyString => O
  | String c r => if isWhitespace c then S (whitespaceRun r) else O
  end.

(** The end of the match of [/^[^ ]+\s+/] in [line], if it matches:
    [[^ ]+] takes the longest stretch, at most the whole run of
    characters other than a space, after which white space follows,
    and [\s+] takes all the white space there. *)
Definition matchFirstWord (line : string) : option nat :=
  match
    List.filter
      (fun i => match String.get i line with
                | Some c => isWhitespace c
                | None => false
                end)
      (rev (seq 1 (nonSpaceRun line)))
  with
  | i :: _ => Some (i + whitespaceRun (Str.drop i line))%nat
  | [] => None
  end.

(** [line.replace(/^[^ ]+\s+/, '')], for an ASCII line. *)
Definition removeModuleStrAndSpaces (line : string) : result string :=
  if isAscii line then
    match matchFirstWord line with
    | Some e => Ok (Str.drop e line)
    | None => Ok line
    end
  else Throw Unsupported.

(** The line feed character. *)
Definition lf : ascii := ascii_of_nat 10.

(** [readModulePath], on the content of [./go.mod]; [None] when the file
    cannot be read. *)
Definition readModulePath (goMod : option string) : result string :=
  match goMod with
  | None => Ok ""
  | Some data =>
      let firstLine := hd "" (Str.split lf data) in
      if String.eqb firstLine "" then Ok ""
      else removeModuleStrAndSpaces firstLine
  end.

(** ** The names relationship expansion derives for a model *)

(** The field keys with and without a dot, and the names of the fields
    that the expansion writes: for each dotted key the related model
    name and the identifier name. *)
Definition dottedKeys (ks : list string) : list string :=
  List.filter (Str.contains ".") ks.


Definition expansionKeys (ks : list string) : list string :=
  flat_map (fun k => [relatedModelOf k; relatedFieldNameOf k]) (dottedKeys ks).


(** * Properties *)

(** ** Association lists *)

Module ObjFacts.
Section Facts.
Context {V : Type}.
Implicit Types (o : list (string * V)) (k : string) (v : V).

Lemma get_set_eq k v o : Obj.get k (Obj.set k v o) = Some v.
Proof.
  induction o as [|[k' v'] o IH]; simpl.
  - now rewrite String.eqb_refl.
  - destruct (String.eqb k k') eqn:E; simpl; rewrite ?E, ?String.eqb_refl; auto.
Qed.

Lemma get_set_ne k k' v o :
  k <> k' -> Obj.get k' (Obj.set k v o) = Obj.get k' o.
Proof.
  intros Hne. induction o as [|[k0 v0] o IH]; simpl.
  - destruct (String.eqb_spec k' k); congruence.
  - destruct (String.eqb_spec k k0) as [->|]; simpl.
    + destruct (String.eqb_spec k' k0); congruence.
    + destruct (String.eqb_spec k' k0); auto.
Qed.

Lemma get_del_eq k o : Obj.get k (Obj.del k o) = None.
Proof.
  induction o as [|[k' v'] o IH]; simpl; auto.
  destruct (String.eqb k k') eqn:E; simpl; rewrite ?E; auto.
Qed.

Lemma get_del_ne k k' o :
  k <> k' -> Obj.get k' (Obj.del k o) = Obj.get k' o.
Proof.
  intros Hne. induction o as [|[k0 v0] o IH]; simpl; auto.
  destruct (String.eqb_spec k k0) as [->|]; simpl.
  - destruct (String.eqb_spec k' k0); congruence.
  - destruct (String.eqb_spec k' k0); auto.
Qed.

Lemma keys_del k o :
  Obj.keys (Obj.del k o)
  = List.filter (fun k' => negb (String.eqb k k')) (Obj.keys o).
Proof.
  induction o as [|[k' v'] o IH]; simpl; auto.
  destruct (String.eqb k k'); simpl; now rewrite IH.
Qed.

Lemma get_Some_In k v o : Obj.get k o = Some v -> In k (Obj.keys o).
Proof.
  induction o as [|[k' v'] o IH]; simpl; [discriminate|].
  destruct (String.eqb_spec k k'); auto.
Qed.

Lemma get_None_notin k o : Obj.get k o = None <-> ~ In k (Obj.keys o).
Proof.
  induction o as [|[k' v'] o IH]; simpl; [tauto|].
  destruct (String.eqb_spec k k') as [->|Hne].
  - split; [discriminate | intros H; exfalso; auto].
  - rewrite IH. split; [intros H [?|?]; congruence || auto | tauto].
Qed.

Lemma In_keys_get k o : In k (Obj.keys o) -> exists v, Obj.get k o = Some v.
Proof.
  intros Hin. destruct (Obj.get k o) eqn:E; eauto.
  apply get_None_notin in E. contradiction.
Qed.

Lemma keys_set_in k v o :
  In k (Obj.keys o) -> Obj.keys (Obj.set k v o) = Obj.keys o.
Proof.
  induction o as [|[k' v'] o IH]; simpl; [tauto|].
  intros Hin. destruct (String.eqb_spec k k') as [->|Hne]; simpl; auto.
  f_equal. apply IH. destruct Hin; congruence.
Qed.

Lemma keys_set_notin k v o :
  ~ In k (Obj.keys o) -> Obj.keys (Obj.set k v o) = Obj.keys o ++ [k].
Proof.
  induction o as [|[k' v'] o IH]; simpl; auto.
  intros Hin. destruct (String.eqb_spec k k') as [->|Hne]; simpl.
  - exfalso; auto.
  - f_equal. apply IH. tauto.
Qed.

Lemma In_keys_set k k' v o :
  In k' (Obj.keys (Obj.set k v o)) <-> k' = k \/ In k' (Obj.keys o).
Proof.
  destruct (in_dec string_dec k (Obj.keys o)) as [Hin|Hnin].
  - rewrite keys_set_in by auto. split; auto. intros [->|]; auto.
  - rewrite keys_set_notin by auto. rewrite in_app_iff. simpl.
    split; intros; intuition congruence.
Qed.

Lemma In_keys_del k k' o :
  In k' (Obj.keys (Obj.del k o)) <-> k' <> k /\ In k' (Obj.keys o).
Proof.
  rewrite keys_del, filter_In.
  destruct (String.eqb_spec k k'); simpl; split; intros; intuition congruence.
Qed.

Lemma NoDup_keys_set k v o :
  List.NoDup (Obj.keys o) -> List.NoDup (Obj.keys (Obj.set k v o)).
Proof.
  induction o as [|[k' v'] o IH]; simpl; intros Hnd.
  - constructor; [simpl; tauto | constructor].
  - destruct (String.eqb_spec k k') as [->|Hne]; simpl; auto.
    apply List.NoDup_cons_iff in Hnd as [Hnin Hnd].
    apply List.NoDup_cons_iff. split; auto.
    fold (Obj.keys (Obj.set k v o)). rewrite In_keys_set.
    intros [?|?]; [congruence | contradiction].
Qed.


End Facts.
End ObjFacts.

Lemma rbind_Ok {A B} (c : result A) (k : A -> result B) (b : B) :
  rbind c k = Ok b -> exists a, c = Ok a /\ k a = Ok b.
Proof. destruct c; simpl; [eauto | discriminate]. Qed.

Lemma fold_left_push_filter {A} (p : A -> bool) (l acc : list A) :
  fold_left (fun acc x => if p x then acc ++ [x] else acc) l acc
  = acc ++ List.filter p l.
Proof.
  revert acc. induction l as [|x l IH]; intros acc; simpl.
  - now rewrite app_nil_r.
  - rewrite IH. destruct (p x); auto. now rewrite <- app_assoc.
Qed.

(** ** SheetExtractor: classification of model sheets *)

Lemma getSheetsHavingModels_filter (wb : workbook) :
  getSheetsHavingModels wb
  = List.filter (isModelSheet wb)
      (match SheetNames wb with Some l => l | None => [] end).
Proof. unfold getSheetsHavingModels. now rewrite fold_left_push_filter. Qed.

Lemma isModelSheet_iff (wb : workbook) (sheetName : string) :
  isModelSheet wb sheetName = true
  <-> exists v more rest,
        sheet_to_json wb sheetName = (("Model", v) :: more) :: rest.
Proof.
  unfold isModelSheet, firstFieldName.
  destruct (sheet_to_json wb sheetName) as [|item rest].
  - split; [discriminate | intros (v & more & rest & H); discriminate].
  - destruct item as [|[k v] more]; simpl.
    + split; [discriminate | intros (v & more & rest' & H); discriminate].
    + rewrite String.eqb_eq. split.
      * intros ->. eauto.
      * intros (v' & more' & rest' & H). congruence.
Qed.

(** C10. Classification of model sheets is total and exact: the function
    returns a list for every workbook (none for a workbook without sheet
    names), a listed sheet is classified as a model sheet exactly when
    the first column name of its first row is ["Model"], and a sheet that
    parses to no rows is never classified. *)
Theorem getSheetsHavingModels_classifies (wb : workbook) :
  (SheetNames wb = None -> getSheetsHavingModels wb = [])
  /\ (forall sheetName,
        In sheetName (getSheetsHavingModels wb)
        <-> In sheetName (match SheetNames wb with Some l => l | None => [] end)
            /\ exists v more rest,
                 sheet_to_json wb sheetName = (("Model", v) :: more) :: rest)
  /\ (forall sheetName,
        sheet_to_json wb sheetName = [] ->
        ~ In sheetName (getSheetsHavingModels wb)).
Proof.
  rewrite getSheetsHavingModels_filter. repeat split.
  - now intros ->.
  - now apply filter_In in H.
  - apply filter_In in H as [_ H]. now apply isModelSheet_iff.
  - intros [Hin H]. apply filter_In. split; auto. now apply isModelSheet_iff.
  - intros sheetName Hrows Hin. apply filter_In in Hin as [_ H].
    apply isModelSheet_iff in H as (v & more & rest & H). congruence.
Qed.

(** ** SheetExtractor: what a row stores *)

Lemma setProp_Ok {V} (k : string) (v : V) (o o' : list (string * V)) :
  setProp k v o = Ok o' -> o' = Obj.set k v o /\ k <> "__proto__".
Proof.
  unfold setProp. destruct (String.eqb_spec k "__proto__"); [discriminate|].
  intros [= <-]. auto.
Qed.

Lemma storeItem_Ok key field item container container' :
  storeItem key field item container = Ok container' ->
  exists fields,
    Obj.get key container' = Some fields /\ Obj.get field fields = Some item.
Proof.
  unfold storeItem. destruct (Obj.get key container) as [fields|]; [|discriminate].
  intros H. apply rbind_Ok in H as (fields' & Hset & [= <-]).
  apply setProp_Ok in Hset as [-> _].
  exists (Obj.set field item fields).
  now rewrite !ObjFacts.get_set_eq.
Qed.

Lemma columnsWithout_Model (item : row) :
  Obj.keys (Obj.del "Model" item) = columnsWithout ["Model"] item.
Proof.
  rewrite ObjFacts.keys_del. unfold columnsWithout.
  apply filter_ext. intros k. simpl.
  rewrite orb_false_r. now rewrite String.eqb_sym.
Qed.

(** C2, amended. Each row that is processed without an exception is
    stored under its Field name in the open model (or partial), and the
    stored property map is the row without its [Model] column: its keys
    are exactly the row's column names minus [Model]; the [Field] column
    stays.  This holds whatever text the conversion of the Field cell to
    a property key gives, so also for a Field cell that holds a number,
    of any size and with or without a fraction. *)
Theorem extractRow_stores_row_without_Model
    (String_ : value -> result string)
    (sheetName : string) (st st' : extraction) (item : row) :
  extractRowWith String_ sheetName st item = Ok st' ->
  exists field,
    String_ (getv "Field" item) = Ok field
    /\ storedUnder st' sheetName field = Some (Obj.del "Model" item)
    /\ Obj.keys (Obj.del "Model" item) = columnsWithout ["Model"] item.
Proof.
  unfold extractRowWith. intros H.
  apply rbind_Ok in H as (st1 & _ & H).
  unfold storedUnder.
  destruct (String.eqb sheetName "partials") eqn:Esheet.
  - apply rbind_Ok in H as (field & Hfield & H).
    apply rbind_Ok in H as (partials' & Hstore & [= <-]). simpl.
    exists field. split; auto. split; [|apply columnsWithout_Model].
    apply storeItem_Ok in Hstore as (fields & -> & Hget). exact Hget.
  - destruct (Obj.get sheetName (modelsData st1)) as [pkg|]; [|discriminate].
    apply rbind_Ok in H as (field & Hfield & H).
    apply rbind_Ok in H as (pkg' & Hstore & [= <-]). simpl.
    exists field. split; auto. split; [|apply columnsWithout_Model].
    rewrite ObjFacts.get_set_eq.
    apply storeItem_Ok in Hstore as (fields & -> & Hget). exact Hget.
Qed.

Lemma extractRow_stores_row_witness :
  extractRowWith toStringWithHalf "users" afterIdRow halfRow = Ok afterHalfRow
  /\ exists field,
       toStringWithHalf (getv "Field" halfRow) = Ok field
       /\ storedUnder afterHalfRow "users" field
          = Some (Obj.del "Model" halfRow)
       /\ Obj.keys (Obj.del "Model" halfRow)
          = columnsWithout ["Model"] halfRow.
Proof.
  split; [reflexivity|].
  apply (extractRow_stores_row_without_Model toStringWithHalf "users"
           afterIdRow afterHalfRow halfRow).
  reflexivity.
Defined.

(** C2 as stated fails: in the workbook of the end-to-end example the
    property map stored for the row of field [id] still has the key
    [Field]; only [Model] was removed. *)
Lemma extraction_keeps_Field_column :
  exists md ps pkg model stored,
    getModelsDataAndPartialsFromWorkbook usersWorkbook = Ok (md, ps)
    /\ Obj.get "users" md = Some pkg
    /\ Obj.get "User" pkg = Some model
    /\ Obj.get "id" model = Some stored
    /\ Obj.keys stored = ["Field"; "Type"; "Primary"]
    /\ Obj.keys stored
       <> columnsWithout ["Model"; "Field"]
            [ ("Model", VStr "User"); ("Field", VStr "id");
              ("Type", VStr "uuid"); ("Primary", VBool true) ].
Proof.
  do 5 eexists. vm_compute.
  repeat split; try reflexivity. discriminate.
Qed.

(** ** PartialResolver *)

Lemma forEachM_all_Ok {A S} (body : S -> A -> result S) (l : list A) (s s' : S) :
  forEachM body l s = Ok s' ->
  forall x, In x l -> exists s1 s2, body s1 x = Ok s2.
Proof.
  revert s. induction l as [|y l IH]; intros s H x Hin; [destruct Hin|].
  simpl in H. apply rbind_Ok in H as (s1 & Hy & H).
  destruct Hin as [->|Hin]; eauto.
Qed.

Lemma forEachM_inv {A S} (I : S -> Prop) (body : S -> A -> result S)
    (l : list A) (s s' : S) :
  (forall s x s', In x l -> I s -> body s x = Ok s' -> I s') ->
  I s -> forEachM body l s = Ok s' -> I s'.
Proof.
  revert s. induction l as [|y l IH]; intros s Hstep Hs H; simpl in H.
  - now injection H as <-.
  - apply rbind_Ok in H as (s1 & Hy & H).
    eapply IH; [| |exact H].
    + intros. eapply Hstep; eauto. now right.
    + eapply Hstep; eauto. now left.
Qed.

Lemma forInUpdate_all_Ok {V} (f : V -> result V) (o o' : list (string * V)) :
  forInUpdate f o = Ok o' ->
  forall k v, Obj.get k o = Some v -> exists v', f v = Ok v'.
Proof.
  unfold forInUpdate. intros H k v Hget.
  assert (Hin : In k (Obj.keys o)) by (eapply ObjFacts.get_Some_In; eauto).
  revert H Hget Hin. generalize (Obj.keys o) as ks. intros ks. revert o.
  induction ks as [|x ks IH]; intros o H Hget Hin; [destruct Hin|].
  simpl in H. apply rbind_Ok in H as (o1 & Hx & H).
  destruct (string_dec x k) as [->|Hne].
  - rewrite Hget in Hx. apply rbind_Ok in Hx as (v' & Hf & _). eauto.
  - destruct Hin as [?|Hin]; [contradiction|].
    apply (IH o1); auto.
    destruct (Obj.get x o) as [vx|]; [|now injection Hx as <-].
    apply rbind_Ok in Hx as (v' & _ & [= <-]).
    now rewrite ObjFacts.get_set_ne.
Qed.

Lemma fillField_unresolved partials model retModel key field :
  Obj.get key model = Some field ->
  String.prefix "partials." key = true ->
  Obj.get (Str.replaceFirst "partials." "" key) partials = None ->
  inherited (Str.replaceFirst "partials." "" key) = false ->
  fillField partials model retModel key = Throw TypeError.
Proof.
  intros Hget Hpre Hnone Hinh. unfold fillField, partialFields.
  now rewrite Hget, Hpre, Hnone, Hinh.
Qed.

Lemma not_Ok_Throw {A} (c : result A) :
  (forall a, c <> Ok a) -> exists e, c = Throw e.
Proof. destruct c; [intros H; now destruct (H a) | eauto]. Qed.

(** C3, amended. A field key [partials.X] whose [X] names no entry of the
    partial bundle (and no member inherited from [Object.prototype])
    makes PartialResolver throw: the loop body throws a [TypeError] at
    that key, and neither the model nor the schema is resolved. *)
Theorem fillPartials_unresolved_throws
    (modelsData : schema) (partials : list (string * modelObj))
    (sheetName modelName key : string) (pkg : packageObj) (model : modelObj)
    (field : fieldObj) :
  Obj.get sheetName modelsData = Some pkg ->
  Obj.get modelName pkg = Some model ->
  Obj.get key model = Some field ->
  String.prefix "partials." key = true ->
  Obj.get (Str.replaceFirst "partials." "" key) partials = None ->
  inherited (Str.replaceFirst "partials." "" key) = false ->
  (forall retModel, fillField partials model retModel key = Throw TypeError)
  /\ (exists e, fillModel partials model = Throw e)
  /\ (exists e, fillPartials modelsData partials = Throw e).
Proof.
  intros Hpkg Hmodel Hfield Hpre Hnone Hinh.
  assert (Hbody : forall retModel,
             fillField partials model retModel key = Throw TypeError)
    by (intros; eapply fillField_unresolved; eauto).
  assert (Hmod : forall r, fillModel partials model <> Ok r).
  { intros r Hr. unfold fillModel in Hr.
    eapply forEachM_all_Ok in Hr as (s1 & s2 & Hs);
      [|eapply ObjFacts.get_Some_In; eauto].
    rewrite Hbody in Hs. discriminate. }
  split; [exact Hbody|]. split; [now apply not_Ok_Throw|].
  apply not_Ok_Throw. intros r Hr. unfold fillPartials in Hr.
  eapply forInUpdate_all_Ok in Hr as (pkg' & Hp); [|exact Hpkg].
  eapply forInUpdate_all_Ok in Hp as (model' & Hm); [|exact Hmodel].
  now apply Hmod in Hm.
Qed.

Lemma fillPartials_unresolved_witness :
  (Obj.get "users" userWithPartial = Some [("User", modelWithPartial)]
   /\ Obj.get "partials.Base" modelWithPartial
      = Some [("Field", VStr "partials.Base")]
   /\ Obj.get (Str.replaceFirst "partials." "" "partials.Base") []
      = @None modelObj
   /\ inherited (Str.replaceFirst "partials." "" "partials.Base") = false)
  /\ ((forall retModel,
         fillField [] modelWithPartial retModel "partials.Base"
         = Throw TypeError)
      /\ (exists e, fillModel [] modelWithPartial = Throw e)
      /\ (exists e, fillPartials userWithPartial [] = Throw e)).
Proof.
  split; [repeat split; reflexivity|].
  apply (fillPartials_unresolved_throws userWithPartial [] "users" "User"
           "partials.Base" [("User", modelWithPartial)] modelWithPartial
           [("Field", VStr "partials.Base")]);
    reflexivity.
Defined.

(** C3 as stated fails: with an empty partial bundle the reference
    [partials.Base] makes the resolver throw instead of completing. *)
Lemma fillPartials_unresolved_counterexample :
  fillPartials userWithPartial [] = Throw TypeError
  /\ forall resolved, fillPartials userWithPartial [] <> Ok resolved.
Proof. split; [reflexivity | intros resolved H; discriminate H]. Qed.

(** ** TypeResolver: integer widths *)

Lemma intWidth_default_min (mx : Q) :
  intWidth (Some (-1)%Q) (Some mx)
  = Some (if Qle_bool mx 2147483647%Q then "int32" else "int64").
Proof.
  unfold intWidth, ge, le, gt, lt, leB.
  change (Qle_bool 0 (-1)) with false. cbn [andb negb].
  destruct (Qle_bool mx 2147483647); reflexivity.
Qed.

Lemma intWidth_default_max (mn : Q) :
  intWidth (Some mn) (Some literal_18446744073709551615)
  = Some (if Qle_bool 0%Q mn then "uint64" else "int64").
Proof.
  unfold intWidth, ge, le, gt, lt, leB.
  change (Qle_bool literal_18446744073709551615 4294967295) with false.
  change (Qle_bool literal_18446744073709551615 2147483647) with false.
  destruct (Qle_bool 0 mn); reflexivity.
Qed.

(** The rows of the width table, on the bounds of the spec's examples. *)
Example intWidth_table :
  intWidth (Some 0%Q) (Some 4294967295%Q) = Some "uint32"
  /\ intWidth (Some 0%Q) (Some 4294967296%Q) = Some "uint64"
  /\ intWidth (Some (-5)%Q) (Some 100%Q) = Some "int32"
  /\ intWidth (Some (-5)%Q) (Some 9999999999%Q) = Some "int64".
Proof. repeat split; reflexivity. Qed.

(** C4, amended. For an integer-typed field with exactly one numeric
    bound, a missing Minimum defaults to -1 and a missing Maximum to the
    literal 18446744073709551615 before the width table applies.  So a
    field with Minimum absent resolves to the signed 32-bit width when
    Maximum <= 2^31 - 1 and to the signed 64-bit width otherwise, and a
    field with Maximum absent resolves to the unsigned 64-bit width when
    Minimum >= 0 and to the signed 64-bit width otherwise. *)
Theorem setIntType_one_bound (field : fieldObj) :
  getv "typeFromTypes" field = VStr "int" ->
  (forall mx,
      getv "Minimum" field = VUndef -> getv "Maximum" field = VNum mx ->
      exists w,
        intWidth (Some (-1)%Q) (Some mx) = Some w
        /\ w = (if Qle_bool mx 2147483647%Q then "int32" else "int64")
        /\ setIntType field = Ok (Obj.set "type" (VStr w) field))
  /\ (forall mn,
        getv "Minimum" field = VNum mn -> getv "Maximum" field = VUndef ->
        exists w,
          intWidth (Some mn) (Some literal_18446744073709551615) = Some w
          /\ w = (if Qle_bool 0%Q mn then "uint64" else "int64")
          /\ setIntType field = Ok (Obj.set "type" (VStr w) field)).
Proof.
  intros Htype. split.
  - intros mx Hmin Hmax. eexists. split; [apply intWidth_default_min|].
    split; [reflexivity|].
    unfold setIntType. rewrite Htype, Hmin, Hmax.
    change (isStr "int" (VStr "int")) with true. cbv iota.
    cbn [isStr isUndef negb andb toNumber rbind].
    now rewrite intWidth_default_min.
  - intros mn Hmin Hmax. eexists. split; [apply intWidth_default_max|].
    split; [reflexivity|].
    unfold setIntType. rewrite Htype, Hmin, Hmax.
    change (isStr "int" (VStr "int")) with true. cbv iota.
    cbn [isStr isUndef negb andb toNumber rbind].
    now rewrite intWidth_default_max.
Qed.

Lemma setIntType_one_bound_witness :
  getv "typeFromTypes" intFieldMax100 = VStr "int"
  /\ (forall mx,
        getv "Minimum" intFieldMax100 = VUndef ->
        getv "Maximum" intFieldMax100 = VNum mx ->
        exists w,
          intWidth (Some (-1)%Q) (Some mx) = Some w
          /\ w = (if Qle_bool mx 2147483647%Q then "int32" else "int64")
          /\ setIntType intFieldMax100
             = Ok (Obj.set "type" (VStr w) intFieldMax100)).
Proof.
  split; [reflexivity|].
  apply (setIntType_one_bound intFieldMax100). reflexivity.
Defined.

(** C4 as stated fails: with Minimum absent and Maximum = 100 the field
    resolves to [int32], not to the unsigned 32-bit width. *)
Lemma setIntType_Maximum_only_is_signed :
  getv "Minimum" intFieldMax100 = VUndef
  /\ getv "Maximum" intFieldMax100 = VNum 100%Q
  /\ setIntType intFieldMax100
     = Ok [ ("typeFromTypes", VStr "int"); ("Maximum", VNum 100%Q);
            ("type", VStr "int32") ]
  /\ setIntType intFieldMax100
     <> Ok (Obj.set "type" (VStr "uint32") intFieldMax100).
Proof. repeat split; try reflexivity. discriminate. Qed.

(** ** TypeResolver: float widths *)

Lemma threshold32_is_Infinity : literal_3_402823466e385 = Inf.
Proof. vm_compute. reflexivity. Qed.

(** Whatever number Maximum is, the first test of [setFloatType]
    succeeds: the branch to the 64-bit float is never taken. *)
Lemma setFloatType_with_Maximum (field : fieldObj) (mx : Q) :
  getv "typeFromTypes" field = VStr "float" ->
  getv "Maximum" field = VNum mx ->
  setFloatType field = Ok (Obj.set "type" (VStr "float32") field).
Proof.
  intros Ht Hm. unfold setFloatType. rewrite Ht, Hm.
  change (isStr "float" (VStr "float")) with true. cbv iota.
  cbn [isUndef toNumber rbind option_map].
  now rewrite threshold32_is_Infinity.
Qed.

(** C7 on the code: a float field whose Maximum 1e39 exceeds the largest
    single-precision number still resolves to [float32]; the claim asks
    for [float64] there. *)
Theorem setFloatType_above_single_range_is_float32 :
  (maxSingle < Qabs (inject_Z (10 ^ 39)))%Q
  /\ setFloatType floatFieldMax1e39
     = Ok [ ("typeFromTypes", VStr "float");
            ("Maximum", VNum (inject_Z (10 ^ 39)));
            ("type", VStr "float32") ].
Proof. split; reflexivity. Qed.

(** ** HierarchySorter *)

Lemma includes_In (s : string) (l : list string) :
  Str.includes s l = true <-> In s l.
Proof.
  unfold Str.includes. rewrite existsb_exists. split.
  - intros (x & Hin & Heq). apply String.eqb_eq in Heq. now subst.
  - intros Hin. exists s. split; auto. apply String.eqb_refl.
Qed.

Lemma includes_false_notin (s : string) (l : list string) :
  Str.includes s l = false -> ~ In s l.
Proof. intros H Hin. apply includes_In in Hin. congruence. Qed.

Lemma NoDup_snoc {A} (l : list A) (x : A) :
  List.NoDup l -> ~ In x l -> List.NoDup (l ++ [x]).
Proof.
  induction l as [|y l IH]; simpl; intros Hnd Hnin.
  - constructor; [simpl; tauto | constructor].
  - apply List.NoDup_cons_iff in Hnd as [Hy Hnd].
    apply List.NoDup_cons_iff. split.
    + rewrite in_app_iff. simpl. intros [?|[?|[]]]; [contradiction|]. subst. tauto.
    + apply IH; tauto.
Qed.

Lemma fold_left_inv {A S} (I : S -> Prop) (step : S -> A -> S)
    (l : list A) (s : S) :
  (forall s x, In x l -> I s -> I (step s x)) -> I s -> I (fold_left step l s).
Proof.
  revert s. induction l as [|y l IH]; intros s Hstep Hs; simpl; auto.
  apply IH.
  - intros. apply Hstep; auto. now right.
  - apply Hstep; auto. now left.
Qed.

Section SorterFacts.

Variable allModelStrs : list string.
Variable hierarchy : list (string * list string).

Lemma isChild_existsb (model : string) :
  isChild hierarchy model
  = existsb (fun kv => listsChild (snd kv) model) hierarchy.
Proof.
  unfold isChild.
  enough (H : forall b,
             fold_left
               (fun isChild kv =>
                  if listsChild (snd kv) model then true else isChild)
               hierarchy b
             = existsb (fun kv => listsChild (snd kv) model) hierarchy || b)
    by (rewrite H; apply orb_false_r).
  induction hierarchy as [|kv h IH]; intros b; simpl; auto.
  rewrite IH. destruct (listsChild (snd kv) model); simpl; auto.
  now rewrite orb_true_r.
Qed.

Lemma countParents_positive (model : string) :
  (0 < fst (countParents hierarchy model))%nat ->
  isChild hierarchy model = true.
Proof.
  rewrite isChild_existsb. unfold countParents.
  enough (H : forall acc,
             (fst acc < fst (fold_left
                (fun (acc : nat * string) kv =>
                   if listsChild (snd kv) model then (S (fst acc), fst kv)
                   else acc)
                hierarchy acc))%nat ->
             existsb (fun kv => listsChild (snd kv) model) hierarchy = true)
    by apply (H (O, "")).
  induction hierarchy as [|kv h IH]; intros acc; simpl; [lia|].
  destruct (listsChild (snd kv) model); simpl; auto. apply IH.
Qed.

Lemma seedParents_filter :
  seedParents allModelStrs hierarchy
  = List.filter (fun m => negb (isChild hierarchy m)) allModelStrs.
Proof. unfold seedParents. now rewrite fold_left_push_filter. Qed.

Local Abbreviation extends := (extendsWithChildren allModelStrs hierarchy).

Lemma extends_refl (base : list string) : extends base base.
Proof.
  exists []. rewrite app_nil_r. repeat split; auto; destruct H.
Qed.

Lemma extends_push (base sorted : list string) (m : string) :
  extends base sorted ->
  isChild hierarchy m = true -> In m allModelStrs -> ~ In m sorted ->
  extends base (sorted ++ [m]).
Proof.
  intros (added & -> & Hch & Hnd) Hm Hin Hnin.
  exists (added ++ [m]). rewrite app_assoc. repeat split.
  - apply in_app_iff in H as [H|[<-|[]]]; auto. now apply Hch.
  - apply in_app_iff in H as [H|[<-|[]]]; auto. now apply Hch.
  - intros Hb. apply NoDup_snoc; auto.
Qed.

Lemma placeChild_extends (base sorted : list string) (m : string) :
  In m allModelStrs -> extends base sorted ->
  extends base (placeChild hierarchy sorted m).
Proof.
  intros Hin Hext. unfold placeChild.
  destruct (countParents hierarchy m) as [numParents parent] eqn:Ecount.
  destruct (Nat.eqb_spec numParents 1) as [->|]; auto.
  destruct (Str.includes (Str.replaceFirst "." "Models." parent) sorted); auto.
  destruct (Str.includes m sorted) eqn:Einc; simpl; auto.
  apply extends_push; auto.
  - apply countParents_positive. rewrite Ecount. simpl. lia.
  - now apply includes_false_notin.
Qed.

Lemma passes_extends (base : list string) :
  extends base (passes allModelStrs hierarchy base).
Proof.
  unfold passes. apply fold_left_inv; [|apply extends_refl].
  intros s i _ Hs. unfold pass. apply fold_left_inv; auto.
  intros s' m Hin Hs'. now apply placeChild_extends.
Qed.

Lemma appendRest_extends (base sorted : list string) :
  (forall m, In m allModelStrs -> isChild hierarchy m = false -> In m sorted) ->
  extends base sorted -> extends base (appendRest allModelStrs sorted).
Proof.
  intros Hroots Hext. unfold appendRest.
  set (I := fun s => extends base s
                     /\ forall m, In m allModelStrs ->
                                  isChild hierarchy m = false -> In m s).
  enough (H : I (fold_left
                   (fun sorted model =>
                      if negb (Str.includes model sorted)
                      then sorted ++ [model] else sorted)
                   allModelStrs sorted)) by apply H.
  apply fold_left_inv; [|split; auto].
  intros s m Hin [Hs Hr]. unfold I.
  destruct (Str.includes m s) eqn:Einc; simpl; [split; auto|].
  apply includes_false_notin in Einc. split.
  - apply extends_push; auto.
    destruct (isChild hierarchy m) eqn:Ech; [reflexivity|].
    exfalso. apply Einc. now apply Hr.
  - intros m' Hin' Hch'. apply in_app_iff. left. now apply Hr.
Qed.

Lemma appendRest_complete (sorted : list string) (m : string) :
  In m allModelStrs -> In m (appendRest allModelStrs sorted).
Proof.
  unfold appendRest. revert sorted.
  induction allModelStrs as [|x l IH]; intros sorted Hin; [destruct Hin|].
  simpl. destruct Hin as [->|Hin]; [|now apply IH].
  apply (fold_left_inv (fun s => In m s)).
  - intros s y _ Hs. destruct (negb (Str.includes y s)); auto.
    apply in_app_iff. now left.
  - destruct (Str.includes m sorted) eqn:Einc; simpl.
    + now apply includes_In.
    + apply in_app_iff. right. now left.
Qed.

End SorterFacts.

(** C9, amended. The output of [sortModelsByHierarchy] starts with every
    model that is in no parent's child list, in input order; every model
    placed after them, by the six passes or by the final phase, is some
    parent's child; no model of the input is lost; and when the input
    list has no duplicates, neither has the output. *)
Theorem sortModelsByHierarchy_roots_first
    (allModelStrs : list string) (hierarchy : list (string * list string)) :
  exists placed rest,
    passes allModelStrs hierarchy (seedParents allModelStrs hierarchy)
    = seedParents allModelStrs hierarchy ++ placed
    /\ sortModelsByHierarchy allModelStrs hierarchy
       = seedParents allModelStrs hierarchy ++ placed ++ rest
    /\ seedParents allModelStrs hierarchy
       = List.filter (fun m => negb (isChild hierarchy m)) allModelStrs
    /\ (forall m, In m (placed ++ rest) ->
                  isChild hierarchy m = true /\ In m allModelStrs)
    /\ (forall m, In m allModelStrs ->
                  In m (sortModelsByHierarchy allModelStrs hierarchy))
    /\ (List.NoDup allModelStrs ->
        List.NoDup (sortModelsByHierarchy allModelStrs hierarchy)).
Proof.
  set (seed := seedParents allModelStrs hierarchy).
  destruct (passes_extends allModelStrs hierarchy seed)
    as (placed & Hplaced & Hch1 & Hnd1).
  assert (Hrest : extendsWithChildren allModelStrs hierarchy
                    (passes allModelStrs hierarchy seed)
                    (appendRest allModelStrs
                       (passes allModelStrs hierarchy seed))).
  { apply appendRest_extends; [|apply extends_refl].
    intros m Hin Hch. rewrite Hplaced. apply in_app_iff. left.
    unfold seed. rewrite seedParents_filter. apply filter_In.
    split; auto. now rewrite Hch. }
  destruct Hrest as (rest & Hrest & Hch2 & Hnd2).
  exists placed, rest. split; [exact Hplaced|].
  split; [unfold sortModelsByHierarchy; fold seed; rewrite Hrest, Hplaced;
          now rewrite app_assoc|].
  split; [apply seedParents_filter|].
  split; [intros m Hm; apply in_app_iff in Hm as [Hm|Hm]; auto|].
  split; [intros m Hm; now apply appendRest_complete|].
  intros Hnd. unfold sortModelsByHierarchy. fold seed. apply Hnd2, Hnd1.
  unfold seed. rewrite seedParents_filter. now apply List.NoDup_filter.
Qed.

(** C9 as stated fails: a model that is nobody's child and occurs twice
    in the input occurs twice in the output. *)
Lemma sortModelsByHierarchy_keeps_duplicates :
  sortModelsByHierarchy ["usersModels.User"; "usersModels.User"] []
  = ["usersModels.User"; "usersModels.User"]
  /\ ~ List.NoDup
        (sortModelsByHierarchy ["usersModels.User"; "usersModels.User"] []).
Proof.
  split; [reflexivity|].
  intros H. apply List.NoDup_cons_iff in H as [H _]. apply H. now left.
Qed.

(** ** RelationshipExpander *)

Lemma getv_set_eq k v (o : list (string * value)) :
  getv k (Obj.set k v o) = v.
Proof. unfold getv. now rewrite ObjFacts.get_set_eq. Qed.

Lemma getv_set_ne k k' v (o : list (string * value)) :
  k <> k' -> getv k' (Obj.set k v o) = getv k' o.
Proof. intros H. unfold getv. now rewrite ObjFacts.get_set_ne. Qed.

Lemma contains_append (c : ascii) (a b : string) :
  Str.contains c (a ++ b)%string = Str.contains c a || Str.contains c b.
Proof.
  induction a as [|d a IH]; simpl; auto.
  rewrite IH. now rewrite orb_assoc.
Qed.

Lemma split_parts_no_sep (c : ascii) (s p : string) :
  In p (Str.split c s) -> Str.contains c p = false.
Proof.
  revert p. induction s as [|d s IH]; simpl; intros p Hin.
  - destruct Hin as [<-|[]]. reflexivity.
  - destruct (Ascii.eqb d c) eqn:E.
    + destruct Hin as [<-|Hin]; auto.
    + destruct (Str.split c s) as [|h t].
      * destruct Hin as [<-|[]]. simpl. now rewrite E.
      * destruct Hin as [<-|Hin].
        -- simpl. rewrite E. simpl. apply IH. now left.
        -- apply IH. now right.
Qed.

Lemma relatedModelOf_no_dot (fieldKey : string) :
  Str.contains "." (relatedModelOf fieldKey) = false.
Proof.
  unfold relatedModelOf.
  destruct (nth_in_or_default 1 (Str.split "." fieldKey) "") as [Hin| ->]; auto.
  eapply split_parts_no_sep; eauto.
Qed.

Lemma relatedFieldNameOf_no_dot (fieldKey : string) :
  Str.contains "." (relatedFieldNameOf fieldKey) = false.
Proof.
  unfold relatedFieldNameOf. rewrite contains_append.
  now rewrite relatedModelOf_no_dot.
Qed.

Lemma length_append (a b : string) :
  String.length (a ++ b)%string = (String.length a + String.length b)%nat.
Proof. induction a as [|c a IH]; simpl; auto. Qed.

Lemma append_Id_neq (s : string) : s <> (s ++ "Id")%string.
Proof.
  intros H. apply (f_equal String.length) in H.
  rewrite length_append in H. simpl in H. lia.
Qed.


Lemma createFieldVariables_keeps (f : fieldObj) (k : string) :
  k <> "length" ->
  Obj.get k (fst (createFieldVariables f)) = Obj.get k f.
Proof.
  intros Hk. unfold createFieldVariables.
  destruct (truthy (getv "typeFromTypes" f)); auto.
  destruct (getv "typeFromTypes" f); auto. simpl.
  destruct (truthy (getv "length" o)); auto.
  rewrite ObjFacts.get_set_ne; auto.
Qed.

Section ExpanderFacts.

Variable modulePath : string.



End ExpanderFacts.

(** ** The parent-to-children table *)

(** Whatever the model, [processModels] writes at most one key of the
    table for it: the parent left in the holder after the two loops. *)
Lemma processModel_records_one_parent
    (modulePath packageCamelCase : string) (packageData : packageObj)
    (st st' : modelsState) (model : string) :
  processModel modulePath packageCamelCase packageData st model = Ok st' ->
  allModelsWithHierarchyData st' = allModelsWithHierarchyData st
  \/ exists parent,
       forall k, k <> parent ->
         Obj.get k (allModelsWithHierarchyData st')
         = Obj.get k (allModelsWithHierarchyData st).
Proof.
  unfold processModel. destruct (Obj.get model packageData); [|discriminate].
  intros H. apply rbind_Ok in H as (ms & _ & [= <-]). simpl.
  destruct (parentModel ms) as [parent|]; [|now left].
  right. exists parent. intros k Hk.
  destruct (Obj.get parent (allModelsWithHierarchyData st));
    now rewrite ObjFacts.get_set_ne by auto.
Qed.

(** C5 on the code: the model [orgs.Membership] carries the two dotted
    fields [users.User] and [orgs.Org]; after [processModels] it is
    recorded under [orgs.Org] only, the parent named by the last dotted
    field, and the table has no entry for [users.User], although both
    relationships were expanded into fields.  ([_.camelCase] leaves the
    package name [orgs] as it is.) *)
Theorem processModels_records_last_parent_only :
  exists st,
    processModels "example.com/app" (fun package_ => package_) membershipSchema
    = Ok st
    /\ allModelsWithHierarchyData st = [("orgs.Org", ["orgs.Membership"])]
    /\ Obj.get "users.User" (allModelsWithHierarchyData st) = None
    /\ map (fun r => Obj.keys (snd (fst r))) (rendered st)
       = [["User"; "UserId"; "Org"; "OrgId"]].
Proof. eexists. vm_compute. repeat split. Qed.

(** ** APISectionSegregator *)

Lemma forInUpdate_loop {V} (f : V -> result V) (ks : list string)
    (o o' : list (string * V)) :
  List.NoDup ks ->
  forEachM
    (fun o name =>
       match Obj.get name o with
       | None => Ok o
       | Some v => v' <-- f v ;; Ok (Obj.set name v' o)
       end) ks o = Ok o' ->
  Obj.keys o' = Obj.keys o
  /\ (forall k, In k ks -> forall v, Obj.get k o = Some v ->
                exists v', f v = Ok v' /\ Obj.get k o' = Some v')
  /\ (forall k, ~ In k ks -> Obj.get k o' = Obj.get k o).
Proof.
  revert o. induction ks as [|x ks IH]; intros o Hnd H; simpl in H.
  - injection H as <-. repeat split; auto. intros k [].
  - apply List.NoDup_cons_iff in Hnd as [Hx Hnd].
    apply rbind_Ok in H as (o1 & Hstep & H).
    destruct (IH o1 Hnd H) as (Hkeys & Hin & Hout).
    destruct (Obj.get x o) as [vx|] eqn:Ex.
    + apply rbind_Ok in Hstep as (vx' & Hf & [= <-]).
      split; [|split].
      * rewrite Hkeys. apply ObjFacts.keys_set_in.
        eapply ObjFacts.get_Some_In; eauto.
      * intros k [<-|Hk] v Hv.
        -- rewrite Ex in Hv. injection Hv as <-. exists vx'. split; auto.
           rewrite Hout by auto. apply ObjFacts.get_set_eq.
        -- apply Hin; auto. rewrite ObjFacts.get_set_ne; auto.
           intros ->. contradiction.
      * intros k Hk. rewrite Hout by (intros ?; apply Hk; now right).
        apply ObjFacts.get_set_ne. intros ->. apply Hk. now left.
    + injection Hstep as <-. split; [auto|split].
      * intros k [<-|Hk] v Hv; [congruence|]. now apply Hin.
      * intros k Hk. apply Hout. intros ?. apply Hk. now right.
Qed.

Lemma forInUpdate_spec {V} (f : V -> result V) (o o' : list (string * V)) :
  List.NoDup (Obj.keys o) ->
  forInUpdate f o = Ok o' ->
  Obj.keys o' = Obj.keys o
  /\ forall k v', Obj.get k o' = Some v' ->
                  exists v, Obj.get k o = Some v /\ f v = Ok v'.
Proof.
  intros Hnd H. unfold forInUpdate in H.
  destruct (forInUpdate_loop f _ _ _ Hnd H) as (Hkeys & Hin & _).
  split; auto. intros k v' Hget.
  assert (Hk : In k (Obj.keys o))
    by (rewrite <- Hkeys; eapply ObjFacts.get_Some_In; eauto).
  destruct (ObjFacts.In_keys_get _ _ Hk) as (v & Hv).
  destruct (Hin k Hk v Hv) as (v'' & Hf & Hget'').
  exists v. split; auto. congruence.
Qed.





(** ** RouteProjector: one model *)

Lemma stripProps_keeps_api (ks : list string) (f : fieldObj) :
  Obj.get "api" (stripProps ks f) = Obj.get "api" f.
Proof.
  unfold stripProps. revert f. induction ks as [|k ks IH]; intros f; simpl; auto.
  rewrite IH. destruct (String.eqb_spec k "api"); simpl; auto.
  now apply ObjFacts.get_del_ne.
Qed.


Lemma stripProps_shrinks (ks : list string) (f : fieldObj) (k : string) :
  In k (Obj.keys (stripProps ks f)) -> In k (Obj.keys f).
Proof.
  unfold stripProps. revert f. induction ks as [|x ks IH]; intros f; simpl; auto.
  intros H. apply IH in H. destruct (negb (String.eqb x "api")); auto.
  now apply ObjFacts.In_keys_del in H.
Qed.

Lemma stripProps_removes (ks : list string) (f : fieldObj) (k : string) :
  k <> "api" -> In k ks -> ~ In k (Obj.keys (stripProps ks f)).
Proof.
  intros Hk. revert f. induction ks as [|x ks IH]; intros f Hin; [destruct Hin|].
  destruct Hin as [->|Hin]; [|now apply IH].
  unfold stripProps. simpl. fold (stripProps ks).
  destruct (String.eqb_spec k "api"); [contradiction|]. simpl.
  intros H. apply stripProps_shrinks in H.
  apply ObjFacts.In_keys_del in H. tauto.
Qed.

Lemma stripProps_only_api (f : fieldObj) (k : string) :
  In k (Obj.keys (stripProps (Obj.keys f) f)) -> k = "api".
Proof.
  intros H. destruct (string_dec k "api") as [|Hne]; auto.
  exfalso.
  apply (stripProps_removes (Obj.keys f) f k Hne);
    [eapply stripProps_shrinks; eauto | exact H].
Qed.

Lemma stripProps_empty_iff (f : fieldObj) :
  length (Obj.keys (stripProps (Obj.keys f) f)) = O
  <-> Obj.get "api" f = None.
Proof.
  split.
  - intros Hlen. destruct (Obj.get "api" f) as [v|] eqn:E; auto.
    rewrite <- (stripProps_keeps_api (Obj.keys f)) in E.
    apply ObjFacts.get_Some_In in E.
    destruct (Obj.keys (stripProps (Obj.keys f) f)); [destruct E | discriminate].
  - intros Hnone.
    destruct (Obj.keys (stripProps (Obj.keys f) f)) as [|k r] eqn:E; auto.
    exfalso.
    assert (Hk : In k (Obj.keys (stripProps (Obj.keys f) f)))
      by (rewrite E; now left).
    pose proof (stripProps_only_api f k Hk) as ->.
    apply ObjFacts.In_keys_get in Hk as (v & Hv).
    rewrite stripProps_keeps_api in Hv. congruence.
Qed.

Lemma stripField_unfold (modelData : modelObj) (field : string) :
  stripField modelData field
  = match Obj.get field modelData with
    | None => modelData
    | Some f =>
        if (length (Obj.keys (stripProps (Obj.keys f) f)) =? 0)%nat
        then Obj.del field modelData
        else Obj.set field (stripProps (Obj.keys f) f) modelData
    end.
Proof. reflexivity. Qed.

(** The first loop of the projector over a model with unique field
    names: a field with an [api] property is kept with that property
    alone, a field without one is deleted. *)
Lemma stripFields_spec (ks : list string) (model : modelObj) :
  List.NoDup ks ->
  (forall f, In f ks -> forall props, Obj.get f model = Some props ->
             Obj.get f (fold_left stripField ks model)
             = match Obj.get "api" props with
               | Some _ => Some (stripProps (Obj.keys props) props)
               | None => None
               end)
  /\ (forall f, ~ In f ks ->
                Obj.get f (fold_left stripField ks model) = Obj.get f model).
Proof.
  revert model. induction ks as [|x ks IH]; intros model Hnd.
  - split; [intros f [] | auto].
  - apply List.NoDup_cons_iff in Hnd as [Hx Hnd]. simpl.
    destruct (IH (stripField model x) Hnd) as [Hin Hout].
    assert (Hother : forall f, f <> x ->
                       Obj.get f (stripField model x) = Obj.get f model).
    { intros f Hne. rewrite stripField_unfold.
      destruct (Obj.get x model); auto.
      destruct (_ =? _)%nat;
        [apply ObjFacts.get_del_ne | apply ObjFacts.get_set_ne]; auto. }
    split.
    + intros f [<-|Hf] props Hget.
      * rewrite Hout by auto. rewrite stripField_unfold, Hget.
        destruct (Nat.eqb_spec
                    (length (Obj.keys (stripProps (Obj.keys props) props))) 0)
          as [E|E].
        -- apply stripProps_empty_iff in E. rewrite E.
           apply ObjFacts.get_del_eq.
        -- destruct (Obj.get "api" props) eqn:Eapi.
           ++ apply ObjFacts.get_set_eq.
           ++ exfalso. apply E. now apply stripProps_empty_iff.
      * apply Hin; auto. rewrite Hother; auto. intros ->. contradiction.
    + intros f Hf. rewrite Hout by (intros ?; apply Hf; now right).
      apply Hother. intros ->. apply Hf. now left.
Qed.


Lemma routeAction_spec (modelData : modelObj) (entry entry' : routeModel)
    (action : string) :
  routeAction modelData entry action = Ok entry' ->
  exists l,
    filterM (fieldHasAction modelData action) (Obj.keys modelData) = Ok l
    /\ Obj.get action entry' = (if (length l =? 0)%nat then None else Some l)
    /\ forall b, b <> action -> Obj.get b entry' = Obj.get b entry.
Proof.
  unfold routeAction. intros H. apply rbind_Ok in H as (l & Hl & H).
  exists l. split; auto.
  destruct (length l =? 0)%nat; injection H as <-.
  - split; [apply ObjFacts.get_del_eq|].
    intros b Hb. rewrite ObjFacts.get_del_ne by auto.
    now apply ObjFacts.get_set_ne.
  - split; [apply ObjFacts.get_set_eq|].
    intros b Hb. now apply ObjFacts.get_set_ne.
Qed.

(** The loop over the four actions. *)
Lemma routeActions_spec (modelData : modelObj) (entry : routeModel) :
  forEachM (routeAction modelData) actions
    [("create", []); ("read", []); ("update", []); ("delete", [])] = Ok entry ->
  (forall a, In a actions ->
     exists l,
       filterM (fieldHasAction modelData a) (Obj.keys modelData) = Ok l
       /\ Obj.get a entry = (if (length l =? 0)%nat then None else Some l))
  /\ (forall a, ~ In a actions -> Obj.get a entry = None).
Proof.
  unfold actions. simpl. intros H.
  apply rbind_Ok in H as (e1 & H1 & H).
  apply rbind_Ok in H as (e2 & H2 & H).
  apply rbind_Ok in H as (e3 & H3 & H).
  apply rbind_Ok in H as (e4 & H4 & [= <-]).
  apply routeAction_spec in H1 as (l1 & Hl1 & Hg1 & Ho1).
  apply routeAction_spec in H2 as (l2 & Hl2 & Hg2 & Ho2).
  apply routeAction_spec in H3 as (l3 & Hl3 & Hg3 & Ho3).
  apply routeAction_spec in H4 as (l4 & Hl4 & Hg4 & Ho4).
  split.
  - intros a [<-|[<-|[<-|[<-|[]]]]].
    + exists l1. split; auto.
      rewrite Ho4, Ho3, Ho2 by discriminate. exact Hg1.
    + exists l2. split; auto. rewrite Ho4, Ho3 by discriminate. exact Hg2.
    + exists l3. split; auto. rewrite Ho4 by discriminate. exact Hg3.
    + exists l4. split; auto.
  - intros a Ha. simpl in Ha.
    rewrite Ho4, Ho3, Ho2, Ho1 by (intros ->; tauto).
    simpl.
    destruct (String.eqb_spec a "create"); [subst; tauto|].
    destruct (String.eqb_spec a "read"); [subst; tauto|].
    destruct (String.eqb_spec a "update"); [subst; tauto|].
    destruct (String.eqb_spec a "delete"); [subst; tauto|]. reflexivity.
Qed.

(** An index key starts with a digit, so it is no action name. *)
Lemma indexKeys_not_action (n : nat) (a : string) :
  In a actions -> ~ In a (indexKeys n).
Proof.
  intros Ha Hin. unfold indexKeys in Hin. apply in_map_iff in Hin as (i & <- & _).
  destruct (Nat.to_uint i) as [|d|d|d|d|d|d|d|d|d|d];
    simpl in Ha; intuition discriminate.
Qed.



(** ** RouteProjector: packages and the store *)

Lemma routesOfPackage_loop (ks : list string) (pd pd' : packageObj)
    (reorganized reorganized' : routePackage) :
  List.NoDup ks ->
  forEachM
    (fun (st : packageObj * routePackage) modelName =>
       let '(pd, reorganized) := st in
       if inherited modelName then Throw Unsupported
       else
         match Obj.get modelName pd with
         | None => Ok (pd, reorganized)
         | Some modelData =>
             r <-- routesOfModel modelData ;;
             let '(modelData', entry) := r in
             Ok (Obj.set modelName modelData' pd,
                 Obj.set modelName entry reorganized)
         end)
    ks (pd, reorganized) = Ok (pd', reorganized') ->
  (forall m, In m ks -> forall model, Obj.get m pd = Some model ->
     exists model' entry,
       routesOfModel model = Ok (model', entry)
       /\ Obj.get m reorganized' = Some entry
       /\ Obj.get m pd' = Some model')
  /\ (forall m, ~ In m ks ->
        Obj.get m reorganized' = Obj.get m reorganized
        /\ Obj.get m pd' = Obj.get m pd).
Proof.
  revert pd reorganized.
  induction ks as [|x ks IH]; intros pd reorganized Hnd H; simpl in H.
  - injection H as <- <-. split; [intros m [] | auto].
  - apply List.NoDup_cons_iff in Hnd as [Hx Hnd].
    apply rbind_Ok in H as ([pd1 re1] & Hstep & H).
    destruct (IH pd1 re1 Hnd H) as [Hin Hout].
    destruct (inherited x); [discriminate|].
    destruct (Obj.get x pd) as [modelx|] eqn:Ex.
    + apply rbind_Ok in Hstep as ([modelx' entryx] & Hr & [= <- <-]).
      split.
      * intros m [<-|Hm] model Hmodel.
        -- rewrite Ex in Hmodel. injection Hmodel as <-.
           exists modelx', entryx. destruct (Hout x Hx) as [-> ->].
           rewrite !ObjFacts.get_set_eq. auto.
        -- apply Hin; auto. rewrite ObjFacts.get_set_ne; auto.
           intros ->. contradiction.
      * intros m Hm.
        destruct (Hout m) as [-> ->]; [intros ?; apply Hm; now right|].
        rewrite !ObjFacts.get_set_ne; auto; intros ->; apply Hm; now left.
    + injection Hstep as <- <-. split.
      * intros m [<-|Hm] model Hmodel; [congruence|]. now apply Hin.
      * intros m Hm. apply Hout. intros ?. apply Hm. now right.
Qed.


Lemma Object_assign_get {V} (target source : list (string * V)) (k : string) :
  Obj.get k (Object_assign target source)
  = match Obj.get k source with
    | Some v => Some v
    | None => Obj.get k target
    end.
Proof.
  unfold Object_assign.
  assert (H : forall ks t,
             Obj.get k
               (fold_left
                  (fun t k => match Obj.get k source with
                              | Some v => Obj.set k v t
                              | None => t
                              end) ks t)
             = if Str.includes k ks
               then match Obj.get k source with
                    | Some v => Some v
                    | None => Obj.get k t
                    end
               else Obj.get k t).
  { induction ks as [|x ks IH]; intros t; simpl; auto.
    rewrite IH. destruct (String.eqb_spec k x) as [->|Hne]; simpl.
    - destruct (Obj.get x source) eqn:E.
      + rewrite ObjFacts.get_set_eq. now destruct (Str.includes x ks).
      + now destruct (Str.includes x ks).
    - destruct (Obj.get x source) eqn:E; auto.
      rewrite ObjFacts.get_set_ne by auto. reflexivity. }
  rewrite H. destruct (Str.includes k (Obj.keys source)) eqn:E; auto.
  destruct (Obj.get k source) eqn:Eg; auto.
  apply ObjFacts.get_Some_In, includes_In in Eg. congruence.
Qed.

Lemma Object_assign_NoDup {V} (target source : list (string * V)) :
  List.NoDup (Obj.keys target) ->
  List.NoDup (Obj.keys (Object_assign target source)).
Proof.
  intros H. unfold Object_assign. apply fold_left_inv; auto.
  intros t k _ Ht. destruct (Obj.get k source); auto.
  now apply ObjFacts.NoDup_keys_set.
Qed.

Lemma get_map_value {V W} (g : V -> W) (o : list (string * V)) (k : string) :
  Obj.get k (map (fun kv => (fst kv, g (snd kv))) o)
  = option_map g (Obj.get k o).
Proof.
  induction o as [|[k' v] o IH]; simpl; auto.
  destruct (String.eqb k k'); auto.
Qed.

(** What [allocSchema] sets up: the entry of a package name refers to
    the store cell holding that package, and distinct names refer to
    distinct cells. *)
Lemma alloc_get (seg : schema) (n0 : nat) (p : string) (pkg : packageObj) :
  Obj.get p seg = Some pkg ->
  exists i,
    Obj.get p (imap (fun j kv => (fst kv, PackageRef (n0 + j))) seg)
    = Some (PackageRef (n0 + i))
    /\ map snd seg !! i = Some pkg.
Proof.
  revert n0. induction seg as [|[k v] seg IH]; intros n0; simpl; [discriminate|].
  destruct (String.eqb_spec p k) as [->|Hne].
  - intros [= <-]. exists O. simpl. auto.
  - intros H. destruct (IH (S n0) H) as (i & Hi & Hst). exists (S i).
    simpl. split; auto.
    replace (n0 + S i)%nat with (S n0 + i)%nat by lia.
    rewrite <- Hi. f_equal.
    apply imap_ext. intros j x _. simpl. now rewrite Nat.add_succ_r.
Qed.

Lemma alloc_ref (seg : schema) (n0 : nat) (p : string) (l : loc) :
  Obj.get p (imap (fun j kv => (fst kv, PackageRef (n0 + j))) seg)
  = Some (PackageRef l) ->
  exists i, l = (n0 + i)%nat /\ Obj.keys seg !! i = Some p.
Proof.
  revert n0. induction seg as [|[k v] seg IH]; intros n0; simpl; [discriminate|].
  destruct (String.eqb_spec p k) as [->|Hne].
  - intros [= <-]. exists O. auto.
  - intros H.
    assert (H' : Obj.get p
                   (imap (fun j kv => (fst kv, PackageRef (S n0 + j))) seg)
                 = Some (PackageRef l)).
    { rewrite <- H. f_equal. apply imap_ext. intros j x _. simpl.
      now rewrite Nat.add_succ_r. }
    destruct (IH (S n0) H') as (i & -> & Hi). exists (S i).
    split; [lia | exact Hi].
Qed.

Lemma processRoutes_loop (routesData : topObj) (ks : list string)
    (st st' : store) (reorganized reorganized' : list (string * routePackage)) :
  List.NoDup ks ->
  (forall n n' l, Obj.get n routesData = Some (PackageRef l) ->
                  Obj.get n' routesData = Some (PackageRef l) -> n = n') ->
  forEachM
    (fun (acc : store * list (string * routePackage)) packageName =>
       let '(st, reorganized) := acc in
       if inherited packageName then Throw Unsupported
       else
         match Obj.get packageName routesData with
         | None => Ok (st, reorganized)
         | Some (Routes _) => Throw Unsupported
         | Some (PackageRef l) =>
             match st !! l with
             | None => Throw Unsupported
             | Some packageData =>
                 r <-- routesOfPackage packageData ;;
                 let '(packageData', routes) := r in
                 Ok (<[l := packageData']> st,
                     Obj.set packageName routes reorganized)
             end
         end)
    ks (st, reorganized) = Ok (st', reorganized') ->
  (forall n, In n ks -> forall l pkg,
     Obj.get n routesData = Some (PackageRef l) -> st !! l = Some pkg ->
     exists pd' rp,
       routesOfPackage pkg = Ok (pd', rp)
       /\ Obj.get n reorganized' = Some rp
       /\ st' !! l = Some pd')
  /\ (forall n, ~ In n ks -> Obj.get n reorganized' = Obj.get n reorganized)
  /\ (forall n l, ~ In n ks -> Obj.get n routesData = Some (PackageRef l) ->
                  st' !! l = st !! l).
Proof.
  intros Hnd Hinj. revert st reorganized Hnd.
  induction ks as [|x ks IH]; intros st reorganized Hnd H; simpl in H.
  - injection H as <- <-. split; [intros n [] | auto].
  - apply List.NoDup_cons_iff in Hnd as [Hx Hnd].
    apply rbind_Ok in H as ([st1 re1] & Hstep & H).
    destruct (IH st1 re1 Hnd H) as (Hin & Hre & Hst).
    destruct (inherited x); [discriminate|].
    destruct (Obj.get x routesData) as [[lx|r]|] eqn:Ex; [|discriminate|].
    + destruct (st !! lx) as [pkgx|] eqn:Elx; [|discriminate].
      apply rbind_Ok in Hstep as ([pdx rpx] & Hr & [= <- <-]).
      assert (Hlt : (lx < length st)%nat) by (eapply lookup_lt_Some; eauto).
      split; [|split].
      * intros n [<-|Hn] l pkg Hl Hpkg.
        -- rewrite Ex in Hl. injection Hl as <-.
           rewrite Elx in Hpkg. injection Hpkg as <-.
           exists pdx, rpx. split; auto. split.
           ++ rewrite Hre by auto. apply ObjFacts.get_set_eq.
           ++ rewrite (Hst x lx Hx Ex). now apply list_lookup_insert_eq.
        -- apply (Hin n Hn l pkg Hl).
           rewrite list_lookup_insert_ne; auto.
           intros <-. apply Hx. now rewrite (Hinj x n lx Ex Hl).
      * intros n Hn. rewrite Hre by (intros ?; apply Hn; now right).
        apply ObjFacts.get_set_ne. intros ->. apply Hn. now left.
      * intros n l Hn Hl. rewrite (Hst n l) by (auto; intros ?; apply Hn; now right).
        apply list_lookup_insert_ne. intros <-. apply Hn. left.
        exact (Hinj x n lx Ex Hl).
    + injection Hstep as <- <-. split; [|split].
      * intros n [<-|Hn] l pkg Hl Hpkg; [congruence|]. now apply (Hin n Hn l pkg).
      * intros n Hn. apply Hre. intros ?. apply Hn. now right.
      * intros n l Hn Hl. apply (Hst n l); auto. intros ?. apply Hn. now right.
Qed.

(** ** Every extracted schema is well formed *)

Lemma primitiveSchema_wellFormed (md : schema) :
  primitiveSchema md -> wellFormedSchema md.
Proof.
  intros [Hnd H]. split; auto. intros p pkg Hp.
  destruct (H p pkg Hp) as [Hndp Hp']. split; auto.
  intros m model Hm. destruct (Hp' m model Hm) as [Hndm Hm']. split; auto.
  intros f props o Hf Hapi. specialize (Hm' f props Hf).
  unfold apiPrimitive in Hm'. rewrite Hapi in Hm'. discriminate.
Qed.

Lemma get_set_cases {V} (k k0 : string) (v v0 : V) (o : list (string * V)) :
  Obj.get k (Obj.set k0 v0 o) = Some v ->
  (k = k0 /\ v = v0) \/ (k <> k0 /\ Obj.get k o = Some v).
Proof.
  destruct (string_dec k0 k) as [->|Hne].
  - rewrite ObjFacts.get_set_eq. intros [= <-]. now left.
  - rewrite ObjFacts.get_set_ne by auto. intros H. right. split; auto.
Qed.

Lemma primitiveModel_set (model : modelObj) (f : string) (props : fieldObj) :
  primitiveModel model -> apiPrimitive props ->
  primitiveModel (Obj.set f props model).
Proof.
  intros [Hnd H] Hp. split; [now apply ObjFacts.NoDup_keys_set|].
  intros f' props' Hget.
  apply get_set_cases in Hget as [[_ ->]|[_ Hget]]; eauto.
Qed.

Lemma primitivePackage_set (pkg : packageObj) (m : string) (model : modelObj) :
  primitivePackage pkg -> primitiveModel model ->
  primitivePackage (Obj.set m model pkg).
Proof.
  intros [Hnd H] Hm. split; [now apply ObjFacts.NoDup_keys_set|].
  intros m' model' Hget.
  apply get_set_cases in Hget as [[_ ->]|[_ Hget]]; eauto.
Qed.

Lemma primitiveSchema_set (md : schema) (p : string) (pkg : packageObj) :
  primitiveSchema md -> primitivePackage pkg ->
  primitiveSchema (Obj.set p pkg md).
Proof.
  intros [Hnd H] Hp. split; [now apply ObjFacts.NoDup_keys_set|].
  intros p' pkg' Hget.
  apply get_set_cases in Hget as [[_ ->]|[_ Hget]]; eauto.
Qed.

Lemma primitiveModel_nil : primitiveModel [].
Proof. split; [constructor | discriminate]. Qed.

Lemma primitivePackage_nil : primitivePackage [].
Proof. split; [constructor | discriminate]. Qed.

Lemma apiPrimitive_del_Model (item : row) :
  apiPrimitive item -> apiPrimitive (Obj.del "Model" item).
Proof.
  unfold apiPrimitive, getv. now rewrite ObjFacts.get_del_ne by discriminate.
Qed.

Lemma storeItem_primitive (key field : string) (item : row)
    (container container' : list (string * modelObj)) :
  storeItem key field item container = Ok container' ->
  apiPrimitive item ->
  forall n partial f props,
    (forall n partial f props,
        Obj.get n container = Some partial -> Obj.get f partial = Some props ->
        apiPrimitive props) ->
    Obj.get n container' = Some partial -> Obj.get f partial = Some props ->
    apiPrimitive props.
Proof.
  unfold storeItem. destruct (Obj.get key container) as [fields0|] eqn:E;
    [|discriminate].
  intros H Hitem n partial f props Hall Hn Hf.
  apply rbind_Ok in H as (fields' & Hset & [= <-]).
  apply setProp_Ok in Hset as [-> _].
  apply get_set_cases in Hn as [[_ ->]|[_ Hn]]; [|eauto].
  apply get_set_cases in Hf as [[_ ->]|[_ Hf]]; eauto.
Qed.

Lemma extractRow_primitive (sheetName : string) (st st' : extraction)
    (item : row) :
  apiPrimitive item ->
  primitiveSchema (modelsData st) /\ primitivePartials (partials st) ->
  extractRow sheetName st item = Ok st' ->
  primitiveSchema (modelsData st') /\ primitivePartials (partials st').
Proof.
  intros Hitem [Hmd Hps] H. unfold extractRow, extractRowWith in H.
  apply rbind_Ok in H as (st1 & H1 & H).
  assert (Hst1 : primitiveSchema (modelsData st1)
                 /\ primitivePartials (partials st1)).
  { destruct (truthy (getv "Model" item)); [|injection H1 as <-; auto].
    apply rbind_Ok in H1 as (key & _ & H1).
    destruct (String.eqb sheetName "partials").
    - apply rbind_Ok in H1 as (ps' & Hset & [= <-]). simpl.
      apply setProp_Ok in Hset as [-> _]. split; auto.
      intros n partial f props Hn Hf.
      apply get_set_cases in Hn as [[_ ->]|[_ Hn]]; [discriminate|eauto].
    - apply rbind_Ok in H1 as (pkg & Hpkg & H1).
      apply rbind_Ok in H1 as (pkg' & Hset & [= <-]). simpl.
      apply setProp_Ok in Hset as [-> _]. split; auto.
      apply primitiveSchema_set; auto.
      apply primitivePackage_set; [|apply primitiveModel_nil].
      destruct (Obj.get sheetName (modelsData st)) as [pkg0|] eqn:E.
      + injection Hpkg as <-. destruct Hmd as [_ Hmd]. eauto.
      + destruct (inherited sheetName); [discriminate|].
        injection Hpkg as <-. apply primitivePackage_nil. }
  clear H1 Hmd Hps. destruct Hst1 as [Hmd Hps].
  pose proof (apiPrimitive_del_Model item Hitem) as Hitem'.
  destruct (String.eqb sheetName "partials").
  - apply rbind_Ok in H as (field & _ & H).
    apply rbind_Ok in H as (ps' & Hstore & [= <-]). simpl. split; auto.
    intros n partial f props. eapply storeItem_primitive; eauto.
  - destruct (Obj.get sheetName (modelsData st1)) as [pkg|] eqn:E;
      [|discriminate].
    apply rbind_Ok in H as (field & _ & H).
    apply rbind_Ok in H as (pkg' & Hstore & [= <-]). simpl. split; auto.
    apply primitiveSchema_set; auto.
    destruct Hmd as [_ Hmd]. destruct (Hmd _ _ E) as [Hndp Hp].
    unfold storeItem in Hstore.
    destruct (Obj.get (modelKey st1) pkg) as [fields0|] eqn:Ef; [|discriminate].
    apply rbind_Ok in Hstore as (fields' & Hset & [= <-]).
    apply setProp_Ok in Hset as [-> _].
    apply primitivePackage_set; [split; auto|].
    apply primitiveModel_set; eauto.
Qed.

Lemma extraction_primitive (wb : workbook) (md : schema)
    (ps : list (string * modelObj)) :
  primitiveWorkbook wb ->
  getModelsDataAndPartialsFromWorkbook wb = Ok (md, ps) ->
  primitiveSchema md /\ primitivePartials ps.
Proof.
  intros Hwb H. unfold getModelsDataAndPartialsFromWorkbook in H.
  apply rbind_Ok in H as (st & Hloop & [= <- <-]).
  apply (forEachM_inv
           (fun st => primitiveSchema (modelsData st)
                      /\ primitivePartials (partials st))
           _ _ _ _) in Hloop; auto.
  - intros s sheetName s' _ Hs Hsheet. unfold extractSheet in Hsheet.
    apply (forEachM_inv
             (fun st => primitiveSchema (modelsData st)
                        /\ primitivePartials (partials st))
             _ _ _ _) in Hsheet; auto.
    intros s1 item s2 Hin Hs1 Hrow.
    eapply extractRow_primitive; eauto.
  - simpl. split; [split; [constructor | discriminate]|].
    intros n partial f props Hn. discriminate.
Qed.

Lemma fillModel_primitive (ps : list (string * modelObj))
    (model ret : modelObj) :
  primitivePartials ps -> primitiveModel model ->
  fillModel ps model = Ok ret -> primitiveModel ret.
Proof.
  intros Hps [_ Hmodel] H. unfold fillModel in H.
  apply (forEachM_inv primitiveModel _ _ _ _) in H; auto;
    [|apply primitiveModel_nil].
  intros retModel key ret' _ Hret Hstep. unfold fillField in Hstep.
  destruct (Obj.get key model) as [field|] eqn:E; [|now injection Hstep as <-].
  destruct (negb (String.prefix "partials." key)).
  - apply setProp_Ok in Hstep as [-> _]. apply primitiveModel_set; eauto.
  - apply rbind_Ok in Hstep as (partialsData & Hpd & Hstep).
    assert (Hprim : forall f props, Obj.get f partialsData = Some props ->
                                    apiPrimitive props).
    { unfold partialFields in Hpd.
      destruct (Obj.get _ ps) as [pd|] eqn:Eps.
      - injection Hpd as <-. intros f props. eapply Hps; eauto.
      - destruct (inherited _); [|discriminate].
        injection Hpd as <-. discriminate. }
    apply (forEachM_inv primitiveModel _ _ _ _) in Hstep; auto.
    intros r partialKey r' _ Hr Hs.
    destruct (Obj.get partialKey partialsData) as [f|] eqn:Ef;
      [|now injection Hs as <-].
    apply setProp_Ok in Hs as [-> _]. apply primitiveModel_set; eauto.
Qed.

Lemma forInUpdate_preserves {V} (P Q : V -> Prop) (f : V -> result V)
    (o o' : list (string * V)) :
  (forall v v', P v -> f v = Ok v' -> Q v') ->
  List.NoDup (Obj.keys o) ->
  (forall k v, Obj.get k o = Some v -> P v) ->
  forInUpdate f o = Ok o' ->
  List.NoDup (Obj.keys o') /\ forall k v', Obj.get k o' = Some v' -> Q v'.
Proof.
  intros Hf Hnd HP H.
  destruct (forInUpdate_spec f o o' Hnd H) as [Hkeys Hget].
  split; [now rewrite Hkeys|].
  intros k v' Hk. destruct (Hget k v' Hk) as (v & Hv & Hfv). eauto.
Qed.

Lemma fillPartials_primitive (md resolved : schema)
    (ps : list (string * modelObj)) :
  primitivePartials ps -> primitiveSchema md ->
  fillPartials md ps = Ok resolved -> primitiveSchema resolved.
Proof.
  intros Hps [Hnd Hmd] H. unfold fillPartials in H.
  apply (forInUpdate_preserves primitivePackage primitivePackage) in H; auto.
  intros pkg pkg' [Hndp Hp] Hpkg.
  apply (forInUpdate_preserves primitiveModel primitiveModel) in Hpkg; auto.
  intros model model'. now apply fillModel_primitive.
Qed.

Lemma replaceTypeOfField_primitive (types : list (string * value))
    (field field' : fieldObj) :
  apiPrimitive field -> replaceTypeOfField types field = Ok field' ->
  apiPrimitive field'.
Proof.
  intros Hf H. unfold replaceTypeOfField in H.
  destruct (truthy (getv "Type" field)); [|now injection H as <-].
  destruct (getv "Type" field) as [| | |s|]; try discriminate.
  destruct (Obj.get (Str.toLowerCase s) types) as [t|].
  - destruct (truthy t); injection H as <-; auto.
    unfold apiPrimitive. now rewrite getv_set_ne by discriminate.
  - destruct (inherited _); [discriminate | now injection H as <-].
Qed.

Lemma replaceTypes_primitive (types : list (string * value))
    (md typed : schema) :
  primitiveSchema md ->
  replaceWebAppTypesWithModelType types md = Ok typed ->
  primitiveSchema typed.
Proof.
  intros [Hnd Hmd] H. unfold replaceWebAppTypesWithModelType in H.
  apply (forInUpdate_preserves primitivePackage primitivePackage) in H; auto.
  intros pkg pkg' [Hndp Hp] Hpkg.
  apply (forInUpdate_preserves primitiveModel primitiveModel) in Hpkg; auto.
  intros model model' [Hndm Hm] Hmodel.
  apply (forInUpdate_preserves apiPrimitive apiPrimitive) in Hmodel; auto.
  intros field field'. apply replaceTypeOfField_primitive.
Qed.

(** The schema handed to the segregator by [xlsxToJSON] is well formed,
    whatever the workbook. *)
Lemma compiled_schema_wellFormed (types : list (string * value))
    (wb : workbook) (md resolved typed : schema)
    (ps : list (string * modelObj)) :
  primitiveWorkbook wb ->
  getModelsDataAndPartialsFromWorkbook wb = Ok (md, ps) ->
  fillPartials md ps = Ok resolved ->
  replaceWebAppTypesWithModelType types resolved = Ok typed ->
  wellFormedSchema typed.
Proof.
  intros Hwb Hex Hfill Htypes.
  destruct (extraction_primitive wb md ps Hwb Hex) as [Hmd Hps].
  apply primitiveSchema_wellFormed.
  apply (replaceTypes_primitive types resolved typed); auto.
  apply (fillPartials_primitive md resolved ps); auto.
Qed.

(** ** SheetExtractor: what the extraction returns *)

Lemma storeItem_cases (key field : string) (item : row)
    (container container' : list (string * modelObj))
    (n f : string) (fields0 : modelObj) (stored : row) :
  storeItem key field item container = Ok container' ->
  Obj.get n container' = Some fields0 ->
  Obj.get f fields0 = Some stored ->
  (f = field /\ stored = item)
  \/ exists fields1,
       Obj.get n container = Some fields1 /\ Obj.get f fields1 = Some stored.
Proof.
  unfold storeItem. destruct (Obj.get key container) as [old|] eqn:E;
    [|discriminate].
  intros H Hn Hf. apply rbind_Ok in H as (fields' & Hset & [= <-]).
  apply setProp_Ok in Hset as [-> _].
  apply get_set_cases in Hn as [[-> ->]|[_ Hn]]; [|eauto].
  apply get_set_cases in Hf as [[-> ->]|[_ Hf]]; eauto.
Qed.

Lemma extractRow_rowsOnly (wb : workbook) (sheetName : string)
    (st st' : extraction) (item : row) :
  In item (sheet_to_json wb sheetName) ->
  rowsOnly wb st -> extractRow sheetName st item = Ok st' -> rowsOnly wb st'.
Proof.
  intros Hin [Hmd Hps] H. unfold extractRow, extractRowWith in H.
  apply rbind_Ok in H as (st1 & H1 & H).
  assert (Hst1 : rowsOnly wb st1).
  { destruct (truthy (getv "Model" item)); [|injection H1 as <-; split; auto].
    apply rbind_Ok in H1 as (key & _ & H1).
    destruct (String.eqb sheetName "partials").
    - apply rbind_Ok in H1 as (ps' & Hset & [= <-]). simpl.
      apply setProp_Ok in Hset as [-> _]. split; auto. simpl.
      intros n partial f stored Hn Hf.
      apply get_set_cases in Hn as [[_ ->]|[_ Hn]]; [discriminate|eauto].
    - apply rbind_Ok in H1 as (pkg & Hpkg & H1).
      apply rbind_Ok in H1 as (pkg' & Hset & [= <-]). simpl.
      apply setProp_Ok in Hset as [-> _]. split; auto. simpl.
      intros p pkg0 m model f stored Hp Hm Hf.
      apply get_set_cases in Hp as [[-> ->]|[_ Hp]]; [|eauto].
      apply get_set_cases in Hm as [[_ ->]|[_ Hm]]; [discriminate|].
      destruct (Obj.get sheetName (modelsData st)) as [pkg1|] eqn:E.
      + injection Hpkg as <-. eauto.
      + destruct (inherited sheetName); [discriminate|].
        injection Hpkg as <-. discriminate. }
  clear H1 Hmd Hps. destruct Hst1 as [Hmd Hps].
  destruct (String.eqb_spec sheetName "partials") as [Esheet|Esheet].
  - apply rbind_Ok in H as (field & Hfield & H).
    apply rbind_Ok in H as (ps' & Hstore & [= <-]). split; auto. simpl.
    intros n partial f stored Hn Hf.
    destruct (storeItem_cases _ _ _ _ _ _ _ _ _ Hstore Hn Hf)
      as [[-> ->]|(fields1 & Hn1 & Hf1)]; [|eauto].
    exists item. subst sheetName. auto.
  - destruct (Obj.get sheetName (modelsData st1)) as [pkg|] eqn:E;
      [|discriminate].
    apply rbind_Ok in H as (field & Hfield & H).
    apply rbind_Ok in H as (pkg' & Hstore & [= <-]). split; auto. simpl.
    intros p pkg0 m model f stored Hp Hm Hf.
    apply get_set_cases in Hp as [[-> ->]|[_ Hp]]; [|eauto].
    destruct (storeItem_cases _ _ _ _ _ _ _ _ _ Hstore Hm Hf)
      as [[-> ->]|(fields1 & Hn1 & Hf1)]; [|eauto].
    exists item. auto.
Qed.

(** The amended C2 on the result of the extraction: every property map
    of the extracted schema and of the partial bundle is a row of its
    sheet without the [Model] column (and with its [Field] column, when
    the row has one), stored under the row's Field name. *)
Lemma extracted_maps_are_rows (wb : workbook) (md : schema)
    (ps : list (string * modelObj)) :
  getModelsDataAndPartialsFromWorkbook wb = Ok (md, ps) ->
  (forall p pkg m model f stored,
      Obj.get p md = Some pkg -> Obj.get m pkg = Some model ->
      Obj.get f model = Some stored ->
      storedRow wb p f stored /\ ~ In "Model" (Obj.keys stored))
  /\ (forall n partial f stored,
        Obj.get n ps = Some partial -> Obj.get f partial = Some stored ->
        storedRow wb "partials" f stored).
Proof.
  intros H. unfold getModelsDataAndPartialsFromWorkbook in H.
  apply rbind_Ok in H as (st & Hloop & [= <- <-]).
  assert (Hinv : rowsOnly wb st).
  { apply (forEachM_inv (rowsOnly wb) _ _ _ _) in Hloop; auto.
    - intros s sheetName s' _ Hs Hsheet. unfold extractSheet in Hsheet.
      apply (forEachM_inv (rowsOnly wb) _ _ _ _) in Hsheet; auto.
      intros s1 item s2 Hin Hs1 Hrow. eapply extractRow_rowsOnly; eauto.
    - split; simpl; intros; discriminate. }
  destruct Hinv as [Hmd Hps]. split; [|exact Hps].
  intros p pkg m model f stored Hp Hm Hf.
  pose proof (Hmd p pkg m model f stored Hp Hm Hf) as Hrow.
  split; auto. destruct Hrow as (item & _ & _ & ->).
  rewrite ObjFacts.In_keys_del. tauto.
Qed.

(** ** PartialResolver: keys that pass through *)

(** When the resolver completes, a field key that is no partial
    reference is a key of the resolved model. *)
Lemma fillModel_keeps_plain_keys (ps : list (string * modelObj))
    (model ret : modelObj) (key : string) :
  fillModel ps model = Ok ret ->
  In key (Obj.keys model) -> String.prefix "partials." key = false ->
  In key (Obj.keys ret).
Proof.
  unfold fillModel. intros H Hin Hpre.
  assert (Hgrow : forall ks r0 r1,
             forEachM (fillField ps model) ks r0 = Ok r1 ->
             forall k, In k (Obj.keys r0) -> In k (Obj.keys r1)).
  { intros ks r0 r1 Hloop k Hk.
    apply (forEachM_inv (fun r => In k (Obj.keys r)) _ _ _ _) in Hloop; auto.
    intros r x r' _ Hr Hstep. unfold fillField in Hstep.
    destruct (Obj.get x model); [|now injection Hstep as <-].
    destruct (negb (String.prefix "partials." x)).
    - apply setProp_Ok in Hstep as [-> _]. apply ObjFacts.In_keys_set. auto.
    - apply rbind_Ok in Hstep as (pd & _ & Hstep).
      apply (forEachM_inv (fun r => In k (Obj.keys r)) _ _ _ _) in Hstep; auto.
      intros r2 pk r3 _ Hr2 Hs. destruct (Obj.get pk pd); [|now injection Hs as <-].
      apply setProp_Ok in Hs as [-> _]. apply ObjFacts.In_keys_set. auto. }
  assert (Hloop : forall ks r0 r1,
             forEachM (fillField ps model) ks r0 = Ok r1 ->
             In key ks -> In key (Obj.keys r1)).
  { induction ks as [|x ks IH]; intros r0 r1 Hl Hk; [destruct Hk|].
    simpl in Hl. apply rbind_Ok in Hl as (r2 & Hstep & Hl).
    destruct Hk as [->|Hk]; [|eauto].
    apply (Hgrow _ _ _ Hl). unfold fillField in Hstep.
    destruct (Obj.get key model) as [field|] eqn:E.
    - rewrite Hpre in Hstep. simpl in Hstep.
      apply setProp_Ok in Hstep as [-> _]. apply ObjFacts.In_keys_set. auto.
    - exfalso. apply ObjFacts.get_None_notin in E. contradiction. }
  eapply Hloop; eauto.
Qed.

(** ** RouteProjector: the route schema *)

Lemma nodupb_NoDup (l : list string) : nodupb l = true -> List.NoDup l.
Proof.
  induction l as [|x l IH]; simpl; intros H; [constructor|].
  apply andb_true_iff in H as [Hx Hl]. constructor; auto.
  intros Hin. apply includes_In in Hin. rewrite Hin in Hx. discriminate.
Qed.

Lemma get_Some_In_pair {V} (k : string) (v : V) (o : list (string * V)) :
  Obj.get k o = Some v -> In (k, v) o.
Proof.
  induction o as [|[k' v'] o IH]; simpl; [discriminate|].
  destruct (String.eqb_spec k k') as [->|]; [intros [= ->]; now left | auto].
Qed.

Lemma checkModel_sound (model : modelObj) :
  checkModel model = true -> wellFormedModel model.
Proof.
  unfold checkModel. intros H. apply andb_true_iff in H as [Hnd Hall].
  split; [now apply nodupb_NoDup|].
  intros f props o Hget Hapi a Ha.
  rewrite forallb_forall in Hall.
  specialize (Hall _ (get_Some_In_pair _ _ _ Hget)). simpl in Hall.
  unfold checkField in Hall. rewrite Hapi in Hall.
  rewrite forallb_forall in Hall. now apply includes_In, Hall.
Qed.

Lemma checkSchema_sound (md : schema) :
  checkSchema md = true -> wellFormedSchema md.
Proof.
  unfold checkSchema. intros H. apply andb_true_iff in H as [Hnd Hall].
  split; [now apply nodupb_NoDup|].
  intros p pkg Hp. rewrite forallb_forall in Hall.
  specialize (Hall _ (get_Some_In_pair _ _ _ Hp)). simpl in Hall.
  apply andb_true_iff in Hall as [Hndp Hallp].
  split; [now apply nodupb_NoDup|].
  intros m model Hm. rewrite forallb_forall in Hallp.
  apply checkModel_sound.
  exact (Hallp _ (get_Some_In_pair _ _ _ Hm)).
Qed.



(** ** The documents written by [xlsxToJSON] *)

(** The stripping is systematic: whatever the segregated schema, after
    the route projection every field left in a package object of the
    store, hence in the document written from [modelsData], has no
    property but [api]. *)
Lemma routesOfModel_strips (model model' : modelObj) (entry : routeModel) :
  List.NoDup (Obj.keys model) ->
  routesOfModel model = Ok (model', entry) ->
  forall f props', Obj.get f model' = Some props' ->
    forall k, In k (Obj.keys props') -> k = "api".
Proof.
  intros Hnd H f props' Hf k Hk. unfold routesOfModel in H.
  apply rbind_Ok in H as (entry0 & _ & [= <- <-]).
  destruct (stripFields_spec (Obj.keys model) model Hnd) as [Hin Hout].
  destruct (Obj.get f model) as [props|] eqn:E.
  - rewrite (Hin f (ObjFacts.get_Some_In _ _ _ E) props E) in Hf.
    destruct (Obj.get "api" props); [|discriminate].
    injection Hf as <-. eapply stripProps_only_api; eauto.
  - rewrite Hout in Hf by (now apply ObjFacts.get_None_notin). congruence.
Qed.

Lemma models_document_fields_keep_only_api
    (seg : schema) (st st' : store) (top routes : topObj) :
  wellFormedSchema seg ->
  allocSchema seg = (st, top) ->
  processRoutesDataFromModelsData st (Object_assign [] top) = Ok (st', routes) ->
  forall p pkg' m model' f props',
    Obj.get p (stringify st' top) = Some (DocPackage pkg') ->
    Obj.get m pkg' = Some model' ->
    Obj.get f model' = Some props' ->
    forall k, In k (Obj.keys props') -> k = "api".
Proof.
  intros [Hnd Hwf] Halloc Hroutes p pkg' m model' f props' Hp Hm Hf.
  unfold allocSchema in Halloc. injection Halloc as <- <-.
  set (top := imap (fun i kv => (fst kv, PackageRef i)) seg) in *.
  set (rd := Object_assign [] top) in *.
  assert (Hrd : forall n, Obj.get n rd = Obj.get n top).
  { intros n. unfold rd. rewrite Object_assign_get.
    now destruct (Obj.get n top). }
  unfold stringify in Hp.
  rewrite (get_map_value
             (fun v => match v with
                       | PackageRef l => DocPackage (default [] (st' !! l))
                       | Routes r => DocRoutes r
                       end)) in Hp.
  destruct (Obj.get p top) as [[l|r]|] eqn:Ep; simpl in Hp; try discriminate.
  injection Hp as <-.
  pose proof Ep as Href. apply (alloc_ref seg 0) in Href as (i & -> & Hi).
  change (0 + i)%nat with i in *.
  assert (Hpkg : exists pkg, Obj.get p seg = Some pkg).
  { apply ObjFacts.In_keys_get. eapply list_elem_of_In, list_elem_of_lookup_2.
    exact Hi. }
  destruct Hpkg as (pkg & Hpkg).
  destruct (alloc_get seg 0 p pkg Hpkg) as (j & Hj & Hst).
  simpl in Hj. fold top in Hj. rewrite Ep in Hj. injection Hj as <-.
  destruct (Hwf p pkg Hpkg) as [Hndp Hwfp].
  unfold processRoutesDataFromModelsData in Hroutes.
  apply rbind_Ok in Hroutes as ([st1 reorganized] & Hloop & [= <- <-]).
  assert (Hinj : forall n n' l,
             Obj.get n rd = Some (PackageRef l) ->
             Obj.get n' rd = Some (PackageRef l) -> n = n').
  { intros n n' l Hn Hn'. rewrite Hrd in Hn, Hn'.
    apply (alloc_ref seg 0) in Hn as (a & -> & Ha).
    apply (alloc_ref seg 0) in Hn' as (b & E & Hb).
    simpl in E. subst b. congruence. }
  assert (Hndrd : List.NoDup (Obj.keys rd))
    by (apply Object_assign_NoDup; constructor).
  destruct (processRoutes_loop rd _ _ _ _ _ Hndrd Hinj Hloop) as (Hin & _ & _).
  assert (Hprd : Obj.get p rd = Some (PackageRef i)) by now rewrite Hrd.
  destruct (Hin p (ObjFacts.get_Some_In _ _ _ Hprd) i pkg Hprd Hst)
    as (pd' & rp & Hrp & _ & Hst').
  assert (Hm' : Obj.get m pd' = Some model').
  { rewrite <- Hm. f_equal. unfold packageObj in *. now rewrite Hst'. }
  clear Hm. rename Hm' into Hm.
  unfold routesOfPackage in Hrp.
  destruct (routesOfPackage_loop _ _ _ _ _ Hndp Hrp) as [Hmin Hmout].
  destruct (Obj.get m pkg) as [model|] eqn:Emodel.
  - destruct (Hmin m (ObjFacts.get_Some_In _ _ _ Emodel) model Emodel)
      as (model0 & entry & Hrm & _ & Hget).
    rewrite Hget in Hm. injection Hm as <-.
    destruct (Hwfp m model Emodel) as [Hndm _].
    eapply routesOfModel_strips; eauto.
  - destruct (Hmout m) as [_ E]; [now apply ObjFacts.get_None_notin|].
    congruence.
Qed.

(** C1 on the code: for the workbook of the end-to-end example the
    segregated schema has the three fields [id], [name] and [createdAt]
    with their properties, but the document written as [models.json]
    holds the field [name] alone, mapped to nothing but its [api] object:
    deriving the route schema from the shallow copy has stripped the
    shared package object. *)
Theorem xlsxToJSON_strips_models_document :
  (exists md ps resolved typed,
      getModelsDataAndPartialsFromWorkbook usersWorkbook = Ok (md, ps)
      /\ fillPartials md ps = Ok resolved
      /\ replaceWebAppTypesWithModelType exampleTypes resolved = Ok typed
      /\ typed = typedUsers
      /\ segregateAPISections typed = Ok segregatedUsers)
  /\ xlsxToJSON exampleTypes usersWorkbook
     = Ok ([("users", DocPackage [("User", strippedUser)])],
           [("users", DocRoutes [("User", userRoutes)])])
  /\ Obj.keys segregatedUser = ["id"; "name"; "createdAt"]
  /\ Obj.keys strippedUser = ["name"]
  /\ Obj.get "name" strippedUser = Some [("api", nameApi)].
Proof.
  split; [do 4 eexists; repeat split; reflexivity|].
  repeat split; reflexivity.
Qed.

(** * Further properties *)

(** ** HierarchySorter: permutation, parents of placed models, roots *)

Lemma sortModelsByHierarchy_members
    (allModelStrs : list string) (hierarchy : list (string * list string))
    (m : string) :
  In m (sortModelsByHierarchy allModelStrs hierarchy) <-> In m allModelStrs.
Proof.
  split; [|apply appendRest_complete].
  unfold sortModelsByHierarchy.
  set (seed := seedParents allModelStrs hierarchy).
  destruct (passes_extends allModelStrs hierarchy seed) as (placed & Hp & Hc1 & _).
  assert (Hrest : extendsWithChildren allModelStrs hierarchy
                    (passes allModelStrs hierarchy seed)
                    (appendRest allModelStrs (passes allModelStrs hierarchy seed))).
  { apply appendRest_extends; [|apply extends_refl].
    intros x Hin Hch. rewrite Hp. apply in_app_iff. left.
    unfold seed. rewrite seedParents_filter. apply filter_In.
    split; auto. now rewrite Hch. }
  destruct Hrest as (rest & -> & Hc2 & _). rewrite Hp.
  rewrite !in_app_iff. intros [[Hs|Hpl]|Hr].
  - unfold seed in Hs. rewrite seedParents_filter in Hs.
    now apply filter_In in Hs.
  - now apply Hc1.
  - now apply Hc2.
Qed.

Lemma sortModelsByHierarchy_NoDup
    (allModelStrs : list string) (hierarchy : list (string * list string)) :
  List.NoDup allModelStrs ->
  List.NoDup (sortModelsByHierarchy allModelStrs hierarchy).
Proof.
  intros Hnd. unfold sortModelsByHierarchy.
  set (seed := seedParents allModelStrs hierarchy).
  destruct (passes_extends allModelStrs hierarchy seed) as (placed & Hp & _ & Hnd1).
  assert (Hrest : extendsWithChildren allModelStrs hierarchy
                    (passes allModelStrs hierarchy seed)
                    (appendRest allModelStrs (passes allModelStrs hierarchy seed))).
  { apply appendRest_extends; [|apply extends_refl].
    intros x Hin Hch. rewrite Hp. apply in_app_iff. left.
    unfold seed. rewrite seedParents_filter. apply filter_In.
    split; auto. now rewrite Hch. }
  destruct Hrest as (rest & _ & _ & Hnd2). apply Hnd2, Hnd1.
  unfold seed. rewrite seedParents_filter. now apply List.NoDup_filter.
Qed.

(** X1. on a list without duplicates the sorter only reorders: its output
    is a permutation of its input. *)
Theorem sortModelsByHierarchy_permutation
    (allModelStrs : list string) (hierarchy : list (string * list string)) :
  List.NoDup allModelStrs ->
  Permutation allModelStrs (sortModelsByHierarchy allModelStrs hierarchy).
Proof.
  intros Hnd. apply Stdlib.Sorting.Permutation.NoDup_Permutation.
  - exact Hnd.
  - now apply sortModelsByHierarchy_NoDup.
  - intros m. symmetry. apply sortModelsByHierarchy_members.
Qed.

Lemma sortModelsByHierarchy_permutation_witness :
  List.NoDup teamModels
  /\ Permutation teamModels (sortModelsByHierarchy teamModels teamHierarchy).
Proof.
  split; [apply nodupb_NoDup; reflexivity|].
  apply (sortModelsByHierarchy_permutation teamModels teamHierarchy).
  apply nodupb_NoDup; reflexivity.
Defined.

Lemma app_snoc_cases {A} (s pre post : list A) (x m : A) :
  s ++ [x] = pre ++ m :: post ->
  (post = [] /\ pre = s /\ m = x)
  \/ exists post', post = post' ++ [x] /\ s = pre ++ m :: post'.
Proof.
  destruct (exists_last (l := m :: post)) as (l' & y & E); [discriminate|].
  intros H. rewrite E in H. rewrite app_assoc in H.
  apply app_inj_tail in H as [Hs ->].
  destruct post as [|p post].
  - left. destruct l' as [|? [|? ?]]; simpl in E; try discriminate.
    injection E as ->. rewrite app_nil_r in Hs. auto.
  - right. destruct (exists_last (l := p :: post)) as (q & z & Eq); [discriminate|].
    rewrite Eq in E. rewrite app_comm_cons in E.
    apply app_inj_tail in E as [El ->]. exists q. subst l'. auto.
Qed.

(** X2. every model the passes append has exactly one recorded parent,
    and the model string of that parent stands before it in the list. *)
Theorem passes_place_children_after_parent
    (allModelStrs : list string) (hierarchy : list (string * list string))
    (pre post : list string) (m : string) :
  passes allModelStrs hierarchy (seedParents allModelStrs hierarchy)
  = pre ++ m :: post ->
  (length (seedParents allModelStrs hierarchy) <= length pre)%nat ->
  fst (countParents hierarchy m) = 1%nat
  /\ In (Str.replaceFirst "." "Models." (snd (countParents hierarchy m))) pre.
Proof.
  set (seed := seedParents allModelStrs hierarchy).
  set (I := fun s : list string =>
              (length seed <= length s)%nat
              /\ forall pre m post,
                   s = pre ++ m :: post -> (length seed <= length pre)%nat ->
                   fst (countParents hierarchy m) = 1%nat
                   /\ In (Str.replaceFirst "." "Models."
                            (snd (countParents hierarchy m))) pre).
  assert (HI : I (passes allModelStrs hierarchy seed)).
  { unfold passes. apply fold_left_inv.
    - intros s i _ Hs. unfold pass. apply fold_left_inv; auto.
      intros s' x _ [Hlen Hs']. unfold placeChild.
      destruct (countParents hierarchy x) as [n parent] eqn:Ec.
      destruct (Nat.eqb_spec n 1) as [->|]; [|split; auto].
      destruct (Str.includes _ s') eqn:Einc; [|split; auto].
      destruct (Str.includes x s'); simpl; [split; auto|].
      split; [rewrite length_app; lia|].
      intros pre0 m0 post0 E Hpre.
      apply app_snoc_cases in E as [(-> & -> & ->)|(post' & -> & ->)].
      + rewrite Ec. simpl. split; auto. now apply includes_In.
      + eapply Hs'; eauto.
    - split; [lia|]. intros pre0 m0 post0 E Hpre.
      apply (f_equal (@length string)) in E.
      rewrite length_app in E. simpl in E. lia. }
  intros E Hlen. destruct HI as [_ HI]. eapply HI; eauto.
Qed.

Lemma passes_place_children_after_parent_witness :
  (passes teamModels teamHierarchy (seedParents teamModels teamHierarchy)
   = ["orgsModels.Org"] ++ "orgsModels.Team" :: []
   /\ (length (seedParents teamModels teamHierarchy)
       <= length ["orgsModels.Org"])%nat)
  /\ fst (countParents teamHierarchy "orgsModels.Team") = 1%nat
  /\ In (Str.replaceFirst "." "Models."
           (snd (countParents teamHierarchy "orgsModels.Team")))
        ["orgsModels.Org"].
Proof.
  split; [split; [reflexivity | simpl; lia]|].
  apply (passes_place_children_after_parent teamModels teamHierarchy
           ["orgsModels.Org"] [] "orgsModels.Team");
    [reflexivity | simpl; lia].
Defined.

Lemma appendRest_present (allModelStrs sorted : list string) :
  (forall m, In m allModelStrs -> In m sorted) ->
  appendRest allModelStrs sorted = sorted.
Proof.
  unfold appendRest. revert sorted.
  induction allModelStrs as [|x l IH]; intros sorted H; simpl; auto.
  assert (Hx : Str.includes x sorted = true)
    by (apply includes_In, H; now left).
  rewrite Hx. simpl. apply IH. intros m Hm. apply H. now right.
Qed.

(** X3. a list of models none of which is listed as a child comes back
    unchanged, duplicates included; in particular with an empty table. *)
Theorem sortModelsByHierarchy_roots_unchanged
    (allModelStrs : list string) (hierarchy : list (string * list string)) :
  (forall m, In m allModelStrs -> isChild hierarchy m = false) ->
  sortModelsByHierarchy allModelStrs hierarchy = allModelStrs.
Proof.
  intros Hroots. unfold sortModelsByHierarchy.
  assert (Hseed : seedParents allModelStrs hierarchy = allModelStrs).
  { rewrite seedParents_filter. apply forallb_filter_id.
    apply forallb_forall. intros m Hm. now rewrite (Hroots m Hm). }
  rewrite Hseed.
  assert (Hpass : passes allModelStrs hierarchy allModelStrs = allModelStrs).
  { unfold passes.
    apply (fold_left_inv (fun s => s = allModelStrs)); auto.
    intros s i _ ->. unfold pass.
    apply (fold_left_inv (fun s => s = allModelStrs)); auto.
    intros s m Hm ->. unfold placeChild.
    destruct (countParents hierarchy m) as [n parent] eqn:Ec.
    destruct (Nat.eqb_spec n 1) as [->|]; auto.
    pose proof (countParents_positive hierarchy m) as Hpos.
    rewrite Ec in Hpos. simpl in Hpos.
    rewrite (Hroots m Hm) in Hpos. discriminate Hpos. lia. }
  rewrite Hpass. now apply appendRest_present.
Qed.

Lemma sortModelsByHierarchy_roots_unchanged_witness :
  (forall m, In m ["usersModels.User"; "usersModels.User"] ->
             isChild [] m = false)
  /\ sortModelsByHierarchy ["usersModels.User"; "usersModels.User"] []
     = ["usersModels.User"; "usersModels.User"].
Proof.
  split; [reflexivity|].
  apply (sortModelsByHierarchy_roots_unchanged
           ["usersModels.User"; "usersModels.User"] []).
  reflexivity.
Defined.


(** ** SchemaExtractor: rows before a model, repeated models, packages *)

(** X4. when the first row of the first model sheet (other than
    [partials]) has a [Model] cell that is not truthy, such as the number
    0, the extraction throws a TypeError: no package entry exists yet for
    the row to be stored in. *)
Theorem extraction_throws_on_row_before_any_model
    (wb : workbook) (sheetName : string) (others : list string)
    (item : row) (rows : list row) :
  getSheetsHavingModels wb = sheetName :: others ->
  sheet_to_json wb sheetName = item :: rows ->
  String.eqb sheetName "partials" = false ->
  inherited sheetName = false ->
  truthy (getv "Model" item) = false ->
  getModelsDataAndPartialsFromWorkbook wb = Throw TypeError.
Proof.
  intros Hsheets Hrows Hp Hinh Hm.
  unfold getModelsDataAndPartialsFromWorkbook. rewrite Hsheets. simpl.
  unfold extractSheet at 1. rewrite Hrows. simpl.
  unfold extractRow, extractRowWith. rewrite Hm, Hp. simpl. rewrite Hinh.
  reflexivity.
Qed.

Lemma extraction_throws_on_row_before_any_model_witness :
  getModelsDataAndPartialsFromWorkbook zeroModelWorkbook = Throw TypeError.
Proof.
  apply (extraction_throws_on_row_before_any_model zeroModelWorkbook
           "users" [] [("Model", VNum 0); ("Field", VStr "id")] []);
    reflexivity.
Defined.

(** X5. a row with a truthy [Model] cell starts its model afresh: after
    the row the model holds exactly this row's field, whatever the model
    held under that name before. *)
Theorem extractRow_model_row_starts_afresh
    (sheetName : string) (st st' : extraction) (item : row) :
  truthy (getv "Model" item) = true ->
  String.eqb sheetName "partials" = false ->
  extractRow sheetName st item = Ok st' ->
  exists key field pkg,
    toStringJS (getv "Model" item) = Ok key
    /\ toStringJS (getv "Field" item) = Ok field
    /\ modelKey st' = key
    /\ Obj.get sheetName (modelsData st') = Some pkg
    /\ Obj.get key pkg = Some [(field, Obj.del "Model" item)].
Proof.
  intros Hm Hp H. unfold extractRow, extractRowWith in H. rewrite Hm, Hp in H.
  apply rbind_Ok in H as (st1 & H1 & H2).
  apply rbind_Ok in H1 as (key & Hkey & H1).
  apply rbind_Ok in H1 as (pkg0 & _ & H1).
  apply rbind_Ok in H1 as (pkg1 & Hset & [= <-]).
  apply setProp_Ok in Hset as [-> _]. simpl in H2.
  rewrite ObjFacts.get_set_eq in H2.
  apply rbind_Ok in H2 as (field & Hfield & H2).
  apply rbind_Ok in H2 as (pkg2 & Hstore & [= <-]).
  unfold storeItem in Hstore. rewrite ObjFacts.get_set_eq in Hstore.
  apply rbind_Ok in Hstore as (fields' & Hset & [= <-]).
  apply setProp_Ok in Hset as [-> _]. simpl.
  exists key, field. eexists. repeat split; auto.
  - apply ObjFacts.get_set_eq.
  - now rewrite ObjFacts.get_set_eq.
Qed.

Lemma extractRow_model_row_starts_afresh_witness :
  exists st',
    extractRow "users" userWithTwoFields secondUserRow = Ok st'
    /\ exists key field pkg,
         toStringJS (getv "Model" secondUserRow) = Ok key
         /\ toStringJS (getv "Field" secondUserRow) = Ok field
         /\ modelKey st' = key
         /\ Obj.get "users" (modelsData st') = Some pkg
         /\ Obj.get key pkg = Some [(field, Obj.del "Model" secondUserRow)].
Proof.
  eexists. split; [reflexivity|].
  eapply (extractRow_model_row_starts_afresh "users" userWithTwoFields _
            secondUserRow); reflexivity.
Defined.

(** X6. the packages of the extracted schema are model sheets of the
    workbook other than [partials], and the partial bundle is empty
    unless [partials] is a model sheet. *)
Theorem extraction_packages_are_model_sheets
    (wb : workbook) (md : schema) (ps : list (string * modelObj)) :
  getModelsDataAndPartialsFromWorkbook wb = Ok (md, ps) ->
  (forall p, In p (Obj.keys md) ->
             In p (getSheetsHavingModels wb) /\ p <> "partials")
  /\ (ps <> [] -> In "partials" (getSheetsHavingModels wb)).
Proof.
  intros H. unfold getModelsDataAndPartialsFromWorkbook in H.
  apply rbind_Ok in H as (st & Hloop & [= <- <-]).
  set (I := fun st : extraction =>
              (forall p, In p (Obj.keys (modelsData st)) ->
                         In p (getSheetsHavingModels wb) /\ p <> "partials")
              /\ (partials st <> [] ->
                  In "partials" (getSheetsHavingModels wb))).
  change (I st).
  apply (forEachM_inv I _ _ _ _) in Hloop; auto.
  - intros s sheetName s' Hsheet Hs Hrun. unfold extractSheet in Hrun.
    eapply (forEachM_inv I); [|exact Hs|exact Hrun].
    clear Hs Hrun s s'. intros s item s' _ [Hmd Hps] Hrow.
    unfold extractRow, extractRowWith in Hrow.
    apply rbind_Ok in Hrow as (s1 & H1 & H2).
    assert (I1 : I s1).
    { destruct (truthy (getv "Model" item)); [|injection H1 as <-; now split].
      apply rbind_Ok in H1 as (key & _ & H1).
      destruct (String.eqb_spec sheetName "partials") as [->|Hne].
      - apply rbind_Ok in H1 as (ps' & _ & [= <-]). split; auto.
      - apply rbind_Ok in H1 as (pkg & _ & H1).
        apply rbind_Ok in H1 as (pkg' & _ & [= <-]). split; auto.
        simpl. intros p Hp.
        apply ObjFacts.In_keys_set in Hp as [->|]; auto. }
    destruct I1 as [Hmd1 Hps1].
    destruct (String.eqb_spec sheetName "partials") as [->|Hne].
    + apply rbind_Ok in H2 as (field & _ & H2).
      apply rbind_Ok in H2 as (ps' & _ & [= <-]). split; auto.
    + destruct (Obj.get sheetName (modelsData s1)) as [pkg|] eqn:E;
        [|destruct (inherited sheetName); discriminate].
      apply rbind_Ok in H2 as (field & _ & H2).
      apply rbind_Ok in H2 as (pkg' & _ & [= <-]). split; auto.
      simpl. intros p Hp.
      apply ObjFacts.In_keys_set in Hp as [->|]; auto.
  - split; simpl; [intros p []|congruence].
Qed.

Lemma extraction_packages_are_model_sheets_witness :
  getModelsDataAndPartialsFromWorkbook usersWorkbook
  = Ok (fst usersExtraction, snd usersExtraction)
  /\ (forall p, In p (Obj.keys (fst usersExtraction)) ->
                In p (getSheetsHavingModels usersWorkbook)
                /\ p <> "partials")
  /\ (snd usersExtraction <> [] ->
      In "partials" (getSheetsHavingModels usersWorkbook)).
Proof.
  split; [reflexivity|].
  apply (extraction_packages_are_model_sheets usersWorkbook
           (fst usersExtraction) (snd usersExtraction)).
  reflexivity.
Defined.

Lemma extracted_maps_are_rows_witness :
  getModelsDataAndPartialsFromWorkbook usersWorkbook
  = Ok (fst usersExtraction, snd usersExtraction)
  /\ forall p pkg m model f stored,
       Obj.get p (fst usersExtraction) = Some pkg ->
       Obj.get m pkg = Some model ->
       Obj.get f model = Some stored ->
       storedRow usersWorkbook p f stored /\ ~ In "Model" (Obj.keys stored).
Proof.
  split; [reflexivity|].
  apply (extracted_maps_are_rows usersWorkbook
           (fst usersExtraction) (snd usersExtraction)).
  reflexivity.
Defined.


(** ** PartialResolver: where the fields of a resolved model come from *)

Lemma forEachM_total {A S} (body : S -> A -> result S) (l : list A) (s : S) :
  (forall s x, In x l -> exists s', body s x = Ok s') ->
  exists s', forEachM body l s = Ok s'.
Proof.
  revert s. induction l as [|y l IH]; intros s H; simpl; eauto.
  destruct (H s y) as (s1 & ->); [now left|]. simpl.
  apply IH. intros. apply H. now right.
Qed.

Lemma copyPartial_keys_grow (pd : modelObj) (ks : list string)
    (r r' : modelObj) (k : string) :
  forEachM
    (fun ret partialKey =>
       match Obj.get partialKey pd with
       | Some f => setProp partialKey f ret
       | None => Ok ret
       end) ks r = Ok r' ->
  In k (Obj.keys r) -> In k (Obj.keys r').
Proof.
  intros H Hk.
  apply (forEachM_inv (fun r => In k (Obj.keys r)) _ _ _ _) in H; auto.
  intros r2 pk r3 _ Hr2 Hs. destruct (Obj.get pk pd); [|now injection Hs as <-].
  apply setProp_Ok in Hs as [-> _]. apply ObjFacts.In_keys_set. auto.
Qed.

Lemma copyPartial_sets_keys (pd : modelObj) (ks : list string)
    (r r' : modelObj) (k : string) :
  forEachM
    (fun ret partialKey =>
       match Obj.get partialKey pd with
       | Some f => setProp partialKey f ret
       | None => Ok ret
       end) ks r = Ok r' ->
  In k ks -> In k (Obj.keys pd) -> In k (Obj.keys r').
Proof.
  revert r. induction ks as [|x ks IH]; intros r H Hin Hpd; [destruct Hin|].
  simpl in H. apply rbind_Ok in H as (r1 & Hx & H).
  destruct Hin as [->|Hin]; [|eauto].
  apply (copyPartial_keys_grow _ _ _ _ _ H).
  destruct (ObjFacts.In_keys_get _ _ Hpd) as (f & Hf). rewrite Hf in Hx.
  apply setProp_Ok in Hx as [-> _]. apply ObjFacts.In_keys_set. auto.
Qed.

Lemma fillField_keys_grow (ps : list (string * modelObj)) (model : modelObj)
    (ks : list string) (r r' : modelObj) (k : string) :
  forEachM (fillField ps model) ks r = Ok r' ->
  In k (Obj.keys r) -> In k (Obj.keys r').
Proof.
  intros H Hk.
  apply (forEachM_inv (fun r => In k (Obj.keys r)) _ _ _ _) in H; auto.
  intros r0 x r1 _ Hr Hstep. unfold fillField in Hstep.
  destruct (Obj.get x model); [|now injection Hstep as <-].
  destruct (negb (String.prefix "partials." x)).
  - apply setProp_Ok in Hstep as [-> _]. apply ObjFacts.In_keys_set. auto.
  - apply rbind_Ok in Hstep as (pd & _ & Hstep).
    eapply copyPartial_keys_grow; eauto.
Qed.

(** X8. when the resolver completes, every field of the resolved model is
    a plain field of the model or a field of a partial the model refers
    to, with the property map it has there; and every plain field of the
    model and every field of a partial it refers to is a field of the
    resolved model.  A reference key is not expanded further: the fields
    of a partial are copied as they are. *)
Theorem fillModel_fields_origin (ps : list (string * modelObj))
    (model ret : modelObj) :
  fillModel ps model = Ok ret ->
  (forall k f, Obj.get k ret = Some f ->
     (String.prefix "partials." k = false /\ Obj.get k model = Some f)
     \/ exists ref pd,
          In ref (Obj.keys model) /\ String.prefix "partials." ref = true
          /\ Obj.get (Str.replaceFirst "partials." "" ref) ps = Some pd
          /\ Obj.get k pd = Some f)
  /\ (forall k, In k (Obj.keys model) ->
        String.prefix "partials." k = false -> In k (Obj.keys ret))
  /\ (forall ref pd k,
        In ref (Obj.keys model) -> String.prefix "partials." ref = true ->
        Obj.get (Str.replaceFirst "partials." "" ref) ps = Some pd ->
        In k (Obj.keys pd) -> In k (Obj.keys ret)).
Proof.
  intros H. split; [|split].
  - unfold fillModel in H.
    set (I := fun r : modelObj =>
                forall k f, Obj.get k r = Some f ->
                  (String.prefix "partials." k = false
                   /\ Obj.get k model = Some f)
                  \/ exists ref pd,
                       In ref (Obj.keys model)
                       /\ String.prefix "partials." ref = true
                       /\ Obj.get (Str.replaceFirst "partials." "" ref) ps
                          = Some pd
                       /\ Obj.get k pd = Some f).
    change (I ret).
    apply (forEachM_inv I _ _ _ _) in H; auto; [|intros k f; discriminate].
    intros r x r' Hx Hr Hstep. unfold fillField in Hstep.
    destruct (Obj.get x model) as [field|] eqn:Ex; [|now injection Hstep as <-].
    destruct (String.prefix "partials." x) eqn:Epre; simpl in Hstep.
    + apply rbind_Ok in Hstep as (pd & Hpd & Hstep).
      unfold partialFields in Hpd.
      destruct (Obj.get (Str.replaceFirst "partials." "" x) ps) as [pd0|] eqn:Eps.
      * injection Hpd as <-.
        apply (forEachM_inv I _ _ _ _) in Hstep; auto.
        intros r2 pk r3 _ Hr2 Hs.
        destruct (Obj.get pk pd0) as [f0|] eqn:Epk; [|now injection Hs as <-].
        apply setProp_Ok in Hs as [-> _]. intros k f Hk.
        apply get_set_cases in Hk as [[-> ->]|[_ Hk]]; [|now apply Hr2].
        right. exists x, pd0. auto.
      * destruct (inherited _); [|discriminate]. injection Hpd as <-.
        simpl in Hstep. now injection Hstep as <-.
    + apply setProp_Ok in Hstep as [-> _]. intros k f Hk.
      apply get_set_cases in Hk as [[-> ->]|[_ Hk]]; [|now apply Hr].
      left. auto.
  - intros k Hk Hpre. eapply fillModel_keeps_plain_keys; eauto.
  - intros ref pd k Href Hpre Hpd Hk. unfold fillModel in H.
    destruct (ObjFacts.In_keys_get _ _ Href) as (field & Hfield).
    assert (Hloop : forall ks r0 r1,
               forEachM (fillField ps model) ks r0 = Ok r1 ->
               In ref ks -> In k (Obj.keys r1)).
    { induction ks as [|x ks IH]; intros r0 r1 Hl Hin; [destruct Hin|].
      simpl in Hl. apply rbind_Ok in Hl as (r2 & Hstep & Hl).
      destruct Hin as [->|Hin]; [|eauto].
      apply (fillField_keys_grow _ _ _ _ _ _ Hl). unfold fillField in Hstep.
      rewrite Hfield, Hpre in Hstep. simpl in Hstep.
      unfold partialFields in Hstep. rewrite Hpd in Hstep. simpl in Hstep.
      eapply copyPartial_sets_keys; eauto. }
    eapply Hloop; eauto.
Qed.

Lemma fillModel_fields_origin_witness :
  fillModel basePartials modelWithPartial = Ok modelWithBase
  /\ forall k, In k (Obj.keys modelWithPartial) ->
       String.prefix "partials." k = false -> In k (Obj.keys modelWithBase).
Proof.
  split; [reflexivity|].
  apply (fillModel_fields_origin basePartials modelWithPartial modelWithBase).
  reflexivity.
Defined.

(** X9. the resolver completes on a model whose references all name a
    partial of the bundle, provided no field of the model or of a
    referenced partial is called [__proto__]. *)
Theorem fillModel_completes (ps : list (string * modelObj))
    (model : modelObj) :
  (forall k, In k (Obj.keys model) -> k <> "__proto__") ->
  (forall ref, In ref (Obj.keys model) ->
     String.prefix "partials." ref = true ->
     exists pd, Obj.get (Str.replaceFirst "partials." "" ref) ps = Some pd
                /\ ~ In "__proto__" (Obj.keys pd)) ->
  exists ret, fillModel ps model = Ok ret.
Proof.
  intros Hplain Hrefs. unfold fillModel. apply forEachM_total.
  intros r x Hx. unfold fillField.
  destruct (Obj.get x model) as [field|]; [|eauto].
  destruct (String.prefix "partials." x) eqn:Epre; simpl.
  - destruct (Hrefs x Hx Epre) as (pd & Hpd & Hproto).
    unfold partialFields. rewrite Hpd. simpl.
    apply forEachM_total. intros r' pk Hpk.
    destruct (Obj.get pk pd); [|eauto].
    unfold setProp. destruct (String.eqb_spec pk "__proto__") as [->|]; eauto.
    contradiction.
  - unfold setProp.
    destruct (String.eqb_spec x "__proto__") as [->|]; eauto.
    now elim (Hplain "__proto__").
Qed.

Lemma fillModel_completes_witness :
  exists ret, fillModel basePartials modelWithPartial = Ok ret.
Proof.
  apply (fillModel_completes basePartials modelWithPartial).
  - intros k Hk. simpl in Hk.
    destruct Hk as [<-|[<-|[]]]; discriminate.
  - intros ref Href Hpre. simpl in Href.
    destruct Href as [<-|[<-|[]]]; [|discriminate Hpre].
    eexists. split; [reflexivity|]. simpl.
    intros [H|[H|[]]]; discriminate.
Defined.


(** ** APISectionSegregator: one field *)

Lemma getv_del_ne (k k' : string) (o : list (string * value)) :
  k <> k' -> getv k' (Obj.del k o) = getv k' o.
Proof. intros H. unfold getv. now rewrite ObjFacts.get_del_ne. Qed.

Lemma segregateKey_cases (f f1 : fieldObj) (api api1 : list (string * value))
    (x : string) :
  segregateKey (f, api) x = Ok (f1, api1) ->
  (isPermissionMarker x (getv x f) = false /\ f1 = f /\ api1 = api
   /\ (Str.includes (Str.toLowerCase x) actions = true ->
       exists b, getv x f = VStr b))
  \/ (exists b, getv x f = VStr b
        /\ isPermissionMarker x (VStr b) = true
        /\ f1 = Obj.del x f
        /\ api1 = Obj.set (Str.toLowerCase x) (VStr (Str.toLowerCase b)) api).
Proof.
  unfold segregateKey, isPermissionMarker.
  destruct (Str.includes (Str.toLowerCase x) actions) eqn:Eact;
    cbv beta iota zeta.
  - destruct (getv x f) as [|?|?|b|?]; try discriminate.
    destruct (Str.includes (Str.toLowerCase b) levels) eqn:Elev;
      intros [= <- <-].
    + right. exists b. auto.
    + left. repeat split; eauto.
  - intros [= <- <-]. left. repeat split; auto. discriminate.
Qed.

Lemma segregate_loop (ks : list string) (f f' : fieldObj)
    (api api' : list (string * value)) :
  List.NoDup ks ->
  forEachM segregateKey ks (f, api) = Ok (f', api') ->
  (forall k, In k ks -> Str.includes (Str.toLowerCase k) actions = true ->
             exists b, getv k f = VStr b)
  /\ (forall k, In k ks -> isPermissionMarker k (getv k f) = true ->
                Obj.get k f' = None /\ In (Str.toLowerCase k) (Obj.keys api'))
  /\ (forall k, ~ In k ks \/ isPermissionMarker k (getv k f) = false ->
                Obj.get k f' = Obj.get k f)
  /\ (forall a v, Obj.get a api' = Some v ->
        Obj.get a api = Some v
        \/ exists k b, In k ks /\ getv k f = VStr b
             /\ isPermissionMarker k (VStr b) = true
             /\ a = Str.toLowerCase k /\ v = VStr (Str.toLowerCase b))
  /\ (forall a, In a (Obj.keys api) -> In a (Obj.keys api')).
Proof.
  revert f api. induction ks as [|x ks IH]; intros f api Hnd H; simpl in H.
  { injection H as <- <-.
    split; [intros k []|]. split; [intros k []|]. repeat split; auto. }
  apply rbind_Ok in H as ([f1 api1] & Hx & H).
    apply List.NoDup_cons_iff in Hnd as [Hnin Hnd].
    destruct (IH f1 api1 Hnd H) as (IA & IB & IC & ID & IE). clear IH.
    assert (Hother : forall k, k <> x ->
               getv k f1 = getv k f /\ Obj.get k f1 = Obj.get k f).
    { intros k Hk.
      apply segregateKey_cases in Hx
        as [(_ & -> & _)|(b & _ & _ & -> & _)]; auto.
      split; [apply getv_del_ne | apply ObjFacts.get_del_ne]; congruence. }
    assert (Hks : forall k, In k ks -> k <> x) by (intros k Hk ->; auto).
    split; [|split; [|split; [|split]]].
    - intros k [<-|Hk] Hact.
      + apply segregateKey_cases in Hx as [(_ & _ & _ & Hb)|(b & Hb & _)]; eauto.
      + destruct (Hother k (Hks k Hk)) as [<- _]. auto.
    - intros k [<-|Hk] Hm.
      + rewrite (IC x) by auto.
        apply segregateKey_cases in Hx
          as [(Hm' & _)|(b & _ & _ & -> & ->)]; [congruence|].
        split; [apply ObjFacts.get_del_eq|].
        apply IE, ObjFacts.In_keys_set. now left.
      + destruct (Hother k (Hks k Hk)) as [Hv _].
        rewrite <- Hv in Hm. now apply IB.
    - intros k Hk. destruct (string_dec k x) as [->|Hne].
      + rewrite (IC x) by auto.
        destruct Hk as [Hk|Hm]; [elim Hk; now left|].
        apply segregateKey_cases in Hx
          as [(_ & -> & _)|(b & Hb & Hm' & _)]; auto.
        rewrite Hb in Hm. congruence.
      + destruct (Hother k Hne) as [Hv Hg]. rewrite <- Hg. apply IC.
        destruct Hk as [Hk|Hm]; [left; intros Hin; apply Hk; now right|].
        right. now rewrite Hv.
    - intros a v Ha.
      destruct (ID a v Ha) as [Hold|(k & b & Hk & Hb & Hm & -> & ->)].
      + apply segregateKey_cases in Hx
          as [(_ & _ & -> & _)|(b & Hb & Hm & _ & ->)]; auto.
        apply get_set_cases in Hold as [[-> ->]|[_ Hold]]; auto.
        right. exists x, b. repeat split; auto. now left.
      + right. exists k, b. destruct (Hother k (Hks k Hk)) as [Hv _].
        repeat split; auto; [now right | congruence].
    - intros a Ha. apply IE.
      apply segregateKey_cases in Hx
        as [(_ & _ & -> & _)|(b & _ & _ & _ & ->)]; auto.
      apply ObjFacts.In_keys_set. now right.
Qed.

Lemma segregateField_spec (field field' : fieldObj) :
  List.NoDup (Obj.keys field) ->
  segregateField field = Ok field' ->
  (forall k, k <> "api" ->
     Obj.get k field'
     = if isPermissionMarker k (getv k field) then None else Obj.get k field)
  /\ (((forall k, isPermissionMarker k (getv k field) = false)
       /\ Obj.get "api" field' = Obj.get "api" field)
      \/ exists apiData,
           Obj.get "api" field' = Some (VObj apiData)
           /\ (forall a v, Obj.get a apiData = Some v ->
                 exists k b,
                   Obj.get k field = Some (VStr b)
                   /\ isPermissionMarker k (VStr b) = true
                   /\ a = Str.toLowerCase k /\ v = VStr (Str.toLowerCase b))
           /\ (forall k, isPermissionMarker k (getv k field) = true ->
                         In (Str.toLowerCase k) (Obj.keys apiData))).
Proof.
  intros Hnd H. unfold segregateField in H.
  apply rbind_Ok in H as ([f1 apiData] & Hloop & H).
  destruct (segregate_loop _ _ _ _ _ Hnd Hloop) as (_ & IB & IC & ID & _).
  assert (Hin : forall k, isPermissionMarker k (getv k field) = true ->
                          In k (Obj.keys field)).
  { intros k Hm. unfold getv in Hm.
    destruct (Obj.get k field) eqn:E; [eapply ObjFacts.get_Some_In; eauto|].
    unfold isPermissionMarker in Hm. now rewrite andb_false_r in Hm. }
  assert (Hf1 : forall k,
             Obj.get k f1
             = if isPermissionMarker k (getv k field) then None
               else Obj.get k field).
  { intros k. destruct (isPermissionMarker k (getv k field)) eqn:Em.
    - now apply IB; auto.
    - apply IC. now right. }
  assert (Hentries : forall a v, Obj.get a apiData = Some v ->
             exists k b,
               Obj.get k field = Some (VStr b)
               /\ isPermissionMarker k (VStr b) = true
               /\ a = Str.toLowerCase k /\ v = VStr (Str.toLowerCase b)).
  { intros a v Ha. destruct (ID a v Ha) as [|(k & b & Hk & Hb & Hm & -> & ->)];
      [discriminate|].
    exists k, b. repeat split; auto.
    destruct (ObjFacts.In_keys_get _ _ Hk) as (v & Hv).
    unfold getv in Hb. rewrite Hv in Hb. congruence. }
  destruct (0 <? length (Obj.keys apiData))%nat eqn:Elen; injection H as <-.
  - split.
    + intros k Hk. rewrite ObjFacts.get_set_ne by congruence. apply Hf1.
    + right. exists apiData. split; [apply ObjFacts.get_set_eq|].
      split; auto. intros k Hm. now apply IB; auto.
  - split; [intros k _; apply Hf1|]. left.
    assert (Hnone : forall k, isPermissionMarker k (getv k field) = false).
    { intros k. destruct (isPermissionMarker k (getv k field)) eqn:Em; auto.
      destruct (IB k (Hin k Em) Em) as [_ Hk].
      destruct (Obj.keys apiData); [destruct Hk | discriminate Elen]. }
    split; [exact Hnone|]. rewrite Hf1. reflexivity.
Qed.

(** X10. the segregator moves the permission markers of a field into its
    [api] object and leaves every other property as it is: a marker
    property is gone afterwards and every other property but [api] is
    unchanged; when the field has no marker its [api] property is left
    as it was, and otherwise [api] is an object whose entries are the
    lower-cased markers and that has an entry for every marker. *)
Theorem segregateField_moves_markers (field field' : fieldObj) :
  List.NoDup (Obj.keys field) ->
  segregateField field = Ok field' ->
  (forall k, k <> "api" ->
     Obj.get k field'
     = if isPermissionMarker k (getv k field) then None else Obj.get k field)
  /\ (((forall k, isPermissionMarker k (getv k field) = false)
       /\ Obj.get "api" field' = Obj.get "api" field)
      \/ exists apiData,
           Obj.get "api" field' = Some (VObj apiData)
           /\ (forall a v, Obj.get a apiData = Some v ->
                 exists k b,
                   Obj.get k field = Some (VStr b)
                   /\ isPermissionMarker k (VStr b) = true
                   /\ a = Str.toLowerCase k /\ v = VStr (Str.toLowerCase b))
           /\ (forall k, isPermissionMarker k (getv k field) = true ->
                         In (Str.toLowerCase k) (Obj.keys apiData))).
Proof. apply segregateField_spec. Qed.

Lemma segregateField_moves_markers_witness :
  (List.NoDup (Obj.keys typedNameField)
   /\ segregateField typedNameField = Ok segregatedNameField)
  /\ forall k, k <> "api" ->
       Obj.get k segregatedNameField
       = if isPermissionMarker k (getv k typedNameField) then None
         else Obj.get k typedNameField.
Proof.
  split; [split; [apply nodupb_NoDup|]; reflexivity|].
  apply (segregateField_moves_markers typedNameField segregatedNameField);
    [apply nodupb_NoDup|]; reflexivity.
Defined.


Lemma segregateKey_throw (f : fieldObj) (api : list (string * value))
    (x : string) (e : error) :
  segregateKey (f, api) x = Throw e ->
  e = TypeError
  /\ Str.includes (Str.toLowerCase x) actions = true
  /\ forall b, getv x f <> VStr b.
Proof.
  unfold segregateKey.
  destruct (Str.includes (Str.toLowerCase x) actions); [|discriminate].
  destruct (getv x f) as [|?|?|b|?];
    try (intros [= <-]; repeat split; auto; discriminate).
  destruct (Str.includes (Str.toLowerCase b) levels); discriminate.
Qed.

Lemma forEachM_cons {A S} (body : S -> A -> result S) (x : A) (l : list A)
    (s : S) :
  forEachM body (x :: l) s = (s' <-- body s x ;; forEachM body l s').
Proof. reflexivity. Qed.

Lemma segregate_loop_throw (ks : list string) (f : fieldObj)
    (api : list (string * value)) (e : error) :
  List.NoDup ks ->
  forEachM segregateKey ks (f, api) = Throw e ->
  e = TypeError
  /\ exists k, In k ks
       /\ Str.includes (Str.toLowerCase k) actions = true
       /\ forall b, getv k f <> VStr b.
Proof.
  revert f api. induction ks as [|x ks IH]; intros f api Hnd H;
    [discriminate|].
  apply List.NoDup_cons_iff in Hnd as [Hnin Hnd]. rewrite forEachM_cons in H.
  destruct (segregateKey (f, api) x) as [[f1 api1]|e'] eqn:Ex; simpl in H.
  - destruct (IH f1 api1 Hnd H) as (-> & k & Hk & Hact & Hbad).
    split; auto. exists k. split; [now right|]. split; auto.
    assert (Hne : x <> k) by congruence.
    apply segregateKey_cases in Ex as [(_ & -> & _)|(b & _ & _ & -> & _)]; auto.
    intros b'. rewrite <- (getv_del_ne x k f Hne). apply Hbad.
  - injection H as <-. apply segregateKey_throw in Ex as (-> & Hact & Hbad).
    split; auto. exists x. split; [now left|]. auto.
Qed.

Lemma segregate_loop_bad (ks : list string) (f : fieldObj)
    (api : list (string * value)) (k : string) :
  List.NoDup ks -> In k ks ->
  Str.includes (Str.toLowerCase k) actions = true ->
  (forall b, getv k f <> VStr b) ->
  forEachM segregateKey ks (f, api) = Throw TypeError.
Proof.
  revert f api. induction ks as [|x ks IH]; intros f api Hnd Hin Hact Hbad;
    [destruct Hin|].
  apply List.NoDup_cons_iff in Hnd as [Hnin Hnd]. rewrite forEachM_cons.
  destruct (segregateKey (f, api) x) as [[f1 api1]|e'] eqn:Ex; simpl.
  - destruct Hin as [->|Hin].
    + apply segregateKey_cases in Ex as [(_ & _ & _ & Hb)|(b & Hb & _)].
      * destruct (Hb Hact) as (b & Hb'). now elim (Hbad b).
      * now elim (Hbad b).
    + apply IH; auto.
      assert (Hne : x <> k) by congruence.
      apply segregateKey_cases in Ex as [(_ & -> & _)|(b & _ & _ & -> & _)]; auto.
      intros b'. rewrite (getv_del_ne x k f Hne). apply Hbad.
  - apply segregateKey_throw in Ex as (-> & _). reflexivity.
Qed.

(** X11. the segregator fails on a field exactly when the field has a
    property named after an action, letter case aside, whose value is no
    string, such as a boolean cell in a [Create] column; the failure is
    a TypeError. *)
Theorem segregateField_throws_iff (field : fieldObj) :
  List.NoDup (Obj.keys field) ->
  (segregateField field = Throw TypeError
   <-> exists k, In k (Obj.keys field)
         /\ In (Str.toLowerCase k) actions
         /\ forall b, getv k field <> VStr b)
  /\ segregateField field <> Throw Unsupported.
Proof.
  intros Hnd. unfold segregateField.
  destruct (forEachM segregateKey (Obj.keys field) (field, []))
    as [[f1 apiData]|e] eqn:E; simpl.
  - split.
    + split.
      * destruct (0 <? length (Obj.keys apiData))%nat; discriminate.
      * intros (k & Hk & Hact & Hbad).
        apply (proj2 (includes_In (Str.toLowerCase k) actions)) in Hact.
        rewrite (segregate_loop_bad _ _ _ k Hnd Hk Hact Hbad) in E.
        discriminate.
    + destruct (0 <? length (Obj.keys apiData))%nat; discriminate.
  - apply segregate_loop_throw in E as (-> & k & Hk & Hact & Hbad); auto.
    split; [|discriminate]. split; auto. intros _.
    exists k. split; auto. split; auto.
    exact (proj1 (includes_In (Str.toLowerCase k) actions) Hact).
Qed.

Lemma segregateField_throws_iff_witness :
  segregateField booleanMarkerField = Throw TypeError
  <-> exists k, In k (Obj.keys booleanMarkerField)
        /\ In (Str.toLowerCase k) actions
        /\ forall b, getv k booleanMarkerField <> VStr b.
Proof.
  apply (segregateField_throws_iff booleanMarkerField).
  apply nodupb_NoDup. reflexivity.
Defined.

Lemma forEachM_fixed {A S} (body : S -> A -> result S) (l : list A) (s : S) :
  (forall x, In x l -> body s x = Ok s) -> forEachM body l s = Ok s.
Proof.
  induction l as [|y l IH]; intros H; [reflexivity|].
  rewrite forEachM_cons, H by now left. simpl. apply IH.
  intros. apply H. now right.
Qed.

(** X12. segregating a field a second time changes nothing: the result of
    the segregator is a fixed point of it.  (A field object of a partial
    is shared by the models that refer to the partial and is segregated
    once for each of them.) *)
Theorem segregateField_idempotent (field field' : fieldObj) :
  List.NoDup (Obj.keys field) ->
  segregateField field = Ok field' ->
  segregateField field' = Ok field'.
Proof.
  intros Hnd H.
  destruct (segregateField_spec field field' Hnd H) as [Hframe _].
  unfold segregateField in H.
  apply rbind_Ok in H as ([f1 apiData] & Hloop & _).
  destruct (segregate_loop _ _ _ _ _ Hnd Hloop) as (IA & _).
  unfold segregateField.
  rewrite forEachM_fixed; [reflexivity|].
  intros k Hk. unfold segregateKey.
  destruct (Str.includes (Str.toLowerCase k) actions) eqn:Eact; auto.
  assert (Hne : k <> "api") by (intros ->; discriminate Eact).
  destruct (ObjFacts.In_keys_get _ _ Hk) as (v & Hv).
  pose proof (Hframe k Hne) as Hget. rewrite Hv in Hget.
  destruct (isPermissionMarker k (getv k field)) eqn:Em; [discriminate|].
  assert (Hin : In k (Obj.keys field))
    by (eapply ObjFacts.get_Some_In; eauto).
  destruct (IA k Hin Eact) as (b & Hb).
  assert (Hv' : getv k field' = VStr b).
  { unfold getv in *. rewrite Hv. rewrite <- Hget in Hb. exact Hb. }
  rewrite Hv'. rewrite Hb in Em. unfold isPermissionMarker in Em.
  rewrite Eact in Em. cbn [andb] in Em. now rewrite Em.
Qed.

Lemma segregateField_idempotent_witness :
  segregateField segregatedNameField = Ok segregatedNameField.
Proof.
  apply (segregateField_idempotent typedNameField segregatedNameField);
    [apply nodupb_NoDup|]; reflexivity.
Defined.


(** ** Phases that update the schema field by field *)

Lemma forInUpdate_pointwise {V} (f : V -> result V) (o o' : list (string * V)) :
  List.NoDup (Obj.keys o) ->
  forInUpdate f o = Ok o' ->
  Obj.keys o' = Obj.keys o
  /\ forall k v, Obj.get k o = Some v ->
                 exists v', Obj.get k o' = Some v' /\ f v = Ok v'.
Proof.
  intros Hnd H. unfold forInUpdate in H.
  destruct (forInUpdate_loop f _ _ _ Hnd H) as (Hkeys & Hin & _).
  split; auto. intros k v Hv.
  destruct (Hin k (ObjFacts.get_Some_In _ _ _ Hv) v Hv) as (v' & Hf & Hv').
  eauto.
Qed.

Lemma forInUpdate3_fieldwise {V} (f : V -> result V)
    (md out : list (string * list (string * list (string * V)))) :
  uniqueKeys md ->
  forInUpdate (forInUpdate (forInUpdate f)) md = Ok out ->
  fieldwise f md out.
Proof.
  intros [Hnd Hu] H.
  destruct (forInUpdate_pointwise _ _ _ Hnd H) as [Hkeys Hp].
  split; auto. intros p pkg Hpkg.
  destruct (Hp p pkg Hpkg) as (pkg' & Hpkg' & Hfp).
  destruct (Hu p pkg Hpkg) as [Hndp Hum].
  destruct (forInUpdate_pointwise _ _ _ Hndp Hfp) as [Hkeysp Hm].
  exists pkg'. repeat split; auto. intros m model Hmodel.
  destruct (Hm m model Hmodel) as (model' & Hmodel' & Hfm).
  destruct (forInUpdate_pointwise _ _ _ (Hum m model Hmodel) Hfm)
    as [Hkeysm Hf].
  exists model'. repeat split; auto.
Qed.

Lemma wellFormedSchema_uniqueKeys (md : schema) :
  wellFormedSchema md -> uniqueKeys md.
Proof.
  intros [Hnd Hwf]. split; auto. intros p pkg Hp.
  destruct (Hwf p pkg Hp) as [Hndp Hm]. split; auto.
  intros m model Hmodel. now destruct (Hm m model Hmodel).
Qed.

Lemma set_set_same {V} (k : string) (v : V) (o : list (string * V)) :
  Obj.set k v (Obj.set k v o) = Obj.set k v o.
Proof.
  induction o as [|[k' v'] o IH]; simpl.
  - now rewrite String.eqb_refl.
  - destruct (String.eqb_spec k k') as [->|Hne]; simpl.
    + now rewrite String.eqb_refl.
    + destruct (String.eqb_spec k k'); [contradiction|]. now rewrite IH.
Qed.

(** X13. the type lookup on a field touches nothing but the property
    [typeFromTypes], and looking the type up a second time changes
    nothing.  (A field object of a partial is shared by the models that
    refer to the partial and is looked up once for each of them.) *)
Theorem replaceTypeOfField_frame_idempotent
    (types : list (string * value)) (field field' : fieldObj) :
  replaceTypeOfField types field = Ok field' ->
  (forall k, k <> "typeFromTypes" -> Obj.get k field' = Obj.get k field)
  /\ replaceTypeOfField types field' = Ok field'.
Proof.
  unfold replaceTypeOfField. intros H.
  destruct (truthy (getv "Type" field)) eqn:Et;
    [|injection H as <-; now rewrite Et].
  destruct (getv "Type" field) as [|?|?|s|?] eqn:Etype; try discriminate.
  destruct (Obj.get (Str.toLowerCase s) types) as [t|] eqn:Ereg.
  - destruct (truthy t) eqn:Ett; injection H as <-.
    + split.
      * intros k Hk. apply ObjFacts.get_set_ne. congruence.
      * rewrite getv_set_ne by discriminate. rewrite Etype, Et, Ereg, Ett.
        now rewrite set_set_same.
    + now rewrite Etype, Et, Ereg, Ett.
  - destruct (inherited (Str.toLowerCase s)) eqn:Einh; [discriminate|].
    injection H as <-. now rewrite Etype, Et, Ereg, Einh.
Qed.

Lemma replaceTypeOfField_frame_idempotent_witness :
  replaceTypeOfField exampleTypes
    [("Field", VStr "id"); ("Type", VStr "UUID")]
  = Ok [("Field", VStr "id"); ("Type", VStr "UUID");
        ("typeFromTypes", VStr "uuid.UUID")]
  /\ replaceTypeOfField exampleTypes
       [("Field", VStr "id"); ("Type", VStr "UUID");
        ("typeFromTypes", VStr "uuid.UUID")]
     = Ok [("Field", VStr "id"); ("Type", VStr "UUID");
           ("typeFromTypes", VStr "uuid.UUID")].
Proof.
  split; [reflexivity|].
  apply (replaceTypeOfField_frame_idempotent exampleTypes
           [("Field", VStr "id"); ("Type", VStr "UUID")]).
  reflexivity.
Defined.

(** X14. the type lookup keeps the packages, the models and the fields of
    the schema, in their order, and replaces each field by its looked-up
    version. *)
Theorem replaceWebAppTypesWithModelType_fieldwise
    (types : list (string * value)) (md typed : schema) :
  uniqueKeys md ->
  replaceWebAppTypesWithModelType types md = Ok typed ->
  fieldwise (replaceTypeOfField types) md typed.
Proof. intros Hu H. now apply forInUpdate3_fieldwise. Qed.

Lemma replaceWebAppTypesWithModelType_fieldwise_witness :
  fieldwise (replaceTypeOfField exampleTypes) (fst usersExtraction) typedUsers.
Proof.
  apply (replaceWebAppTypesWithModelType_fieldwise exampleTypes
           (fst usersExtraction) typedUsers).
  - apply wellFormedSchema_uniqueKeys, checkSchema_sound. reflexivity.
  - reflexivity.
Defined.

(** X15. the segregator keeps the packages, the models and the fields of
    the schema, in their order, and replaces each field by its
    segregated version. *)
Theorem segregateAPISections_fieldwise (md seg : schema) :
  uniqueKeys md ->
  segregateAPISections md = Ok seg ->
  fieldwise segregateField md seg.
Proof. intros Hu H. now apply forInUpdate3_fieldwise. Qed.

Lemma segregateAPISections_fieldwise_witness :
  fieldwise segregateField typedUsers segregatedUsers.
Proof.
  apply (segregateAPISections_fieldwise typedUsers segregatedUsers).
  - apply wellFormedSchema_uniqueKeys, checkSchema_sound. reflexivity.
  - reflexivity.
Defined.


(** ** The two field loops of a model *)

Section FieldLoops.

Variable modulePath : string.
Variable packageCamelCase : string.

(** One round of the first loop, on the keys, the parent holder and the
    imports. *)
Lemma expandField_step (st st' : modelState) (k : string) :
  expandField modulePath packageCamelCase st k = Ok st' ->
  (st' = st /\ Obj.get k (fields st) = None)
  \/ (In k (Obj.keys (fields st)) /\ Str.contains "." k = false
      /\ parentModel st' = parentModel st /\ imports st' = imports st
      /\ (forall k' f', Obj.get k' (fields st) = Some f' ->
            exists f'', Obj.get k' (fields st') = Some f''
                        /\ getv "Primary" f'' = getv "Primary" f')
      /\ forall k', In k' (Obj.keys (fields st'))
                    <-> In k' (Obj.keys (fields st)))
  \/ (In k (Obj.keys (fields st)) /\ Str.contains "." k = true
      /\ parentModel st' = Some k
      /\ imports st'
         = (if String.eqb (relatedModelPackageOf k) packageCamelCase
            then imports st
            else addToImportsLocal
                   (getLocalModelPackageStr modulePath
                      (relatedModelPackageOf k)) (imports st))
      /\ (exists ref,
            Obj.get (relatedModelOf k) (fields st') = Some ref
            /\ getv "Primary" ref = VUndef)
      /\ forall k', In k' (Obj.keys (fields st'))
                    <-> k' <> k
                        /\ (In k' (Obj.keys (fields st))
                            \/ k' = relatedModelOf k
                            \/ k' = relatedFieldNameOf k)).
Proof.
  unfold expandField. destruct (Obj.get k (fields st)) as [f|] eqn:Eget;
    [|intros [= <-]; now left].
  assert (Hin : In k (Obj.keys (fields st)))
    by (eapply ObjFacts.get_Some_In; eauto).
  pose proof (createFieldVariables_keeps f "Primary") as Hprim.
  destruct (createFieldVariables f) as [field type_]. cbn [fst] in Hprim.
  intros H. right. apply rbind_Ok in H as ([fields2 imports2] & Hrel & H).
  unfold createRelationShips in Hrel. unfold updateField in H.
  destruct (Str.contains "." k) eqn:Edot; cbn [negb] in H.
  - right. rewrite ObjFacts.get_set_eq in Hrel.
    fold (relatedModelPackageOf k) in Hrel. fold (relatedModelOf k) in Hrel.
    assert (Hne1 : k <> relatedModelOf k).
    { intros E. pose proof (relatedModelOf_no_dot k) as Hd.
      rewrite <- E in Hd. congruence. }
    assert (Hne2 : k <> relatedFieldNameOf k).
    { intros E. pose proof (relatedFieldNameOf_no_dot k) as Hd.
      rewrite <- E in Hd. congruence. }
    pose proof (append_Id_neq (relatedModelOf k)) as Hne3.
    fold (relatedFieldNameOf k) in Hne3.
    destruct (String.eqb_spec (relatedModelPackageOf k) packageCamelCase)
      as [Epkg|Epkg]; cbn [negb] in Hrel;
      apply rbind_Ok in Hrel as (fields' & Hset & [= <- <-]);
      apply setProp_Ok in Hset as [-> _]; injection H as <-; cbn [fields
        imports parentModel];
      (split; [exact Hin|]; split; [reflexivity|]; split; [reflexivity|];
       split; [reflexivity|]; split;
       [ eexists; split;
         [ rewrite ObjFacts.get_del_ne by auto;
           rewrite ObjFacts.get_set_ne by auto;
           fold (relatedFieldNameOf k);
           rewrite ObjFacts.get_set_ne by auto;
           rewrite ObjFacts.get_set_ne by auto;
           apply ObjFacts.get_set_eq
         | reflexivity ]
       | intros k'; rewrite ObjFacts.In_keys_del;
         fold (relatedFieldNameOf k);
         rewrite !ObjFacts.In_keys_set; intuition congruence ]).
  - left. injection Hrel as <- <-. injection H as <-.
    cbn [fields imports parentModel].
    split; [exact Hin|]. split; [reflexivity|]. split; [reflexivity|].
    split; [reflexivity|]. split.
    + intros k' f' Hk'. destruct (string_dec k k') as [<-|Hne].
      * exists field. split; [apply ObjFacts.get_set_eq|].
        rewrite Eget in Hk'. injection Hk' as <-.
        unfold getv. now rewrite Hprim by discriminate.
      * exists f'. split; auto. now rewrite !ObjFacts.get_set_ne.
    + intros k'. rewrite !ObjFacts.In_keys_set. intuition congruence.
Qed.

Lemma expandLoop_dotted (ks : list string) (st st' : modelState) :
  forEachM (expandField modulePath packageCamelCase) ks st = Ok st' ->
  forall k', In k' (Obj.keys (fields st')) -> Str.contains "." k' = true ->
             In k' (Obj.keys (fields st)) /\ ~ In k' ks.
Proof.
  revert st. induction ks as [|x ks IH]; intros st H k' Hk' Hdot.
  - injection H as <-. auto.
  - rewrite forEachM_cons in H. apply rbind_Ok in H as (st1 & Hx & H).
    destruct (IH st1 H k' Hk' Hdot) as [Hin1 Hnin].
    assert (Hgoal : In k' (Obj.keys (fields st)) /\ k' <> x).
    { apply expandField_step in Hx
        as [[-> Hnone]|[(Hin & Hnd & _ & _ & _ & Hkeys)
                       |(Hin & Hd & _ & _ & _ & Hkeys)]].
      - split; auto. intros ->. apply ObjFacts.get_None_notin in Hnone. auto.
      - split; [now apply Hkeys | congruence].
      - apply Hkeys in Hin1 as [Hne [Hold|[E|E]]]; auto; subst k'.
        + now rewrite relatedModelOf_no_dot in Hdot.
        + now rewrite relatedFieldNameOf_no_dot in Hdot. }
    destruct Hgoal as [Hg1 Hg2]. split; auto.
    intros [->|Hin]; auto.
Qed.

Lemma In_addToImportsLocal (t i : string) (l : list string) :
  In i (addToImportsLocal t l) <-> In i l \/ i = t.
Proof.
  unfold addToImportsLocal. destruct (Str.includes t l) eqn:E.
  - apply includes_In in E. split; [auto | intros [H|H]; subst; auto].
  - rewrite in_app_iff. simpl. intuition congruence.
Qed.


Lemma expandLoop_present (ks : list string) (st st' : modelState) :
  List.NoDup ks ->
  (forall k, In k ks -> In k (Obj.keys (fields st))) ->
  forEachM (expandField modulePath packageCamelCase) ks st = Ok st' ->
  parentModel st'
  = fold_left (fun acc k => if Str.contains "." k then Some k else acc)
      ks (parentModel st)
  /\ forall k, In k ks -> Str.contains "." k = true ->
       relatedModelPackageOf k <> packageCamelCase ->
       In (getLocalModelPackageStr modulePath (relatedModelPackageOf k))
          (imports st').
Proof.
  revert st. induction ks as [|x ks IH]; intros st Hnd Hpres H.
  - injection H as <-. split; auto. intros k [].
  - rewrite forEachM_cons in H. apply rbind_Ok in H as (st1 & Hx & H).
    apply List.NoDup_cons_iff in Hnd as [Hnin Hnd].
    assert (Hgrow : forall i, In i (imports st1) -> In i (imports st')).
    { clear -H. revert st1 H.
      induction ks as [|y ks IHk]; intros s H i Hi.
      - now injection H as <-.
      - rewrite forEachM_cons in H. apply rbind_Ok in H as (s1 & Hy & H).
        apply (IHk s1 H).
        apply expandField_step in Hy
          as [[-> _]|[(_ & _ & _ & -> & _)|(_ & _ & _ & -> & _)]]; auto.
        destruct (String.eqb _ _); auto.
        apply In_addToImportsLocal. now left. }
    assert (Hx' := Hx).
    apply expandField_step in Hx
      as [[-> Hnone]|[(Hin & Hd & Hpar & Himp & _ & Hkeys)
                     |(Hin & Hd & Hpar & Himp & _ & Hkeys)]].
    + apply ObjFacts.get_None_notin in Hnone. elim Hnone. apply Hpres.
      now left.
    + destruct (IH st1 Hnd) as [IHp IHi]; auto.
      { intros k Hk. apply Hkeys, Hpres. now right. }
      cbn [fold_left]. rewrite Hd, <- Hpar. split; auto.
      intros k [<-|Hk] Hdot; [congruence | auto].
    + destruct (IH st1 Hnd) as [IHp IHi]; auto.
      { intros k Hk. apply Hkeys. split; [congruence|].
        left. apply Hpres. now right. }
      cbn [fold_left]. rewrite Hd, <- Hpar. split; auto.
      intros k [<-|Hk] Hdot Hpkg; [|auto].
      apply Hgrow. rewrite Himp.
      destruct (String.eqb_spec (relatedModelPackageOf x) packageCamelCase);
        [contradiction|].
      apply In_addToImportsLocal. now right.
Qed.


Lemma importStringsMaps_values (t importStr : string) :
  Obj.get t importStringsMaps = Some importStr ->
  importStr = uuidImport \/ importStr = timeImport.
Proof.
  unfold importStringsMaps. cbn [Obj.get].
  destruct (String.eqb t "uuid.UUID"); [intros [= <-]; now left|].
  destruct (String.eqb t "time.Time"); [intros [= <-]; now right|].
  discriminate.
Qed.

Lemma addToImports_spec (t : value) (l : list string) :
  (List.NoDup l -> List.NoDup (addToImports t l))
  /\ (forall i, In i l -> In i (addToImports t l))
  /\ (forall i, In i (addToImports t l) ->
        In i l \/ i = uuidImport \/ i = timeImport).
Proof.
  unfold addToImports. destruct t as [|?|?|t|?]; auto.
  destruct (Obj.get t importStringsMaps) as [importStr|] eqn:E; auto.
  apply importStringsMaps_values in E.
  destruct (Str.includes importStr l) eqn:Einc; auto.
  split; [|split].
  - intros Hnd. apply NoDup_snoc; auto. now apply includes_false_notin.
  - intros i Hi. apply in_app_iff. now left.
  - intros i Hi. apply in_app_iff in Hi as [|[<-|[]]]; auto.
Qed.

Lemma setPrimarykey_spec (field : fieldObj) (l : list string) :
  (List.NoDup l -> List.NoDup (setPrimarykey field l))
  /\ (forall i, In i l -> In i (setPrimarykey field l))
  /\ (forall i, In i (setPrimarykey field l) ->
        In i l \/ i = uuidImport \/ i = timeImport)
  /\ (truthy (getv "Primary" field) = false ->
      In uuidImport (setPrimarykey field l)).
Proof.
  unfold setPrimarykey. destruct (truthy (getv "Primary" field)).
  - repeat split; auto. discriminate.
  - destruct (addToImports_spec (VStr "uuid.UUID") l) as (H1 & H2 & H3).
    repeat split; auto. intros _. unfold addToImports.
    change (Obj.get "uuid.UUID" importStringsMaps) with (Some uuidImport).
    cbv iota. destruct (Str.includes uuidImport l) eqn:E.
    + now apply includes_In.
    + apply in_app_iff. right. now left.
Qed.

Lemma setDefaultFieldType_Primary (field : fieldObj) :
  getv "Primary" (setDefaultFieldType field) = getv "Primary" field.
Proof.
  unfold setDefaultFieldType.
  destruct (getv "typeFromTypes" field) as [|?|?|?|o];
    try (apply getv_set_ne; discriminate).
  destruct (truthy (getv "length" o)), (truthy (getv "type" o));
    rewrite ?getv_set_ne by discriminate; reflexivity.
Qed.

Lemma resolveFieldType_imports (f r : fieldObj) (imps imps' : list string) :
  resolveFieldType f imps = Ok (r, imps') ->
  (List.NoDup imps -> List.NoDup imps')
  /\ (forall i, In i imps -> In i imps')
  /\ (forall i, In i imps' -> In i imps \/ i = uuidImport \/ i = timeImport)
  /\ (truthy (getv "Primary" f) = false -> In uuidImport imps').
Proof.
  unfold resolveFieldType.
  pose proof (createFieldVariables_keeps f "Primary") as Hprim.
  destruct (createFieldVariables f) as [field type_]. cbn [fst] in Hprim.
  intros H. apply rbind_Ok in H as (f1 & _ & H).
  apply rbind_Ok in H as (f2 & _ & H).
  apply rbind_Ok in H as (f3 & _ & [= _ <-]).
  destruct (addToImports_spec type_ imps) as (A1 & A2 & A3).
  destruct (setPrimarykey_spec (setDefaultFieldType field)
              (addToImports type_ imps)) as (P1 & P2 & P3 & P4).
  split; [auto|]. split; [auto|]. split.
  - intros i Hi. apply P3 in Hi as [Hi|]; auto.
  - intros Hp. apply P4. rewrite setDefaultFieldType_Primary.
    unfold getv. rewrite Hprim by discriminate. exact Hp.
Qed.

Lemma resolveField_step (st st' : modelState) (k : string) :
  resolveField st k = Ok st' ->
  (st' = st /\ Obj.get k (fields st) = None)
  \/ exists f r,
       Obj.get k (fields st) = Some f
       /\ resolveFieldType f (imports st) = Ok (r, imports st')
       /\ fields st' = (if Str.contains "." k then Obj.del k (fields st)
                        else Obj.set k r (fields st))
       /\ parentModel st' = (if Str.contains "." k then Some k
                             else parentModel st).
Proof.
  unfold resolveField. destruct (Obj.get k (fields st)) as [f|];
    [|intros [= <-]; now left].
  intros H. right. apply rbind_Ok in H as ([r imps'] & Hr & H).
  unfold updateField in H. exists f, r.
  destruct (Str.contains "." k); injection H as <-; auto.
Qed.

Lemma resolveLoop (ks : list string) (st st' : modelState) :
  forEachM resolveField ks st = Ok st' ->
  (forall k, In k ks -> Str.contains "." k = false) ->
  (forall k, In k (Obj.keys (fields st)) -> Str.contains "." k = false) ->
  (forall k, In k (Obj.keys (fields st')) -> Str.contains "." k = false)
  /\ parentModel st' = parentModel st
  /\ (List.NoDup (imports st) -> List.NoDup (imports st'))
  /\ (forall i, In i (imports st) -> In i (imports st'))
  /\ (forall i, In i (imports st') ->
        In i (imports st) \/ i = uuidImport \/ i = timeImport)
  /\ ((exists k f, In k ks /\ Obj.get k (fields st) = Some f
                   /\ truthy (getv "Primary" f) = false) ->
      In uuidImport (imports st')).
Proof.
  revert st. induction ks as [|x ks IH]; intros st H Hks Hst.
  - injection H as <-. repeat split; auto. intros (k & f & [] & _).
  - rewrite forEachM_cons in H. apply rbind_Ok in H as (st1 & Hx & H).
    assert (Hxdot : Str.contains "." x = false) by (apply Hks; now left).
    assert (Hks' : forall k, In k ks -> Str.contains "." k = false)
      by (intros; apply Hks; now right).
    apply resolveField_step in Hx
      as [[-> Hnone]|(f & r & Hf & Hr & Hfields & Hpar)].
    + destruct (IH st H Hks' Hst) as (I1 & I2 & I3 & I4 & I5 & I6).
      split; [auto|]. split; [auto|]. split; [auto|]. split; [auto|].
      split; [auto|]. intros (k & f & [<-|Hk] & Hf & Hp).
      * rewrite Hnone in Hf. discriminate.
      * apply I6. eauto.
    + rewrite Hxdot in Hfields, Hpar.
      destruct (resolveFieldType_imports _ _ _ _ Hr) as (R1 & R2 & R3 & R4).
      assert (Hst1 : forall k, In k (Obj.keys (fields st1)) ->
                               Str.contains "." k = false).
      { intros k Hk. rewrite Hfields in Hk.
        apply ObjFacts.In_keys_set in Hk as [->|Hk]; auto. }
      destruct (IH st1 H Hks' Hst1) as (I1 & I2 & I3 & I4 & I5 & I6).
      split; [auto|]. split; [congruence|]. split; [auto|]. split; [auto|].
      split.
      * intros i Hi. apply I5 in Hi as [Hi|Hi]; [|tauto].
        apply R3 in Hi. tauto.
      * intros (k & f' & Hk & Hf' & Hp).
        destruct (string_dec x k) as [<-|Hne].
        -- apply I4, R4. rewrite Hf in Hf'. now injection Hf' as <-.
        -- destruct Hk as [|Hk]; [contradiction|].
           apply I6. exists k, f'. split; auto. split; auto.
           rewrite Hfields. now rewrite ObjFacts.get_set_ne.
Qed.

Lemma expandLoop_nonprimary (ks : list string) (st st' : modelState) :
  forEachM (expandField modulePath packageCamelCase) ks st = Ok st' ->
  (exists k f, Obj.get k (fields st) = Some f
               /\ truthy (getv "Primary" f) = false) ->
  exists k f, Obj.get k (fields st') = Some f
              /\ truthy (getv "Primary" f) = false.
Proof.
  revert st. induction ks as [|x ks IH]; intros st H Hex.
  - now injection H as <-.
  - rewrite forEachM_cons in H. apply rbind_Ok in H as (st1 & Hx & H).
    apply (IH st1 H).
    apply expandField_step in Hx
      as [[-> _]|[(_ & _ & _ & _ & Hprim & _)
                 |(_ & _ & _ & _ & (ref & Href & Hp) & _)]]; auto.
    + destruct Hex as (k & f & Hf & Hp).
      destruct (Hprim k f Hf) as (f'' & Hf'' & Hp'').
      exists k, f''. split; auto. now rewrite Hp''.
    + exists (relatedModelOf x), ref. split; auto. now rewrite Hp.
Qed.

Lemma processModelFields_loops (fields0 : modelObj) (st : modelState) :
  processModelFields modulePath packageCamelCase fields0 = Ok st ->
  exists st1,
    forEachM (expandField modulePath packageCamelCase) (Obj.keys fields0)
      {| fields := fields0; imports := []; parentModel := None |} = Ok st1
    /\ forEachM resolveField (Obj.keys (fields st1)) st1 = Ok st
    /\ forall k, In k (Obj.keys (fields st1)) -> Str.contains "." k = false.
Proof.
  unfold processModelFields. intros H.
  apply rbind_Ok in H as (st1 & H1 & H2). exists st1. repeat split; auto.
  intros k Hk. destruct (Str.contains "." k) eqn:Edot; auto.
  destruct (expandLoop_dotted _ _ _ H1 k Hk Edot) as [Hin Hnin].
  contradiction.
Qed.

(** X16. after the two field loops of a model no field key contains a
    dot: every relationship key has been replaced. *)
Theorem processModelFields_drops_dotted_keys
    (fields0 : modelObj) (st : modelState) :
  processModelFields modulePath packageCamelCase fields0 = Ok st ->
  forall k, In k (Obj.keys (fields st)) -> Str.contains "." k = false.
Proof.
  intros H. apply processModelFields_loops in H as (st1 & _ & H2 & Hst1).
  now destruct (resolveLoop _ _ _ H2 Hst1 Hst1) as (I1 & _).
Qed.

(** X17. the parent holder of a model ends up with the last field key, in
    key order, that contains a dot, and stays unset when there is none:
    of several relationship keys only the last one is recorded. *)
Theorem processModelFields_parent_is_last_dotted_key
    (fields0 : modelObj) (st : modelState) :
  List.NoDup (Obj.keys fields0) ->
  processModelFields modulePath packageCamelCase fields0 = Ok st ->
  parentModel st = lastDotted (Obj.keys fields0).
Proof.
  intros Hnd H. apply processModelFields_loops in H as (st1 & H1 & H2 & Hst1).
  destruct (resolveLoop _ _ _ H2 Hst1 Hst1) as (_ & -> & _).
  now destruct (expandLoop_present (Obj.keys fields0)
              {| fields := fields0; imports := []; parentModel := None |}
              st1 Hnd (fun k Hk => Hk) H1) as [-> _].
Qed.


(** X19. a model with a field that is not marked [Primary] imports the
    uuid package, whatever the types of its fields. *)
Theorem processModelFields_imports_uuid
    (fields0 : modelObj) (st : modelState) (k : string) (f : fieldObj) :
  processModelFields modulePath packageCamelCase fields0 = Ok st ->
  Obj.get k fields0 = Some f ->
  truthy (getv "Primary" f) = false ->
  In uuidImport (imports st).
Proof.
  intros H Hf Hp. apply processModelFields_loops in H as (st1 & H1 & H2 & Hst1).
  destruct (resolveLoop _ _ _ H2 Hst1 Hst1) as (_ & _ & _ & _ & _ & R6).
  apply R6.
  destruct (expandLoop_nonprimary _ _ _ H1) as (k1 & f1 & Hf1 & Hp1).
  { exists k, f. auto. }
  exists k1, f1. split; auto. eapply ObjFacts.get_Some_In; eauto.
Qed.

End FieldLoops.

Lemma processModelFields_drops_dotted_keys_witness :
  processModelFields "example.com/app" "orgs" membershipFields
  = Ok membershipResolved
  /\ forall k, In k (Obj.keys (fields membershipResolved)) ->
               Str.contains "." k = false.
Proof.
  split; [reflexivity|].
  apply (processModelFields_drops_dotted_keys "example.com/app" "orgs"
           membershipFields membershipResolved).
  reflexivity.
Defined.

Lemma processModelFields_parent_is_last_dotted_key_witness :
  parentModel membershipResolved = lastDotted (Obj.keys membershipFields).
Proof.
  apply (processModelFields_parent_is_last_dotted_key "example.com/app"
           "orgs" membershipFields membershipResolved);
    [apply nodupb_NoDup|]; reflexivity.
Defined.


Lemma processModelFields_imports_uuid_witness :
  In uuidImport (imports membershipResolved).
Proof.
  apply (processModelFields_imports_uuid "example.com/app" "orgs"
           membershipFields membershipResolved "orgs.Org" createRequired);
    reflexivity.
Defined.


(** ** TypeResolver: the steps of the second loop together *)

Lemma setDefaultValue_getv (f f' : fieldObj) (k : string) :
  setDefaultValue f = Ok f' -> k <> "DefaultValue" -> getv k f' = getv k f.
Proof.
  unfold setDefaultValue. intros H Hk.
  destruct (negb (isUndef (getv "DefaultValue" f)));
    [|now injection H as <-].
  apply rbind_Ok in H as (dv & _ & [= <-]). apply getv_set_ne. congruence.
Qed.

Lemma setDefaultValue_total (f : fieldObj) :
  isStr "string" (getv "typeFromTypes" f) = false ->
  exists f', setDefaultValue f = Ok f'.
Proof.
  unfold setDefaultValue. intros ->.
  destruct (negb (isUndef (getv "DefaultValue" f))); simpl; eauto.
Qed.

Lemma setFieldLength_getv (f : fieldObj) (k : string) :
  k <> "Length" -> getv k (setFieldLength f) = getv k f.
Proof.
  intros Hk. unfold setFieldLength.
  destruct (negb (isUndef (getv "length" f))),
           (negb (isUndef (getv "MaximumLength" f)));
    rewrite ?getv_set_ne by congruence; reflexivity.
Qed.

Lemma setIntType_other (f : fieldObj) :
  isStr "int" (getv "typeFromTypes" f) = false -> setIntType f = Ok f.
Proof. unfold setIntType. now intros ->. Qed.

Lemma setFloatType_other (f : fieldObj) :
  isStr "float" (getv "typeFromTypes" f) = false -> setFloatType f = Ok f.
Proof. unfold setFloatType. now intros ->. Qed.

Lemma setTimeType_other (f : fieldObj) :
  isStr "time.Time" (getv "typeFromTypes" f) = false -> setTimeType f = f.
Proof. unfold setTimeType. now intros ->. Qed.

(** X20. for a field of a structured registry type whose descriptor gives
    a length, the second loop completes and the resolved [Length] (and
    [length]) is the descriptor's, also when the field has a
    [MaximumLength] of its own; a type named by the descriptor is the
    resolved type. *)
Theorem resolveFieldType_descriptor_length
    (f : fieldObj) (imps : list string) (o : list (string * value)) :
  getv "typeFromTypes" f = VObj o ->
  truthy (getv "length" o) = true ->
  exists r imps',
    resolveFieldType f imps = Ok (r, imps')
    /\ getv "Length" r = getv "length" o
    /\ getv "length" r = getv "length" o
    /\ (truthy (getv "type" o) = true -> getv "type" r = getv "type" o).
Proof.
  intros Ht Hlen.
  assert (Hdef : isUndef (getv "length" o) = false)
    by (destruct (getv "length" o); auto; discriminate).
  unfold resolveFieldType, createFieldVariables. rewrite Ht, Hlen.
  cbn [truthy]. cbv iota.
  set (f0 := Obj.set "length" (getv "length" o) f).
  assert (Ht0 : getv "typeFromTypes" f0 = VObj o).
  { unfold f0. rewrite getv_set_ne by discriminate. exact Ht. }
  set (f1 := setDefaultFieldType f0).
  assert (Hf1 : f1 = Obj.set "Length" (getv "length" o)
                       (if truthy (getv "type" o)
                        then Obj.set "type" (getv "type" o) f0 else f0)).
  { unfold f1, setDefaultFieldType. rewrite Ht0. now rewrite Hlen. }
  assert (Ht1 : getv "typeFromTypes" f1 = VObj o).
  { rewrite Hf1. rewrite getv_set_ne by discriminate.
    destruct (truthy (getv "type" o)); auto.
    now rewrite getv_set_ne by discriminate. }
  assert (Hl1 : getv "length" f1 = getv "length" o).
  { rewrite Hf1. rewrite getv_set_ne by discriminate.
    destruct (truthy (getv "type" o));
      rewrite ?getv_set_ne by discriminate; apply getv_set_eq. }
  assert (Hty1 : truthy (getv "type" o) = true ->
                 getv "type" f1 = getv "type" o).
  { intros Hty. rewrite Hf1, Hty. rewrite getv_set_ne by discriminate.
    apply getv_set_eq. }
  destruct (setDefaultValue_total f1) as (f2 & Hf2); [now rewrite Ht1|].
  rewrite Hf2. cbn [rbind].
  assert (Hget2 : forall k, k <> "DefaultValue" -> getv k f2 = getv k f1)
    by (intros; now apply setDefaultValue_getv).
  set (f3 := setFieldLength f2).
  assert (Hget3 : forall k, k <> "Length" -> k <> "DefaultValue" ->
                            getv k f3 = getv k f1).
  { intros k Hk1 Hk2. unfold f3. rewrite setFieldLength_getv by auto. auto. }
  assert (HL3 : getv "Length" f3 = getv "length" o).
  { unfold f3, setFieldLength. rewrite (Hget2 "length") by discriminate.
    rewrite Hl1, Hdef. cbn [negb]. apply getv_set_eq. }
  assert (Ht3 : getv "typeFromTypes" f3 = VObj o)
    by (rewrite Hget3 by discriminate; exact Ht1).
  rewrite setTimeType_other by now rewrite Ht3.
  rewrite setIntType_other by now rewrite Ht3. cbn [rbind].
  rewrite setFloatType_other by now rewrite Ht3. cbn [rbind].
  eexists _, _. split; [reflexivity|]. split; [exact HL3|]. split.
  - rewrite Hget3 by discriminate. exact Hl1.
  - intros Hty. rewrite Hget3 by discriminate. auto.
Qed.

Lemma resolveFieldType_descriptor_length_witness :
  exists r imps',
    resolveFieldType textField [] = Ok (r, imps')
    /\ getv "Length" r = VNum 65535%Q.
Proof.
  destruct (resolveFieldType_descriptor_length textField []
              [("type", VStr "string"); ("length", VNum 65535%Q)]
              eq_refl eq_refl) as (r & imps' & H & HL & _).
  exists r, imps'. split; [exact H | exact HL].
Defined.

(** X21. for a field of the registry type [time.Time] the second loop
    completes, imports the time package, resolves the type to the
    pointer type [*time.Time] unless the field is marked [NotNull], and
    marks a field with [AutoCreate] as [autoCreateTime]. *)
Theorem resolveFieldType_time (f : fieldObj) (imps : list string) :
  getv "typeFromTypes" f = VStr "time.Time" ->
  exists r imps',
    resolveFieldType f imps = Ok (r, imps')
    /\ getv "type" r
       = VStr (if truthy (getv "NotNull" f) then "time.Time"
               else "*time.Time")
    /\ In timeImport imps'
    /\ (truthy (getv "AutoCreate" f) = true ->
        getv "misc" r = VStr "autoCreateTime").
Proof.
  intros Ht.
  unfold resolveFieldType, createFieldVariables. rewrite Ht.
  cbn [truthy String.eqb Ascii.eqb Bool.eqb negb]. cbv iota.
  set (f1 := setDefaultFieldType f).
  assert (Hf1 : f1 = Obj.set "type" (VStr "time.Time") f)
    by (unfold f1, setDefaultFieldType; now rewrite Ht).
  assert (Hget1 : forall k, k <> "type" -> getv k f1 = getv k f)
    by (intros k Hk; rewrite Hf1; apply getv_set_ne; congruence).
  destruct (setDefaultValue_total f1) as (f2 & Hf2);
    [now rewrite Hget1, Ht by discriminate|].
  rewrite Hf2. cbn [rbind].
  assert (Hget2 : forall k, k <> "DefaultValue" -> getv k f2 = getv k f1)
    by (intros; now apply setDefaultValue_getv).
  set (f3 := setFieldLength f2).
  assert (Hget3 : forall k, k <> "Length" -> k <> "DefaultValue" ->
                            getv k f3 = getv k f1).
  { intros k Hk1 Hk2. unfold f3. rewrite setFieldLength_getv by auto. auto. }
  assert (Ht3 : getv "typeFromTypes" f3 = VStr "time.Time").
  { rewrite Hget3, Hget1 by discriminate. exact Ht. }
  set (f4 := setTimeType f3).
  assert (Hf4 : f4 = (let g := if negb (truthy (getv "NotNull" f))
                               then Obj.set "type" (VStr "*time.Time") f3
                               else f3 in
                      if truthy (getv "AutoCreate" f)
                      then Obj.set "misc" (VStr "autoCreateTime") g else g)).
  { unfold f4, setTimeType. rewrite Ht3.
    rewrite !Hget3, !Hget1 by discriminate. reflexivity. }
  assert (Ht4 : getv "typeFromTypes" f4 = VStr "time.Time").
  { rewrite Hf4. cbv zeta.
    destruct (truthy (getv "AutoCreate" f)), (negb (truthy (getv "NotNull" f)));
      rewrite ?getv_set_ne by discriminate; exact Ht3. }
  rewrite setIntType_other by now rewrite Ht4. cbn [rbind].
  rewrite setFloatType_other by now rewrite Ht4. cbn [rbind].
  eexists _, _. split; [reflexivity|]. split; [|split].
  - rewrite Hf4. cbv zeta.
    destruct (truthy (getv "AutoCreate" f)), (truthy (getv "NotNull" f));
      cbn [negb]; rewrite ?getv_set_ne by discriminate;
      rewrite ?getv_set_eq; auto;
      rewrite Hget3 by discriminate; rewrite Hf1; apply getv_set_eq.
  - apply setPrimarykey_spec. unfold addToImports.
    change (Obj.get "time.Time" importStringsMaps) with (Some timeImport).
    cbv iota. destruct (Str.includes timeImport imps) eqn:E.
    + now apply includes_In.
    + apply in_app_iff. right. now left.
  - intros Ha. rewrite Hf4, Ha. cbv zeta. apply getv_set_eq.
Qed.

Lemma resolveFieldType_time_witness :
  exists r imps',
    resolveFieldType createdAtField [] = Ok (r, imps')
    /\ getv "type" r = VStr "*time.Time"
    /\ In timeImport imps'.
Proof.
  destruct (resolveFieldType_time createdAtField [] eq_refl)
    as (r & imps' & H & Hty & Himp & _).
  exists r, imps'. split; [exact H|]. split; [exact Hty | exact Himp].
Defined.

(** X22. an integer field whose two bounds are numbers always gets a
    width, and the width depends on the lower bound through its sign
    only: unsigned when Minimum is at least 0, with 32 bits when Maximum
    is at most 4294967295 (unsigned) or 2147483647 (signed), and with 64
    bits otherwise.  Neither the size of a negative Minimum nor a
    Maximum beyond the 64-bit range is looked at. *)
Theorem setIntType_two_bounds (field : fieldObj) (mn mx : Q) :
  getv "typeFromTypes" field = VStr "int" ->
  getv "Minimum" field = VNum mn ->
  getv "Maximum" field = VNum mx ->
  setIntType field
  = Ok (Obj.set "type"
          (VStr (if Qle_bool 0 mn
                 then if Qle_bool mx 4294967295 then "uint32" else "uint64"
                 else if Qle_bool mx 2147483647 then "int32" else "int64"))
          field).
Proof.
  intros Ht Hmn Hmx. unfold setIntType. rewrite Ht, Hmn, Hmx.
  change (isStr "int" (VStr "int")) with true.
  cbn [isUndef negb andb toNumber rbind]. cbv iota.
  unfold intWidth, ge, le, gt, lt, leB.
  destruct (Qle_bool 0 mn); cbn [andb negb].
  - destruct (Qle_bool mx 4294967295); reflexivity.
  - destruct (Qle_bool mx 2147483647); reflexivity.
Qed.

Lemma setIntType_two_bounds_witness :
  setIntType ageField = Ok (Obj.set "type" (VStr "uint32") ageField).
Proof.
  apply (setIntType_two_bounds ageField 0 150); reflexivity.
Defined.

Lemma setFloatType_with_Maximum_witness :
  setFloatType floatFieldMax1e39
  = Ok (Obj.set "type" (VStr "float32") floatFieldMax1e39).
Proof.
  apply (setFloatType_with_Maximum floatFieldMax1e39 (inject_Z (10 ^ 39)));
    reflexivity.
Defined.


(** ** RouteProjector: the order of the route lists *)

Lemma includes_cons (f x : string) (ks : list string) :
  Str.includes f (x :: ks) = String.eqb f x || Str.includes f ks.
Proof. reflexivity. Qed.

Lemma filter_filter_andb {A} (p q : A -> bool) (l : list A) :
  List.filter q (List.filter p l) = List.filter (fun x => p x && q x) l.
Proof.
  induction l as [|x l IH]; simpl; auto.
  destruct (p x); simpl; [destruct (q x)|]; now rewrite IH.
Qed.

Lemma keys_stripFields (ks : list string) (model : modelObj) :
  List.NoDup ks ->
  Obj.keys (fold_left stripField ks model)
  = List.filter (fun f => negb (Str.includes f ks) || hasApi model f)
      (Obj.keys model).
Proof.
  revert model. induction ks as [|x ks IH]; intros model Hnd.
  - simpl. symmetry. apply forallb_filter_id. now apply forallb_forall.
  - apply List.NoDup_cons_iff in Hnd as [Hx Hnd]. cbn [fold_left].
    rewrite (IH _ Hnd). rewrite stripField_unfold.
    assert (Hxks : Str.includes x ks = false).
    { destruct (Str.includes x ks) eqn:E; auto.
      apply includes_In in E. contradiction. }
    destruct (Obj.get x model) as [props|] eqn:Eget.
    + destruct (length (Obj.keys (stripProps (Obj.keys props) props)) =? 0)%nat
        eqn:Elen.
      * apply Nat.eqb_eq, stripProps_empty_iff in Elen.
        rewrite ObjFacts.keys_del, filter_filter_andb.
        apply filter_ext_in. intros f Hf. rewrite includes_cons.
        destruct (String.eqb_spec x f) as [<-|Hne].
        -- rewrite String.eqb_refl. cbn [negb orb andb].
           unfold hasApi. now rewrite Eget, Elen.
        -- destruct (String.eqb_spec f x) as [->|_]; [contradiction|].
           cbn [negb orb andb]. unfold hasApi.
           now rewrite ObjFacts.get_del_ne.
      * assert (Hapi : exists v, Obj.get "api" props = Some v).
        { destruct (Obj.get "api" props) eqn:E; eauto.
          apply stripProps_empty_iff in E. rewrite E in Elen. discriminate. }
        destruct Hapi as (v & Hv).
        rewrite ObjFacts.keys_set_in
          by (eapply ObjFacts.get_Some_In; eauto).
        apply filter_ext_in. intros f Hf. rewrite includes_cons.
        destruct (String.eqb_spec f x) as [->|Hne]; cbn [negb orb].
        -- rewrite Hxks. cbn [negb orb]. unfold hasApi. now rewrite Eget, Hv.
        -- unfold hasApi. now rewrite ObjFacts.get_set_ne by congruence.
    + apply filter_ext_in. intros f Hf. rewrite includes_cons.
      destruct (String.eqb_spec f x) as [->|Hne]; auto.
      apply ObjFacts.get_None_notin in Eget. contradiction.
Qed.

Lemma filterM_filter {A} (p : A -> result bool) (l l' : list A) :
  filterM p l = Ok l' ->
  l' = List.filter
         (fun x => match p x with Ok true => true | _ => false end) l.
Proof.
  revert l'. induction l as [|x l IH]; intros l' H; simpl in H.
  - now injection H as <-.
  - apply rbind_Ok in H as (b & Hb & H).
    apply rbind_Ok in H as (r' & Hr & [= <-]).
    simpl. rewrite Hb. rewrite (IH r' Hr). now destruct b.
Qed.

(** X24. the route list of an action holds the fields of the model whose
    api object lists the action, in the order of the fields in the
    model. *)
Theorem routesOfModel_lists_in_field_order
    (model model' : modelObj) (entry : routeModel) (a : string) :
  wellFormedModel model ->
  routesOfModel model = Ok (model', entry) ->
  In a actions ->
  actionList a entry = List.filter (exposes model a) (Obj.keys model).
Proof.
  intros [Hnd Hwf] H Ha. unfold routesOfModel in H.
  apply rbind_Ok in H as (entry0 & Hentry & [= <- <-]).
  set (model' := fold_left stripField (Obj.keys model) model) in *.
  destruct (routeActions_spec model' entry0 Hentry) as [Hact _].
  destruct (Hact a Ha) as (l & Hl & Hget).
  assert (Hlist : actionList a entry0 = l).
  { unfold actionList. rewrite Hget. now destruct l. }
  rewrite Hlist. apply filterM_filter in Hl as Hfilter. rewrite Hfilter.
  unfold model' at 2. rewrite (keys_stripFields _ _ Hnd), filter_filter_andb.
  apply filter_ext_in. intros f Hf.
  assert (Hinc : Str.includes f (Obj.keys model) = true)
    by now apply includes_In.
  rewrite Hinc. cbn [negb orb]. unfold hasApi, exposes.
  destruct (ObjFacts.In_keys_get _ _ Hf) as (props & Hprops).
  rewrite Hprops.
  destruct (stripFields_spec (Obj.keys model) model Hnd) as [Hin _].
  pose proof (Hin f Hf props Hprops) as Hf'. fold model' in Hf'.
  unfold apiObjectKeys, getv.
  destruct (Obj.get "api" props) as [v|] eqn:Eapi; [|reflexivity].
  cbn [andb]. unfold fieldHasAction. rewrite Hf'.
  unfold getv. rewrite stripProps_keeps_api, Eapi.
  destruct v as [|?|?|s|o]; cbn [Object_keys rbind]; auto.
  - destruct (Str.includes a (indexKeys (String.length s))) eqn:E; auto.
    apply includes_In in E. now apply indexKeys_not_action in E.
  - now destruct (Str.includes a (Obj.keys o)).
Qed.

Lemma routesOfModel_lists_in_field_order_witness :
  actionList "create" userRoutes
  = List.filter (exposes segregatedUser "create") (Obj.keys segregatedUser).
Proof.
  apply (routesOfModel_lists_in_field_order segregatedUser strippedUser
           userRoutes "create").
  - apply checkModel_sound. reflexivity.
  - reflexivity.
  - simpl. auto.
Defined.

Lemma models_document_fields_keep_only_api_witness :
  processRoutesDataFromModelsData (fst (allocSchema segregatedUsers))
    (Object_assign [] (snd (allocSchema segregatedUsers)))
  = Ok (fst usersProjected, snd usersProjected)
  /\ forall p pkg' m model' f props',
    Obj.get p (stringify (fst usersProjected)
                 (snd (allocSchema segregatedUsers)))
    = Some (DocPackage pkg') ->
    Obj.get m pkg' = Some model' ->
    Obj.get f model' = Some props' ->
    forall k, In k (Obj.keys props') -> k = "api".
Proof.
  split; [reflexivity|].
  apply (models_document_fields_keep_only_api segregatedUsers
           (fst (allocSchema segregatedUsers)) (fst usersProjected)
           (snd (allocSchema segregatedUsers)) (snd usersProjected)).
  - apply checkSchema_sound. reflexivity.
  - reflexivity.
  - reflexivity.
Defined.

(** ** The model loop of [processModels]: the model strings *)

Lemma get_entry_NoDup {V} (o : list (string * V)) (kv : string * V) :
  List.NoDup (Obj.keys o) -> In kv o -> Obj.get (fst kv) o = Some (snd kv).
Proof.
  induction o as [|[k v] o IH]; simpl; intros Hnd Hin; [destruct Hin|].
  apply List.NoDup_cons_iff in Hnd as [Hnin Hnd].
  destruct Hin as [<-|Hin]; simpl.
  - now rewrite String.eqb_refl.
  - destruct (String.eqb_spec (fst kv) k) as [E|_]; auto.
    exfalso. apply Hnin. rewrite <- E. unfold Obj.keys.
    now apply in_map.
Qed.

Section ModelStrings.

Variable modulePath : string.
Variable camelCase : string -> string.

Lemma processModel_loop_strings (pcc : string) (pd : packageObj)
    (ks : list string) (st st' : modelsState) :
  forEachM (processModel modulePath pcc pd) ks st = Ok st' ->
  allModelStrs st'
  = allModelStrs st ++ map (fun m => (pcc ++ "Models." ++ m)%string) ks.
Proof.
  revert st. induction ks as [|x ks IH]; intros st H.
  - injection H as <-. now rewrite app_nil_r.
  - rewrite forEachM_cons in H. apply rbind_Ok in H as (st1 & Hx & H).
    rewrite (IH st1 H). unfold processModel in Hx.
    destruct (Obj.get x pd); [|discriminate].
    apply rbind_Ok in Hx as (ms & _ & [= <-]). cbn [allModelStrs map].
    now rewrite <- app_assoc.
Qed.

(** X26. [processModels] yields one model string
    [<package>Models.<model>] for every model, packages and models in
    schema order, and hands the list on reversed. *)
Theorem processModels_model_strings (modelsData : schema) (st : modelsState) :
  List.NoDup (Obj.keys modelsData) ->
  processModels modulePath camelCase modelsData = Ok st ->
  allModelStrs st
  = rev (flat_map
           (fun kv =>
              map (fun m => (camelCase (fst kv) ++ "Models." ++ m)%string)
                (Obj.keys (snd kv)))
           modelsData).
Proof.
  intros Hnd H. unfold processModels in H.
  apply rbind_Ok in H as (st0 & Hloop & [= <-]). cbn [allModelStrs].
  f_equal.
  assert (Hgen : forall todo s s',
             (forall kv, In kv todo ->
                Obj.get (fst kv) modelsData = Some (snd kv)) ->
             forEachM (processPackage modulePath camelCase modelsData)
               (Obj.keys todo) s = Ok s' ->
             allModelStrs s'
             = allModelStrs s
               ++ flat_map
                    (fun kv =>
                       map (fun m =>
                              (camelCase (fst kv) ++ "Models." ++ m)%string)
                         (Obj.keys (snd kv)))
                    todo).
  { induction todo as [|[p pkg] todo IH]; intros s s' Hget Hl.
    - injection Hl as <-. now rewrite app_nil_r.
    - cbn [Obj.keys map fst] in Hl. rewrite forEachM_cons in Hl.
      apply rbind_Ok in Hl as (s1 & Hp & Hl).
      fold (Obj.keys todo) in Hl.
      rewrite (IH s1 s') by (auto; intros; apply Hget; now right).
      unfold processPackage in Hp.
      destruct (String.eqb (camelCase p) ""); [discriminate|].
      pose proof (Hget (p, pkg) (or_introl eq_refl)) as Hpp.
      cbn [fst snd] in Hpp. rewrite Hpp in Hp.
      apply processModel_loop_strings in Hp. rewrite Hp.
      cbn [flat_map fst snd]. now rewrite <- app_assoc. }
  rewrite (Hgen modelsData _ _ (fun kv Hin => get_entry_NoDup _ kv Hnd Hin)
             Hloop).
  reflexivity.
Qed.

End ModelStrings.

Lemma processModels_model_strings_witness :
  allModelStrs membershipModels
  = rev (flat_map
           (fun kv =>
              map (fun m => (fst kv ++ "Models." ++ m)%string)
                (Obj.keys (snd kv)))
           membershipSchema).
Proof.
  apply (processModels_model_strings "example.com/app" (fun s => s)
           membershipSchema membershipModels);
    [apply nodupb_NoDup|]; reflexivity.
Defined.


(** ** The import list of [db.go] and the module path *)







Lemma split_no_sep (c : ascii) (a : string) :
  Str.contains c a = false -> Str.split c a = [a].
Proof.
  induction a as [|d a IH]; simpl; auto.
  intros H. apply orb_false_iff in H as [Hd Ha]. rewrite Hd.
  now rewrite (IH Ha).
Qed.

Lemma split_first (c : ascii) (a r : string) :
  Str.contains c a = false ->
  Str.split c (a ++ String c r) = a :: Str.split c r.
Proof.
  induction a as [|d a IH]; simpl.
  - intros _. now rewrite Ascii.eqb_refl.
  - intros H. apply orb_false_iff in H as [Hd Ha]. rewrite Hd.
    now rewrite (IH Ha).
Qed.

Lemma isAscii_append (a b : string) :
  isAscii (a ++ b) = isAscii a && isAscii b.
Proof.
  unfold isAscii. induction a as [|c a IH]; simpl; auto.
  rewrite IH. now rewrite andb_assoc.
Qed.

Lemma removeModuleStrAndSpaces_module (p : string) :
  isAscii p = true ->
  whitespaceRun p = O ->
  removeModuleStrAndSpaces ("module " ++ p) = Ok p.
Proof.
  intros Hascii Hws. unfold removeModuleStrAndSpaces.
  rewrite isAscii_append, Hascii.
  change (isAscii "module ") with true. cbn [andb].
  unfold matchFirstWord.
  cbn -[isWhitespace].
  repeat match goal with
         | |- context [isWhitespace ?c] =>
             let b := eval vm_compute in (isWhitespace c) in
             change (isWhitespace c) with b
         end.
  cbv iota. cbn [Str.drop whitespaceRun].
  change (isWhitespace " ") with true. cbv iota. rewrite Hws. reflexivity.
Qed.

(** X29. When the first line of [go.mod] is [module <path>], with an
    ASCII path that does not start with white space, [readModulePath]
    returns the path, whether or not further lines follow. *)
Theorem readModulePath_module_line (p rest : string) :
  isAscii p = true ->
  Str.contains lf p = false ->
  whitespaceRun p = O ->
  readModulePath (Some ("module " ++ p)%string) = Ok p
  /\ readModulePath (Some ("module " ++ p ++ String lf rest)%string) = Ok p.
Proof.
  intros Hascii Hlf Hws.
  assert (Hline : Str.contains lf ("module " ++ p) = false).
  { rewrite contains_append, Hlf. reflexivity. }
  unfold readModulePath. split.
  - rewrite split_no_sep by exact Hline. cbn [hd].
    cbn [append String.eqb]. cbv iota.
    change (String "m" ("odule " ++ p))%string with ("module " ++ p)%string.
    now apply removeModuleStrAndSpaces_module.
  - change ("module " ++ p ++ String lf rest)%string
      with ("module " ++ (p ++ String lf rest))%string.
    replace ("module " ++ (p ++ String lf rest))%string
      with (("module " ++ p) ++ String lf rest)%string
      by (simpl; reflexivity).
    rewrite split_first by exact Hline. cbn [hd].
    cbn [append String.eqb]. cbv iota.
    change (String "m" ("odule " ++ p))%string with ("module " ++ p)%string.
    now apply removeModuleStrAndSpaces_module.
Qed.

Lemma readModulePath_module_line_witness :
  readModulePath (Some "module example.com/app")
  = Ok "example.com/app"
  /\ readModulePath
       (Some ("module example.com/app" ++ String lf "go 1.21")%string)
     = Ok "example.com/app".
Proof.
  apply (readModulePath_module_line "example.com/app" "go 1.21");
    reflexivity.
Defined.

(** ** RelationshipExpander: the whole first loop *)




Lemma In_expansionKeys (ks : list string) (k : string) :
  In k (expansionKeys ks)
  <-> exists x, In x ks /\ Str.contains "." x = true
                /\ (k = relatedModelOf x \/ k = relatedFieldNameOf x).
Proof.
  unfold expansionKeys, dottedKeys. rewrite in_flat_map. split.
  - intros (x & Hx & Hk). apply filter_In in Hx as [Hx Hd].
    exists x. repeat split; auto. simpl in Hk. intuition.
  - intros (x & Hx & Hd & Hk). exists x. split; [now apply filter_In|].
    simpl. intuition.
Qed.

Section WholeExpansion.

Variable modulePath : string.
Variable packageCamelCase : string.





End WholeExpansion.


